(** * Token-allocation calculator (arena-ICM): a verification development

    The two front ends of the repository, [app.py] (Streamlit) and [run.py]
    (Tk), share one small engine: a validator of a (team%, public%) pair and
    an arithmetic derivation of token amounts, prices and valuations.

    The engine is Python, so its numbers are Python numbers: unbounded [int]
    (the Streamlit sliders return ints, and the constants [100],
    [TOTAL_SUPPLY], [0] are ints) and [float], an IEEE-754 binary64 (the
    thresholds [0.1], [0.2], and everything a [tk.DoubleVar] returns).
    Both are modelled: ints as [Z], floats as the Standard Library's
    [spec_float] at precision 53, with Python's rules for mixed arithmetic,
    exact int/float comparison, and the two exceptions arithmetic can raise
    ([OverflowError], [ZeroDivisionError]). *)

From Stdlib Require Import ZArith Bool List String Ascii Lia.
From Stdlib Require Import SpecFloat DecimalString.
From Stdlib Require DecimalN DecimalPos.
Import ListNotations.

Local Open Scope Z_scope.

(* ================================================================== *)
(** * Python numbers *)
(* ================================================================== *)

Module Py.

(** binary64 *)
Definition prec : Z := 53.
Definition emax : Z := 1024.

Definition float := spec_float.

Definition fadd : float -> float -> float := SFadd prec emax.
Definition fsub : float -> float -> float := SFsub prec emax.
Definition fmul : float -> float -> float := SFmul prec emax.
Definition fdiv : float -> float -> float := SFdiv prec emax.

(** A positive finite double [m * 2^e]. *)
Definition F (m : positive) (e : Z) : float := S754_finite false m e.

Definition is_zero (x : float) : bool :=
  match x with S754_zero _ => true | _ => false end.

Definition is_infinity (x : float) : bool :=
  match x with S754_infinity _ => true | _ => false end.

(** ** Exceptions and the error monad *)

Inductive exn := OverflowError | ZeroDivisionError.

Inductive result (A : Type) :=
| Ok (a : A)
| Raise (e : exn).
Arguments Ok {A} a.
Arguments Raise {A} e.

Definition bind {A B} (c : result A) (k : A -> result B) : result B :=
  match c with
  | Ok a => k a
  | Raise e => Raise e
  end.

Definition raises {A} (c : result A) : bool :=
  match c with Ok _ => false | Raise _ => true end.

(** ** Values *)

Inductive num :=
| PInt (z : Z)
| PFloat (x : float).

(** [float(z)]: round to nearest even; a result beyond the largest double
    is an [OverflowError] ("int too large to convert to float"). *)
Definition float_of_int (z : Z) : result float :=
  let x := binary_normalize prec emax z 0 false in
  if is_infinity x then Raise OverflowError else Ok x.

(** ** Arithmetic

    int op int stays an int; as soon as one operand is a float the other is
    converted with [float_of_int] and the operation is the IEEE one.  Float
    [+], [-], [*] never raise (they overflow to infinity). *)

Definition arith (iop : Z -> Z -> Z) (fop : float -> float -> float)
    (a b : num) : result num :=
  match a, b with
  | PInt x, PInt y => Ok (PInt (iop x y))
  | PInt x, PFloat y =>
      bind (float_of_int x) (fun x' => Ok (PFloat (fop x' y)))
  | PFloat x, PInt y =>
      bind (float_of_int y) (fun y' => Ok (PFloat (fop x y')))
  | PFloat x, PFloat y => Ok (PFloat (fop x y))
  end.

Definition add : num -> num -> result num := arith Z.add fadd.
Definition sub : num -> num -> result num := arith Z.sub fsub.
Definition mul : num -> num -> result num := arith Z.mul fmul.

(** [x / y] on floats: a zero divisor raises, anything else is IEEE. *)
Definition float_truediv (x y : float) : result float :=
  if is_zero y then Raise ZeroDivisionError else Ok (fdiv x y).

(** [a / b] on ints: the correctly rounded quotient; a zero divisor raises
    [ZeroDivisionError], a quotient beyond the doubles [OverflowError];
    [0 / b] is a zero with the sign of [b]. *)
Definition int_truediv (a b : Z) : result float :=
  if b =? 0 then Raise ZeroDivisionError
  else if a =? 0 then Ok (S754_zero (b <? 0))
  else
    let s := xorb (a <? 0) (b <? 0) in
    let '(q, e, l) := SFdiv_core_binary prec emax (Z.abs a) 0 (Z.abs b) 0 in
    let x := binary_round_aux prec emax s q e l in
    if is_infinity x then Raise OverflowError else Ok x.

Definition truediv (a b : num) : result num :=
  match a, b with
  | PInt x, PInt y => bind (int_truediv x y) (fun q => Ok (PFloat q))
  | PInt x, PFloat y =>
      bind (float_of_int x) (fun x' =>
      bind (float_truediv x' y) (fun q => Ok (PFloat q)))
  | PFloat x, PInt y =>
      bind (float_of_int y) (fun y' =>
      bind (float_truediv x y') (fun q => Ok (PFloat q)))
  | PFloat x, PFloat y =>
      bind (float_truediv x y) (fun q => Ok (PFloat q))
  end.

(** ** Comparison

    Python compares an int with a float exactly, without converting the
    int (so no overflow); a NaN is unordered. *)

Definition compare_int_float (z : Z) (y : float) : option comparison :=
  match y with
  | S754_nan => None
  | S754_infinity s => Some (if s then Gt else Lt)
  | S754_zero _ => Some (z ?= 0)
  | S754_finite s m e =>
      let v := cond_Zopp s (Zpos m) in
      Some (match e with
            | Zneg p => (z * Z.pow_pos 2 p ?= v)
            | Z0 => (z ?= v)
            | Zpos p => (z ?= v * Z.pow_pos 2 p)
            end)
  end.

Definition compare (a b : num) : option comparison :=
  match a, b with
  | PInt x, PInt y => Some (x ?= y)
  | PInt x, PFloat y => compare_int_float x y
  | PFloat x, PInt y => option_map CompOpp (compare_int_float y x)
  | PFloat x, PFloat y => SFcompare x y
  end.

Definition lt (a b : num) : bool :=
  match compare a b with Some Lt => true | _ => false end.
Definition gt (a b : num) : bool :=
  match compare a b with Some Gt => true | _ => false end.
Definition ge (a b : num) : bool :=
  match compare a b with Some (Gt | Eq) => true | _ => false end.
Definition eq (a b : num) : bool :=
  match compare a b with Some Eq => true | _ => false end.

End Py.

Notation "x <- c ;; k" := (Py.bind c (fun x => k))
  (at level 61, c at next level, right associativity).

(* ================================================================== *)
(** * The allocation engine *)
(* ================================================================== *)

Import Py.
Local Open Scope string_scope.
Local Open Scope Z_scope.

(** ** Constants and literals *)

(** The float literals of the source, as the doubles Python reads them
    ([float.hex]: [0.1 = 0x1.999999999999ap-4], [0.2 = 0x1.999999999999ap-3]). *)
Definition lit_0_1 : float := F 0x1999999999999a (-56).
Definition lit_0_2 : float := F 0x1999999999999a (-55).

Definition TOTAL_SUPPLY : num := PInt 10000000000.
Definition LP_FUND_PERCENT : num := PFloat lit_0_2.

(** ** [format_number] (app.py:52, run.py:203)

    [f"{x:,.2f}"]: the exact binary value rounded half-even to hundredths,
    the integer part grouped by thousands. *)

Definition round_half_even (n d : Z) : Z :=
  let q := (n / d)%Z in
  match (2 * (n mod d) ?= d)%Z with
  | Lt => q
  | Eq => if Z.even q then q else (q + 1)%Z
  | Gt => (q + 1)%Z
  end.

Definition hundredths (m : positive) (e : Z) : Z :=
  match e with
  | Zneg p => round_half_even (Zpos m * 100) (Z.pow_pos 2 p)
  | Z0 => (Zpos m * 100)%Z
  | Zpos p => (Zpos m * Z.pow_pos 2 p * 100)%Z
  end.

Fixpoint commas_rev (k : nat) (ds : list ascii) : list ascii :=
  match ds with
  | [] => []
  | d :: ds' =>
      match k with
      | 3%nat => ","%char :: d :: commas_rev 1 ds'
      | _ => d :: commas_rev (S k) ds'
      end
  end.

Definition digits (n : Z) : string :=
  NilZero.string_of_uint (N.to_uint (Z.to_N n)).

Definition grouped (n : Z) : string :=
  string_of_list_ascii
    (rev (commas_rev 0 (rev (list_ascii_of_string (digits n))))).

Definition two_digits (n : Z) : string :=
  digits (n / 10) ++ digits (n mod 10).

Definition sign_prefix (s : bool) : string := if s then "-" else "".

Definition format_2f (x : float) : string :=
  match x with
  | S754_nan => "nan"
  | S754_infinity s => sign_prefix s ++ "inf"
  | S754_zero s => sign_prefix s ++ "0.00"
  | S754_finite s m e =>
      let n := hundredths m e in
      sign_prefix s ++ grouped (n / 100) ++ "." ++ two_digits (n mod 100)
  end.

(** Formatting an int with [,.2f] converts it to a float first. *)
Definition format_num_2f (x : num) : result string :=
  match x with
  | PInt z => f <- float_of_int z ;; Ok (format_2f f)
  | PFloat f => Ok (format_2f f)
  end.

Definition format_number (num : num) : result string :=
  if ge num (PInt 1000000000) then
    q <- truediv num (PInt 1000000000) ;;
    s <- format_num_2f q ;; Ok (s ++ "B")
  else if ge num (PInt 1000000) then
    q <- truediv num (PInt 1000000) ;;
    s <- format_num_2f q ;; Ok (s ++ "M")
  else if ge num (PInt 1000) then
    q <- truediv num (PInt 1000) ;;
    s <- format_num_2f q ;; Ok (s ++ "K")
  else
    format_num_2f num.

(** ** [validate_allocation] (app.py:63) *)

(** The rejection reasons of the specification and the messages the code
    returns for them; [None] is the empty message of a valid outcome. *)
Inductive reason := LP_ZERO_OR_NEGATIVE | LP_FDV_BELOW_ICO_FDV.

Definition message (r : option reason) : string :=
  match r with
  | Some LP_ZERO_OR_NEGATIVE => "LP cannot be 0%"
  | Some LP_FDV_BELOW_ICO_FDV => "LP FDV would drop below ICO FDV"
  | None => ""
  end.

(** Python's [a and b]: [b] is evaluated only when [a] is true. *)
Definition and_then (a : bool) (b : result bool) : result bool :=
  if a then b else Ok false.

(** [lp_percent = 100 - team_percent - public_percent] *)
Definition lp_of (team_percent public_percent : num) : result num :=
  d <- sub (PInt 100) team_percent ;; sub d public_percent.

Definition validate_allocation (team_percent public_percent : num)
  : result (bool * num * string) :=
  lp_percent <- lp_of team_percent public_percent ;;
  if lt lp_percent (PFloat lit_0_1) then
    Ok (false, lp_percent, "LP cannot be 0%")
  else
    c <- and_then (gt public_percent (PFloat lit_0_1))
           (m <- mul (PFloat lit_0_2) public_percent ;; Ok (gt lp_percent m)) ;;
    if c then Ok (false, lp_percent, "LP FDV would drop below ICO FDV")
    else Ok (true, lp_percent, "").

(** ** The derivation (app.py:136-163, run.py:274-277 and 303-326) *)

Record Calculations := {
  team_tokens : num;
  public_tokens : num;
  lp_tokens : num;
  lp_funds : num;
  team_funds : num;
  ico_price : num;
  lp_price : num;
  fdv_ico : num;
  fdv_lp : num;
  fdv_multiple : num
}.

(** [n / d if guard > 0 else 0] *)
Definition guarded_div (guard n d : num) : result num :=
  if gt guard (PInt 0) then truediv n d else Ok (PInt 0).

Definition calculations (team_percent public_percent funds_to_raise lp_percent : num)
  : result Calculations :=
  a <- truediv team_percent (PInt 100) ;;
  team_tokens <- mul TOTAL_SUPPLY a ;;
  b <- truediv public_percent (PInt 100) ;;
  public_tokens <- mul TOTAL_SUPPLY b ;;
  c <- truediv lp_percent (PInt 100) ;;
  lp_tokens <- mul TOTAL_SUPPLY c ;;
  lp_funds <- mul funds_to_raise LP_FUND_PERCENT ;;
  rest <- sub (PInt 1) LP_FUND_PERCENT ;;
  team_funds <- mul funds_to_raise rest ;;
  ico_price <- guarded_div public_tokens funds_to_raise public_tokens ;;
  lp_price <- guarded_div lp_tokens lp_funds lp_tokens ;;
  fdv_ico <- mul TOTAL_SUPPLY ico_price ;;
  fdv_lp <- mul TOTAL_SUPPLY lp_price ;;
  fdv_multiple <- guarded_div fdv_ico fdv_lp fdv_ico ;;
  Ok {| team_tokens := team_tokens; public_tokens := public_tokens;
        lp_tokens := lp_tokens; lp_funds := lp_funds;
        team_funds := team_funds; ico_price := ico_price;
        lp_price := lp_price; fdv_ico := fdv_ico; fdv_lp := fdv_lp;
        fdv_multiple := fdv_multiple |}.

(** The script of app.py from line 119 on: an invalid allocation stops at
    [st.stop()] and shows no numbers. *)
Definition app (team_percent funds_to_raise public_percent : num)
  : result (option Calculations) :=
  v <- validate_allocation team_percent public_percent ;;
  let '(is_valid, lp_percent, _) := v in
  if negb is_valid then Ok None
  else
    r <- calculations team_percent public_percent funds_to_raise lp_percent ;;
    Ok (Some r).

(** ** The Tk front end (run.py)

    A [tk.DoubleVar] always reads back a float.  The state of the window
    that matters is the three variables, the committed pair
    ([prev_team], [prev_public]) and the numbers on display. *)

Module Gui.

Record state := {
  team_var : float;
  funds_var : float;
  public_var : float;
  prev_team : float;
  prev_public : float;
  shown : option Calculations
}.

Inductive slider := Team | Public.

(** [update_calculations] (run.py:261): everything is inside one
    [try ... except Exception], so an exception leaves the display as it
    was (the label and progress-bar updates are not modelled). *)
Definition update_calculations (g : state) : state :=
  let team_percent := PFloat (team_var g) in
  let public_percent := PFloat (public_var g) in
  let funds_to_raise := PFloat (funds_var g) in
  match
    lp_percent <- lp_of team_percent public_percent ;;
    calculations team_percent public_percent funds_to_raise lp_percent
  with
  | Ok r =>
      {| team_var := team_var g; funds_var := funds_var g;
         public_var := public_var g; prev_team := prev_team g;
         prev_public := prev_public g; shown := Some r |}
  | Raise _ => g
  end.

(** The three checks of [validate_and_update] (run.py:216-235), on the
    two floats read from the variables. *)
Definition is_valid (team_var_get public_var_get : float) : result bool :=
  let team_val := PFloat team_var_get in
  let public_val := PFloat public_var_get in
  lp_val <- lp_of team_val public_val ;;
  total <- add team_val public_val ;;
  if ge total (PInt 100) then Ok false
  else if lt lp_val (PFloat lit_0_1) then Ok false
  else
    c <- and_then (gt public_val (PFloat lit_0_1))
           (m <- mul (PFloat lit_0_2) public_val ;; Ok (gt lp_val m)) ;;
    Ok (negb c).

(** [validate_and_update] (run.py:214). *)
Definition validate_and_update (slider_type : slider) (g : state)
  : result state :=
  let team_val := team_var g in
  let public_val := public_var g in
  ok <- is_valid team_val public_val ;;
  if negb ok then
    Ok match slider_type with
       | Team =>
           {| team_var := prev_team g; funds_var := funds_var g;
              public_var := public_var g; prev_team := prev_team g;
              prev_public := prev_public g; shown := shown g |}
       | Public =>
           {| team_var := team_var g; funds_var := funds_var g;
              public_var := prev_public g; prev_team := prev_team g;
              prev_public := prev_public g; shown := shown g |}
       end
  else
    Ok (update_calculations
          {| team_var := team_var g; funds_var := funds_var g;
             public_var := public_var g; prev_team := team_val;
             prev_public := public_val; shown := shown g |}).

(** A write to one of the three variables and the trace it fires
    (run.py:144-146). *)
Inductive event :=
| SetTeam (v : float)
| SetFunds (v : float)
| SetPublic (v : float).

Definition handle (g : state) (ev : event) : result state :=
  match ev with
  | SetTeam v =>
      validate_and_update Team
        {| team_var := v; funds_var := funds_var g;
           public_var := public_var g; prev_team := prev_team g;
           prev_public := prev_public g; shown := shown g |}
  | SetFunds v =>
      Ok (update_calculations
            {| team_var := team_var g; funds_var := v;
               public_var := public_var g; prev_team := prev_team g;
               prev_public := prev_public g; shown := shown g |})
  | SetPublic v =>
      validate_and_update Public
        {| team_var := team_var g; funds_var := funds_var g;
           public_var := v; prev_team := prev_team g;
           prev_public := prev_public g; shown := shown g |}
  end.

(** [__init__]: [DoubleVar(value=10)], [DoubleVar(value=100_000)],
    [DoubleVar(value=70)]; the committed pair is read from the variables
    and the first calculation is shown. *)
Definition lit_10 : float := F 0x14000000000000 (-49).
Definition lit_70 : float := F 0x11800000000000 (-46).
Definition lit_100000 : float := F 0x186a0000000000 (-36).

Definition init : state :=
  update_calculations
    {| team_var := lit_10; funds_var := lit_100000; public_var := lit_70;
       prev_team := lit_10; prev_public := lit_70; shown := None |}.

Fixpoint run (g : state) (evs : list event) : result state :=
  match evs with
  | [] => Ok g
  | ev :: evs' => g' <- handle g ev ;; run g' evs'
  end.

Definition reachable (g : state) : Prop :=
  exists evs, run init evs = Ok g.

End Gui.

(* ================================================================== *)
(** * Literals of the scenarios *)
(* ================================================================== *)

(** [89.9 = 0x1.679999999999ap+6], a little above 899/10. *)
Definition lit_89_9 : float := F 0x1679999999999a (-46).
(** [0.09999999999999432 = 0x1.99999999998p-4 = 90 - lit_89_9], exactly. *)
Definition lit_0_09999999999999432 : float := F 0x19999999999800 (-56).
(** [2e-06 = 0x1.0c6f7a0b5ed8dp-19] *)
Definition lit_2em6 : float := F 0x10c6f7a0b5ed8d (-71).
Definition lit_100 : float := F 0x19000000000000 (-46).
Definition lit_20 : float := F 0x14000000000000 (-48).
Definition lit_14 : float := F 0x1c000000000000 (-49).
Definition lit_20000 : float := F 0x13880000000000 (-38).
Definition lit_1e10 : float := F 0x12a05f20000000 (-19).
Definition lit_16 : float := F 0x10000000000000 (-48).
Definition lit_10000 : float := F 0x13880000000000 (-39).
(** [14285.714285714284] and its successor [14285.714285714286] *)
Definition lit_14285_714285714284 : float := F 0x1be6db6db6db6d (-39).
Definition lit_14285_714285714286 : float := F 0x1be6db6db6db6e (-39).

(** [10.000000000000002], the double after 10.0, and [75.0], [15.0]. *)
Definition lit_10_000000000000002 : float := F 0x14000000000001 (-49).
Definition lit_75 : float := F 0x12c00000000000 (-46).
Definition lit_15 : float := F 0x1e000000000000 (-49).

(** [1 - LP_FUND_PERCENT] is the double [0.8 = 0x1.999999999999ap-1]. *)
Definition lit_0_8 : float := F 0x1999999999999a (-53).

(* ================================================================== *)
(** * Notions used in the statements *)
(* ================================================================== *)

(** An int fits a double when its conversion does not overflow; a float
    needs no conversion. *)
Definition fits_double (n : num) : bool :=
  match n with
  | PInt z => negb (raises (float_of_int z))
  | PFloat _ => true
  end.


(** What the validator decides, from the three numbers it compares:
    [lp = 100 - team - public], [public] and [limit = 0.2 * public]. *)
Definition outcome (lp public limit : num) : bool * num * string :=
  if lt lp (PFloat lit_0_1) then
    (false, lp, message (Some LP_ZERO_OR_NEGATIVE))
  else if gt public (PFloat lit_0_1) && gt lp limit then
    (false, lp, message (Some LP_FDV_BELOW_ICO_FDV))
  else
    (true, lp, message None).

(** Every int that Python has to convert to a double fits one:
    [public] (for [0.2 * public], and for the subtraction when [team] is a
    float) and [100 - team] (when [public] is a float).  Floats qualify. *)
Definition convertible (team_percent public_percent : num) : bool :=
  fits_double public_percent &&
  match team_percent, public_percent with
  | PInt t, PFloat _ => fits_double (PInt (100 - t))
  | _, _ => true
  end.

(** The committed pair passes the three checks. *)
Definition committed_valid (g : Gui.state) : Prop :=
  Gui.is_valid (Gui.prev_team g) (Gui.prev_public g) = Ok true.

(** The variables show the committed pair (between two events). *)
Definition in_sync (g : Gui.state) : Prop :=
  Gui.team_var g = Gui.prev_team g /\ Gui.public_var g = Gui.prev_public g.

(** The two front ends agree at the slider position ([team], [public]):
    the Streamlit sliders give the two ints, the Tk scales the two floats. *)
Definition agree_at (team public : Z) : bool :=
  match float_of_int team, float_of_int public with
  | Ok x, Ok y =>
      match Gui.is_valid x y, validate_allocation (PInt team) (PInt public) with
      | Ok b, Ok (b', _, _) => Bool.eqb b b'
      | _, _ => false
      end
  | _, _ => false
  end.

(** The ints [a, a+1, ..., a+n-1]. *)
Definition range (a : Z) (n : nat) : list Z :=
  map (fun k => a + Z.of_nat k) (seq 0 n).

(** ** Doubles as integers

    Every finite double is an integer multiple of [2^-1074]; [K x] is that
    integer, and the infinities are sent to [top = 2^1024 / 2^-1074]. *)

Module Binary64.

Definition valid (x : float) : Prop := valid_binary prec emax x = true.

Definition is_nan (x : float) : bool :=
  match x with S754_nan => true | _ => false end.

Definition is_finite (x : float) : bool :=
  match x with S754_zero _ | S754_finite _ _ _ => true | _ => false end.

Definition top : Z := 2 ^ 2098.

Definition K (x : float) : Z :=
  match x with
  | S754_zero _ => 0
  | S754_infinity s => cond_Zopp s top
  | S754_nan => 0
  | S754_finite s m e => cond_Zopp s (Zpos m * 2 ^ (e + 1074))
  end.

(** [pack s q E] is the double with sign [s] and value [q * 2^E], for a
    rounded mantissa [0 <= q <= 2^53] at the exponent [E] of its binade. *)
Definition pack (s : bool) (q E : Z) : float :=
  match q with
  | Z0 => S754_zero s
  | Zpos m =>
      if q =? 2 ^ 53 then
        if E + 1 <=? 971 then S754_finite s 4503599627370496 (E + 1)
        else S754_infinity s
      else if E <=? 971 then S754_finite s m E
      else S754_infinity s
  | Zneg _ => S754_nan
  end.

(** The second half of [binary_round_aux]: renormalise after rounding. *)
Definition finish (s : bool) (m1 E : Z) : float :=
  let '(mrs'', e'') := shr_fexp prec emax m1 E loc_Exact in
  match shr_m mrs'' with
  | Z0 => S754_zero s
  | Zpos m =>
      if e'' <=? emax - prec then S754_finite s m e'' else S754_infinity s
  | _ => S754_nan
  end.

(** [R] is a rounding of the exact value [S] (in units of [2^-1074]): a
    double that no other double separates from [S]. *)
Definition rounds_to (S : Z) (R : float) : Prop :=
  valid R /\ is_nan R = false /\
  forall g, valid g -> is_nan g = false ->
    (S <= K g -> K R <= K g) /\ (K g <= S -> K g <= K R).

(** [x] is the double of the integer [n]. *)
Definition integral (x : float) (n : Z) : Prop :=
  valid x /\ is_finite x = true /\ K x = n * 2 ^ 1074.

(** [99.99999999999999], the double before 100.0; [0.0625]; [-4096.0];
    the largest double. *)
Definition pred_100 : float := F 0x18ffffffffffff (-46).
Definition sixteenth : float := F 0x10000000000000 (-56).
Definition minus_4096 : float := S754_finite true 0x10000000000000 (-40).
Definition max_float : float := F 0x1fffffffffffff 971.

End Binary64.

(* ================================================================== *)
(** * The rest of the two front ends *)
(* ================================================================== *)

(** ** Builtins *)

Module Builtin.

(** [abs(x)] *)
Definition abs (a : num) : num :=
  match a with
  | PInt z => PInt (Z.abs z)
  | PFloat x => PFloat (SFabs x)
  end.

(** [max(a, b)]: the first argument, unless the second is greater. *)
Definition max (a b : num) : num := if gt b a then b else a.

(** [s.startswith(prefix)] *)
Definition startswith (s prefix : string) : bool := String.prefix prefix s.

End Builtin.

(** ** More literals and formats *)

Definition lit_1_0 : float := F 0x10000000000000 (-52).
Definition lit_0_5 : float := F 0x10000000000000 (-53).

Definition tenths (m : positive) (e : Z) : Z :=
  match e with
  | Zneg p => round_half_even (Zpos m * 10) (Z.pow_pos 2 p)
  | Z0 => (Zpos m * 10)%Z
  | Zpos p => (Zpos m * Z.pow_pos 2 p * 10)%Z
  end.

(** [f"{x:.1f}"] *)
Definition format_1f (x : float) : string :=
  match x with
  | S754_nan => "nan"
  | S754_infinity s => sign_prefix s ++ "inf"
  | S754_zero s => sign_prefix s ++ "0.0"
  | S754_finite s m e =>
      let n := tenths m e in
      sign_prefix s ++ digits (n / 10) ++ "." ++ digits (n mod 10)
  end.

Definition format_num_1f (x : num) : result string :=
  match x with
  | PInt z => f <- float_of_int z ;; Ok (format_1f f)
  | PFloat f => Ok (format_1f f)
  end.

(** [f"{x:.2f}"]: as [format_2f], without the thousands separators. *)
Definition format_2f_plain (x : float) : string :=
  match x with
  | S754_nan => "nan"
  | S754_infinity s => sign_prefix s ++ "inf"
  | S754_zero s => sign_prefix s ++ "0.00"
  | S754_finite s m e =>
      let n := hundredths m e in
      sign_prefix s ++ digits (n / 100) ++ "." ++ two_digits (n mod 100)
  end.

Definition format_num_2f_plain (x : num) : result string :=
  match x with
  | PInt z => f <- float_of_int z ;; Ok (format_2f_plain f)
  | PFloat f => Ok (format_2f_plain f)
  end.

(** ** The numbers both front ends derive *)

(** [lp_percent] and the derivation from it (app.py:65 and 137-163,
    run.py:269 and 275-326). *)
Definition derived (team_percent public_percent funds_to_raise : num)
  : result Calculations :=
  lp_percent <- lp_of team_percent public_percent ;;
  calculations team_percent public_percent funds_to_raise lp_percent.

(** ** The Streamlit page (app.py) *)

Module Streamlit.

Record Slider := {
  min_value : Z;
  max_value : Z;
  value : Z;
  step : Z
}.

(** The three [st.slider] calls (app.py:86-114): team, funds, public. *)
Definition sliders : list Slider :=
  [ {| min_value := 0; max_value := 30; value := 10; step := 1 |};
    {| min_value := 10000; max_value := 2000000; value := 100000;
       step := 10000 |};
    {| min_value := 0; max_value := 100; value := 70; step := 1 |} ].

(** The sidebar's LP box (app.py:121-129): the text shown, whether it is
    shown as a success, the warning under it and the progress value. *)
Record Sidebar := {
  lp_text : string;
  success : bool;
  warning : option string;
  progress : num
}.

Definition sidebar (is_valid : bool) (lp_percent : num) (error_msg : string)
  : result Sidebar :=
  s <- format_num_1f lp_percent ;;
  if is_valid then
    p <- truediv lp_percent (PInt 100) ;;
    Ok {| lp_text := "**" ++ s ++ "%**"; success := true; warning := None;
          progress := p |}
  else
    Ok {| lp_text := "**" ++ s ++ "%** ⚠️"; success := false;
          warning := Some ("⚠️ " ++ error_msg); progress := PInt 0 |}.

(** One [st.metric]. *)
Record Metric := {
  label : string;
  metric_value : string;
  delta : option string
}.

(** The ten metrics (app.py:171-239). *)
Definition metrics (team_percent public_percent lp_percent funds_to_raise : num)
    (r : Calculations) : result (list Metric) :=
  tt <- format_number (team_tokens r) ;;
  td <- format_num_1f team_percent ;;
  pt <- format_number (public_tokens r) ;;
  pd <- format_num_1f public_percent ;;
  lt <- format_number (lp_tokens r) ;;
  ld <- format_num_1f lp_percent ;;
  fr <- format_number funds_to_raise ;;
  lf <- format_number (lp_funds r) ;;
  tf <- format_number (team_funds r) ;;
  fi <- format_number (fdv_ico r) ;;
  fl <- format_number (fdv_lp r) ;;
  fm <- format_num_2f_plain (fdv_multiple r) ;;
  Ok [ {| label := "Team Tokens"; metric_value := tt ++ " tokens";
          delta := Some (td ++ "%") |};
       {| label := "Public Sale Tokens"; metric_value := pt ++ " tokens";
          delta := Some (pd ++ "%") |};
       {| label := "LP Tokens"; metric_value := lt ++ " tokens";
          delta := Some (ld ++ "%") |};
       {| label := "Total Allocation"; metric_value := "100.0%";
          delta := Some "✓ Valid" |};
       {| label := "Total Funds Raised"; metric_value := "$" ++ fr;
          delta := None |};
       {| label := "LP Funds (20%)"; metric_value := "$" ++ lf;
          delta := None |};
       {| label := "Team Funds (80%)"; metric_value := "$" ++ tf;
          delta := None |};
       {| label := "Pre-Market FDV (ICO Price)"; metric_value := "$" ++ fi;
          delta := None |};
       {| label := "Market FDV (LP Price)"; metric_value := "$" ++ fl;
          delta := None |};
       {| label := "FDV Multiple"; metric_value := fm ++ "x";
          delta := None |} ].

(** What the page shows (app.py:119-239): the sidebar box and then either
    the error of an invalid allocation, where the script stops, or the
    metrics. *)
Definition page (team_percent funds_to_raise public_percent : num)
  : result (Sidebar * (string + list Metric)) :=
  v <- validate_allocation team_percent public_percent ;;
  let '(is_valid, lp_percent, error_msg) := v in
  sb <- sidebar is_valid lp_percent error_msg ;;
  if negb is_valid then
    Ok (sb, inl ("⚠️ Invalid Allocation: " ++ error_msg))
  else
    r <- calculations team_percent public_percent funds_to_raise lp_percent ;;
    ms <- metrics team_percent public_percent lp_percent funds_to_raise r ;;
    Ok (sb, inr ms).

End Streamlit.

(** ** The Tk window (run.py) *)

Module Tk.

(** [create_slider] (run.py:163-166): the resolution of the scale. *)
Definition resolution (from_ to : Z) : Z :=
  if to - from_ <=? 2000000 then
    if to >? 100 then 10000 else 1
  else 10000.

(** The three [create_slider] calls of [__init__] (run.py:48-59), as
    [from_], [to], [initial]: team, funds, public. *)
Definition scales : list (Z * Z * Z) :=
  [ (0, 30, 10); (10000, 2000000, 100000); (0, 100, 70) ].

(** [format_currency] (run.py:186) *)
Definition format_currency (value : num) : result string :=
  s <- format_number value ;; Ok ("$" ++ s).

(** [format_value_with_func] (run.py:181) *)
Definition format_value_with_func (value : num)
    (format_func : option (num -> result string)) : result string :=
  match format_func with
  | Some f => f value
  | None => s <- format_num_1f value ;; Ok (s ++ "%")
  end.

(** [result_fields] (run.py:107-120): label and key. *)
Definition result_fields : list (string * string) :=
  [ ("Team Tokens", "team_tokens");
    ("Public Sale Tokens", "public_tokens");
    ("LP Tokens", "lp_tokens");
    ("Total Allocation %", "total_percent");
    ("", "divider1");
    ("Total Funds Raised", "total_funds");
    ("LP Funds (20%)", "lp_funds");
    ("Team Funds (80%)", "team_funds");
    ("", "divider2");
    ("Pre-Market FDV (ICO Price)", "fdv_ico");
    ("Market FDV (LP Price)", "fdv_lp");
    ("FDV Multiple", "fdv_multiple") ].

(** [self.result_labels]: the text of the value label under each key, in
    insertion order. *)
Definition labels := list (string * string).

(** [result_labels[key] = value_label] *)
Fixpoint setitem (key text : string) (d : labels) : labels :=
  match d with
  | [] => [(key, text)]
  | (k, v) :: d' =>
      if String.eqb key k then (k, text) :: d'
      else (k, v) :: setitem key text d'
  end.

(** [result_labels[key].config(text=...)]; [None] is the [KeyError] of a
    missing key. *)
Fixpoint config (key text : string) (d : labels) : option labels :=
  match d with
  | [] => None
  | (k, v) :: d' =>
      if String.eqb key k then Some ((k, text) :: d')
      else option_map (cons (k, v)) (config key text d')
  end.

(** The loop of [__init__] over [result_fields] (run.py:122-127), with
    [create_result_row] (run.py:189): every row starts as ["..."]. *)
Definition create_result_rows (fields : list (string * string)) : labels :=
  fold_left
    (fun d '(label_text, key) =>
       if Builtin.startswith key "divider" then d else setitem key "..." d)
    fields [].

(** The LP box (run.py:279-301). *)
Record LpDisplay := {
  lp_value_label : string;
  lp_value_fg : string;
  warning_label : string;
  lp_bar : num
}.

Definition warning_lp_minimum : string :=
  "⚠️ At MINIMUM: LP cannot be 0% (slider blocked)".
Definition warning_fdv_limit : string :=
  "⚠️ At MINIMUM constraint: LP FDV = ICO FDV (slider blocked)".

Definition lp_display (lp_percent public_percent : num) : result LpDisplay :=
  w <- (if lt lp_percent (PFloat lit_1_0) then Ok (true, warning_lp_minimum)
        else if gt public_percent (PFloat lit_0_1) then
          max_lp_allowed <- mul (PFloat lit_0_2) public_percent ;;
          d <- sub lp_percent max_lp_allowed ;;
          if lt (Builtin.abs d) (PFloat lit_0_5)
          then Ok (true, warning_fdv_limit)
          else Ok (false, "")
        else Ok (false, "")) ;;
  let '(at_minimum, warning_msg) := w in
  s <- format_num_1f lp_percent ;;
  Ok (if at_minimum then
        {| lp_value_label := s ++ "% ⚠️"; lp_value_fg := "#ffaa00";
           warning_label := warning_msg;
           lp_bar := Builtin.max (PInt 0) lp_percent |}
      else
        {| lp_value_label := s ++ "%"; lp_value_fg := "#00ff88";
           warning_label := "";
           lp_bar := Builtin.max (PInt 0) lp_percent |}).

(** [total_percent] (run.py:272) *)
Definition total_percent (team_percent public_percent lp_percent : num)
  : result num :=
  s <- add team_percent public_percent ;; add s lp_percent.

(** The texts written to the result labels (run.py:329-340), key and
    text, in the order written. *)
Definition label_texts (funds_to_raise : num) (r : Calculations)
  : result (list (string * string)) :=
  tt <- format_number (team_tokens r) ;;
  pt <- format_number (public_tokens r) ;;
  lt <- format_number (lp_tokens r) ;;
  fr <- format_number funds_to_raise ;;
  lf <- format_number (lp_funds r) ;;
  tf <- format_number (team_funds r) ;;
  fi <- format_number (fdv_ico r) ;;
  fl <- format_number (fdv_lp r) ;;
  fm <- format_num_2f_plain (fdv_multiple r) ;;
  Ok [ ("team_tokens", tt ++ " tokens");
       ("public_tokens", pt ++ " tokens");
       ("lp_tokens", lt ++ " tokens");
       ("total_percent", "100.0%");
       ("total_funds", "$" ++ fr);
       ("lp_funds", "$" ++ lf);
       ("team_funds", "$" ++ tf);
       ("fdv_ico", "$" ++ fi);
       ("fdv_lp", "$" ++ fl);
       ("fdv_multiple", fm ++ "x") ].

(** Writing the texts, one [config] after the other. *)
Fixpoint write_labels (texts : list (string * string)) (d : labels)
  : option labels :=
  match texts with
  | [] => Some d
  | (key, text) :: texts' =>
      match config key text d with
      | Some d' => write_labels texts' d'
      | None => None
      end
  end.

End Tk.

(* ================================================================== *)
(** * Notions used in the statements about the front ends *)
(* ================================================================== *)

(** The display holds the numbers of the current variables. *)
Definition display_current (g : Gui.state) : Prop :=
  exists r,
    Gui.shown g = Some r /\
    derived (PFloat (Gui.team_var g)) (PFloat (Gui.public_var g))
            (PFloat (Gui.funds_var g)) = Ok r.

(** The committed pair is still the one the window was built with. *)
Definition initial_pair (g : Gui.state) : Prop :=
  Gui.prev_team g = Gui.lit_10 /\ Gui.prev_public g = Gui.lit_70.

(** A float, or the int [0] a guard gives. *)
Definition float_or_zero (n : num) : Prop :=
  (exists x, n = PFloat x) \/ n = PInt 0.

(** The two rules of the validator in exact integer arithmetic: the LP
    share is at least 1, and, when anything is sold, five times the LP
    share is at most the public share. *)
Definition exact_reason (team public : Z) : option reason :=
  let lp := 100 - team - public in
  if lp <? 1 then Some LP_ZERO_OR_NEGATIVE
  else if (1 <=? public) && (public <? 5 * lp) then Some LP_FDV_BELOW_ICO_FDV
  else None.

Definition is_none {A} (o : option A) : bool :=
  match o with None => true | Some _ => false end.

(** The text of the integer [n] with one decimal. *)
Definition int_1f (n : Z) : string :=
  (if n <? 0 then "-" else "") ++ digits (Z.abs n) ++ ".0".

(** The LP box of the Tk window in exact integer arithmetic, for the LP
    share [lp] with float [l] and the public share [public]. *)
Definition exact_lp_display (lp public : Z) (l : float) : Tk.LpDisplay :=
  let bar := if 0 <? lp then PFloat l else PInt 0 in
  if lp <? 1 then
    {| Tk.lp_value_label := int_1f lp ++ "% ⚠️";
       Tk.lp_value_fg := "#ffaa00";
       Tk.warning_label := Tk.warning_lp_minimum;
       Tk.lp_bar := bar |}
  else if (1 <=? public) && (Z.abs (5 * lp - public) <=? 2) then
    {| Tk.lp_value_label := int_1f lp ++ "% ⚠️";
       Tk.lp_value_fg := "#ffaa00";
       Tk.warning_label := Tk.warning_fdv_limit;
       Tk.lp_bar := bar |}
  else
    {| Tk.lp_value_label := int_1f lp ++ "%";
       Tk.lp_value_fg := "#00ff88";
       Tk.warning_label := "";
       Tk.lp_bar := bar |}.

(** The text of the funds label at the [k]-th position of the funds
    slider: thousands below a million, millions with two decimals from
    there on. *)
Definition exact_funds_text (k : Z) : string :=
  if k <? 100 then "$" ++ digits (10 * k) ++ ".00K"
  else "$" ++ digits (k / 100) ++ "." ++ two_digits (k mod 100) ++ "M".

(** The positions of a slider. *)
Definition on_grid (s : Streamlit.Slider) (v : Z) : Prop :=
  Streamlit.min_value s <= v <= Streamlit.max_value s /\
  (Streamlit.step s | v - Streamlit.min_value s).

(** The Streamlit slider with the range, start and resolution of a Tk
    scale. *)
Definition slider_of_scale (c : Z * Z * Z) : Streamlit.Slider :=
  let '(from_, to, initial) := c in
  {| Streamlit.min_value := from_; Streamlit.max_value := to;
     Streamlit.value := initial;
     Streamlit.step := Tk.resolution from_ to |}.

(** ** Decision procedures for the slider positions *)

Definition float_eqb (x y : float) : bool :=
  match x, y with
  | S754_zero s, S754_zero s' => Bool.eqb s s'
  | S754_infinity s, S754_infinity s' => Bool.eqb s s'
  | S754_nan, S754_nan => true
  | S754_finite s m e, S754_finite s' m' e' =>
      Bool.eqb s s' && Pos.eqb m m' && Z.eqb e e'
  | _, _ => false
  end.

Definition num_eqb (a b : num) : bool :=
  match a, b with
  | PInt x, PInt y => x =? y
  | PFloat x, PFloat y => float_eqb x y
  | _, _ => false
  end.

Definition lp_display_eqb (a b : Tk.LpDisplay) : bool :=
  String.eqb (Tk.lp_value_label a) (Tk.lp_value_label b) &&
  String.eqb (Tk.lp_value_fg a) (Tk.lp_value_fg b) &&
  String.eqb (Tk.warning_label a) (Tk.warning_label b) &&
  num_eqb (Tk.lp_bar a) (Tk.lp_bar b).

(** Both validators, and the three checks of the Tk window, return the
    exact decision at ([team], [public]). *)
Definition exact_at (team public : Z) : bool :=
  let lp := 100 - team - public in
  let r := exact_reason team public in
  match float_of_int team, float_of_int public, float_of_int lp with
  | Ok x, Ok y, Ok l =>
      match validate_allocation (PInt team) (PInt public),
            validate_allocation (PFloat x) (PFloat y),
            Gui.is_valid x y with
      | Ok (b1, lp1, msg1), Ok (b2, lp2, msg2), Ok b3 =>
          Bool.eqb b1 (is_none r) && num_eqb lp1 (PInt lp) &&
          String.eqb msg1 (message r) &&
          Bool.eqb b2 (is_none r) && num_eqb lp2 (PFloat l) &&
          String.eqb msg2 (message r) &&
          Bool.eqb b3 (is_none r)
      | _, _, _ => false
      end
  | _, _, _ => false
  end.

(** [n / 100] is the same double whether [n] is the int or its float. *)
Definition percent_agrees (n : Z) : bool :=
  match float_of_int n with
  | Ok x =>
      match truediv (PInt n) (PInt 100), truediv (PFloat x) (PInt 100) with
      | Ok a, Ok b => num_eqb a b
      | _, _ => false
      end
  | Raise _ => false
  end.

(** [n] with one decimal is [int_1f n]. *)
Definition percent_text_at (n : Z) : bool :=
  match format_num_1f (PInt n) with
  | Ok s => String.eqb s (int_1f n)
  | Raise _ => false
  end.

(** [lp / 100] lies between 0 and 1. *)
Definition progress_in_range (lp : Z) : bool :=
  match truediv (PInt lp) (PInt 100) with
  | Ok q => ge q (PInt 0) && ge (PInt 1) q
  | Raise _ => false
  end.

(** [100 - team - public] on the floats is the float of the int result. *)
Definition lp_agrees (team public : Z) : bool :=
  match float_of_int team, float_of_int public,
        float_of_int (100 - team - public) with
  | Ok x, Ok y, Ok l => float_eqb (fsub (fsub lit_100 x) y) l
  | _, _, _ => false
  end.

(** The LP box is the exact one at ([team], [public]). *)
Definition lp_display_at (team public : Z) : bool :=
  let lp := 100 - team - public in
  match float_of_int public, float_of_int lp with
  | Ok y, Ok l =>
      match Tk.lp_display (PFloat l) (PFloat y) with
      | Ok d => lp_display_eqb d (exact_lp_display lp public l)
      | Raise _ => false
      end
  | _, _ => false
  end.

(** At the [k]-th position of the funds slider the two parts of the funds
    add up to the funds again. *)
Definition split_exact (k : Z) : bool :=
  let f := 10000 * k in
  match float_of_int f with
  | Ok z =>
      match add (PFloat (fmul z lit_0_2)) (PFloat (fmul z lit_0_8)) with
      | Ok s => eq s (PInt f) && eq s (PFloat z)
      | Raise _ => false
      end
  | Raise _ => false
  end.

(** At the [k]-th position of the funds slider the int and its float are
    formatted alike. *)
Definition funds_text_agrees (k : Z) : bool :=
  let f := 10000 * k in
  match float_of_int f with
  | Ok z =>
      match format_number (PInt f), format_number (PFloat z) with
      | Ok s, Ok s' => String.eqb s s'
      | _, _ => false
      end
  | Raise _ => false
  end.

(** The funds label at the [k]-th position of the funds scale is the
    exact one. *)
Definition funds_label_at (k : Z) : bool :=
  match Tk.format_value_with_func (PInt (10000 * k)) (Some Tk.format_currency)
  with
  | Ok s => String.eqb s (exact_funds_text k)
  | Raise _ => false
  end.

(* ================================================================== *)
(** * Notions used in the statements about overflow and rendering *)
(* ================================================================== *)




(** ** Reading a rendered number back

    What [f"{x:,.2f}"] promises is stated on the text alone: its sign, the
    number its digits spell, and where its commas are. *)


Fixpoint all_chars (f : ascii -> bool) (s : string) : bool :=
  match s with
  | EmptyString => true
  | String c s' => f c && all_chars f s'
  end.















(* ================================================================== *)
(** * Literals *)
(* ================================================================== *)

(** The literals are the correctly rounded decimals they stand for. *)
Lemma literals_correctly_rounded :
  int_truediv 1 10 = Ok lit_0_1 /\
  int_truediv 2 10 = Ok lit_0_2 /\
  int_truediv 899 10 = Ok lit_89_9 /\
  int_truediv 2 1000000 = Ok lit_2em6 /\
  float_of_int 10 = Ok Gui.lit_10 /\
  float_of_int 14 = Ok lit_14 /\
  float_of_int 15 = Ok lit_15 /\
  float_of_int 75 = Ok lit_75 /\
  float_of_int 16 = Ok lit_16 /\
  float_of_int 10000 = Ok lit_10000 /\
  float_of_int 20 = Ok lit_20 /\
  float_of_int 70 = Ok Gui.lit_70 /\
  float_of_int 100 = Ok lit_100 /\
  float_of_int 20000 = Ok lit_20000 /\
  float_of_int 100000 = Ok Gui.lit_100000 /\
  float_of_int 10000000000 = Ok lit_1e10.
Proof. vm_compute. repeat split. Qed.

(* ================================================================== *)
(** * Scenarios *)
(* ================================================================== *)

(** C3, as stated, fails: with team=10 and public=89.9 the validator does
    not return a valid outcome. *)
Lemma validate_10_89_9_not_valid :
  ~ exists lp, validate_allocation (PInt 10) (PFloat lit_89_9)
               = Ok (true, lp, message None).
Proof. intros [lp H]. vm_compute in H. discriminate H. Qed.

(** C3 (amended): for team=10, public=89.9 the computed lpPercent is
    0.09999999999999432, the exact difference of 90 and the double 89.9;
    it is below the double 0.1, so step 2 rejects with LP_ZERO_OR_NEGATIVE.
    The same holds when team is the float 10.0. *)
Theorem validate_10_89_9 :
  lp_of (PInt 10) (PFloat lit_89_9) = Ok (PFloat lit_0_09999999999999432) /\
  lt (PFloat lit_0_09999999999999432) (PFloat lit_0_1) = true /\
  validate_allocation (PInt 10) (PFloat lit_89_9)
  = Ok (false, PFloat lit_0_09999999999999432,
        message (Some LP_ZERO_OR_NEGATIVE)) /\
  validate_allocation (PFloat Gui.lit_10) (PFloat lit_89_9)
  = Ok (false, PFloat lit_0_09999999999999432,
        message (Some LP_ZERO_OR_NEGATIVE)).
Proof. vm_compute. repeat split. Qed.

(** C4: team=10, public=70 is rejected with LP_FDV_BELOW_ICO_FDV and
    lpPercent = 20, whatever fundsToRaise is (the script stops before the
    derivation): public 70 exceeds 0.1, 0.2 * 70 is 14 and 20 exceeds it.
    Ints (the Streamlit sliders) and floats (the Tk variables) agree. *)
Theorem validate_10_70 :
  validate_allocation (PInt 10) (PInt 70)
  = Ok (false, PInt 20, message (Some LP_FDV_BELOW_ICO_FDV)) /\
  validate_allocation (PFloat Gui.lit_10) (PFloat Gui.lit_70)
  = Ok (false, PFloat lit_20, message (Some LP_FDV_BELOW_ICO_FDV)) /\
  message (Some LP_FDV_BELOW_ICO_FDV) = "LP FDV would drop below ICO FDV" /\
  lt (PInt 20) (PFloat lit_0_1) = false /\
  gt (PInt 70) (PFloat lit_0_1) = true /\
  mul (PFloat lit_0_2) (PInt 70) = Ok (PFloat lit_14) /\
  gt (PInt 20) (PFloat lit_14) = true /\
  (forall funds_to_raise, app (PInt 10) funds_to_raise (PInt 70) = Ok None).
Proof. vm_compute. repeat split. Qed.

(** C5, at a slider position: team=16, public=70, funds=10000 is valid
    (lp = 14 is not above 0.2 * 70 = 14.0), funds and public are positive,
    and yet the derivation gives fdvLp = 14285.714285714284, one unit in the
    last place below fdvIco = 14285.714285714286; lpPrice is below icoPrice
    in the same way.  The Tk window shows the same numbers after the team
    slider is moved to 16 and the funds slider to 10000. *)
Theorem fdv_lp_below_fdv_ico_16_70 :
  (exists r,
      validate_allocation (PInt 16) (PInt 70)
      = Ok (true, PInt 14, message None) /\
      gt (PInt 10000) (PInt 0) = true /\
      gt (PInt 70) (PFloat lit_0_1) = true /\
      app (PInt 16) (PInt 10000) (PInt 70) = Ok (Some r) /\
      fdv_lp r = PFloat lit_14285_714285714284 /\
      fdv_ico r = PFloat lit_14285_714285714286 /\
      ge (fdv_lp r) (fdv_ico r) = false /\
      ge (lp_price r) (ico_price r) = false) /\
  (exists g r,
      Gui.run Gui.init [Gui.SetTeam lit_16; Gui.SetFunds lit_10000] = Ok g /\
      Gui.prev_team g = lit_16 /\ Gui.prev_public g = Gui.lit_70 /\
      Gui.is_valid (Gui.prev_team g) (Gui.prev_public g) = Ok true /\
      Gui.shown g = Some r /\
      fdv_lp r = PFloat lit_14285_714285714284 /\
      fdv_ico r = PFloat lit_14285_714285714286 /\
      ge (fdv_lp r) (fdv_ico r) = false).
Proof.
  split.
  - let c := eval vm_compute in (app (PInt 16) (PInt 10000) (PInt 70)) in
    match c with Ok (Some ?r) => exists r end.
    vm_compute. repeat split.
  - let c := eval vm_compute in
      (Gui.run Gui.init [Gui.SetTeam lit_16; Gui.SetFunds lit_10000]) in
    match c with
    | Ok ?g =>
        exists g;
        let d := eval vm_compute in (Gui.shown g) in
        match d with Some ?r => exists r end
    end.
    vm_compute. repeat split.
Qed.

(** C7: team=0, public=0, funds=100000 is valid with lpPercent = 100, the
    step-3 check being skipped because public > 0.1 is false; the derivation
    then gives publicTokens = 0.0, icoPrice = 0, fdvIco = 0, fdvMultiple = 0,
    lpTokens = 1e10, lpFunds = 20000.0, lpPrice = 2e-06 and fdvLp = 20000.0. *)
Theorem scenario_0_0_100000 :
  validate_allocation (PInt 0) (PInt 0) = Ok (true, PInt 100, message None) /\
  gt (PInt 0) (PFloat lit_0_1) = false /\
  exists r,
    app (PInt 0) (PInt 100000) (PInt 0) = Ok (Some r) /\
    public_tokens r = PFloat (S754_zero false) /\
    eq (public_tokens r) (PInt 0) = true /\
    ico_price r = PInt 0 /\
    fdv_ico r = PInt 0 /\
    fdv_multiple r = PInt 0 /\
    lp_tokens r = PFloat lit_1e10 /\
    eq (lp_tokens r) (PInt 10000000000) = true /\
    lp_funds r = PFloat lit_20000 /\
    eq (lp_funds r) (PInt 20000) = true /\
    lp_price r = PFloat lit_2em6 /\
    fdv_lp r = PFloat lit_20000 /\
    eq (fdv_lp r) (PInt 20000) = true.
Proof.
  split; [vm_compute; reflexivity|]. split; [vm_compute; reflexivity|].
  let c := eval vm_compute in (app (PInt 0) (PInt 100000) (PInt 0)) in
  match c with Ok (Some ?r) => exists r end.
  vm_compute. repeat split.
Qed.

(** C8, at the first state: the freshly built window is reachable and its
    committed pair (10.0, 70.0) fails the third check of
    [validate_and_update] and is rejected by [validate_allocation]. *)
Theorem initial_committed_pair_invalid :
  Gui.reachable Gui.init /\
  Gui.prev_team Gui.init = Gui.lit_10 /\
  Gui.prev_public Gui.init = Gui.lit_70 /\
  Gui.is_valid (Gui.prev_team Gui.init) (Gui.prev_public Gui.init)
  = Ok false /\
  validate_allocation (PFloat (Gui.prev_team Gui.init))
                      (PFloat (Gui.prev_public Gui.init))
  = Ok (false, PFloat lit_20, message (Some LP_FDV_BELOW_ICO_FDV)).
Proof.
  split; [exists []; reflexivity|]. vm_compute. repeat split.
Qed.

(* ================================================================== *)
(** * Basic facts about Python arithmetic *)
(* ================================================================== *)

Lemma float_of_int_100 : float_of_int 100 = Ok lit_100.
Proof. vm_compute. reflexivity. Qed.

Lemma float_of_int_supply : float_of_int 10000000000 = Ok lit_1e10.
Proof. vm_compute. reflexivity. Qed.

Lemma fits_double_int z :
  fits_double (PInt z) = true -> exists x, float_of_int z = Ok x.
Proof.
  unfold fits_double. destruct (float_of_int z) as [x|e]; [eauto|discriminate].
Qed.




Lemma gt_zero_not_zero x :
  gt (PFloat x) (PInt 0) = true -> is_zero x = false.
Proof. destruct x; try reflexivity. discriminate. Qed.

(** ** No arithmetic but a division raises [ZeroDivisionError] *)




Lemma float_truediv_no_zero_division x y :
  is_zero y = false -> float_truediv x y = Ok (fdiv x y).
Proof. unfold float_truediv. now intros ->. Qed.




(** A division that returns, returns a float; so does a product with a
    float. *)
Lemma truediv_Ok_float a b r :
  truediv a b = Ok r -> exists x, r = PFloat x.
Proof.
  destruct a as [x|x], b as [y|y]; simpl.
  - destruct (int_truediv x y); simpl; [|discriminate].
    intros [= <-]. eauto.
  - destruct (float_of_int x); simpl; [|discriminate].
    destruct (float_truediv _ _); simpl; [|discriminate].
    intros [= <-]. eauto.
  - destruct (float_of_int y); simpl; [|discriminate].
    destruct (float_truediv _ _); simpl; [|discriminate].
    intros [= <-]. eauto.
  - destruct (float_truediv _ _); simpl; [|discriminate].
    intros [= <-]. eauto.
Qed.

Lemma arith_float_r_Ok iop fop a y r :
  arith iop fop a (PFloat y) = Ok r -> exists x, r = PFloat x.
Proof.
  destruct a as [x|x]; simpl.
  - destruct (float_of_int x); simpl; [|discriminate]. intros [= <-]. eauto.
  - intros [= <-]. eauto.
Qed.

(* ================================================================== *)
(** * The validator *)
(* ================================================================== *)

Lemma convertible_floats x y : convertible (PFloat x) (PFloat y) = true.
Proof. reflexivity. Qed.

Lemma convertible_Ok t p :
  convertible t p = true ->
  exists lp limit, lp_of t p = Ok lp /\ mul (PFloat lit_0_2) p = Ok limit.
Proof.
  unfold convertible. intros H. apply andb_prop in H as [Hp Ht].
  unfold lp_of, mul, sub.
  destruct t as [t|t], p as [p|p]; cbn [arith bind].
  - destruct (fits_double_int _ Hp) as [p' ->]. cbn [bind]. eauto.
  - destruct (fits_double_int _ Ht) as [d' ->]. cbn [bind]. eauto.
  - rewrite float_of_int_100. cbn [bind arith].
    destruct (fits_double_int _ Hp) as [p' ->]. cbn [bind]. eauto.
  - rewrite float_of_int_100. cbn [bind arith]. eauto.
Qed.

Lemma validate_allocation_outcome t p lp limit :
  lp_of t p = Ok lp ->
  mul (PFloat lit_0_2) p = Ok limit ->
  validate_allocation t p = Ok (outcome lp p limit).
Proof.
  intros Hlp Hlim. unfold validate_allocation, outcome.
  rewrite Hlp. cbn [bind].
  destruct (lt lp (PFloat lit_0_1)); [reflexivity|].
  unfold and_then. destruct (gt p (PFloat lit_0_1)); cbn [andb bind].
  - rewrite Hlim. cbn [bind]. destruct (gt lp limit); reflexivity.
  - reflexivity.
Qed.

Lemma validate_allocation_convertible t p :
  convertible t p = true ->
  exists lp limit,
    lp_of t p = Ok lp /\
    mul (PFloat lit_0_2) p = Ok limit /\
    validate_allocation t p = Ok (outcome lp p limit).
Proof.
  intros H. destruct (convertible_Ok _ _ H) as (lp & limit & Hlp & Hlim).
  exists lp, limit. auto using validate_allocation_outcome.
Qed.

(** C1, as stated, fails on "never throws": an int too large for a double
    makes the arithmetic raise [OverflowError], in [0.2 * public_percent]
    (first input) or in the subtraction (second input). *)
Lemma validate_allocation_overflow :
  validate_allocation (PInt (- 2 ^ 1024)) (PInt (2 ^ 1024))
    = Raise OverflowError /\
  validate_allocation (PFloat (S754_zero false)) (PInt (2 ^ 1024))
    = Raise OverflowError.
Proof. vm_compute. split; reflexivity. Qed.

(** C1 (amended): for every pair of inputs that are floats, or ints that
    fit a double wherever Python converts them, the validator computes
    lp = 100 - team - public and returns without raising: invalid with
    LP_ZERO_OR_NEGATIVE exactly when lp < 0.1; otherwise invalid with
    LP_FDV_BELOW_ICO_FDV exactly when public > 0.1 and lp > 0.2 * public;
    otherwise valid with no reason; the returned lpPercent is lp in every
    case. *)
Theorem validate_allocation_decision (team_percent public_percent : num)
    (H : convertible team_percent public_percent = true) :
  exists lp limit,
    lp_of team_percent public_percent = Ok lp /\
    mul (PFloat lit_0_2) public_percent = Ok limit /\
    validate_allocation team_percent public_percent
    = Ok (if lt lp (PFloat lit_0_1) then
            (false, lp, message (Some LP_ZERO_OR_NEGATIVE))
          else if gt public_percent (PFloat lit_0_1) && gt lp limit then
            (false, lp, message (Some LP_FDV_BELOW_ICO_FDV))
          else
            (true, lp, message None)).
Proof.
  destruct (convertible_Ok _ _ H) as (lp & limit & Hlp & Hlimit).
  exists lp, limit. split; [exact Hlp|]. split; [exact Hlimit|].
  exact (validate_allocation_outcome _ _ _ _ Hlp Hlimit).
Qed.

Lemma validate_allocation_decision_witness :
  convertible (PFloat Gui.lit_10) (PFloat lit_89_9) = true /\
  exists lp limit,
    lp_of (PFloat Gui.lit_10) (PFloat lit_89_9) = Ok lp /\
    mul (PFloat lit_0_2) (PFloat lit_89_9) = Ok limit /\
    validate_allocation (PFloat Gui.lit_10) (PFloat lit_89_9)
    = Ok (if lt lp (PFloat lit_0_1) then
            (false, lp, message (Some LP_ZERO_OR_NEGATIVE))
          else if gt (PFloat lit_89_9) (PFloat lit_0_1) && gt lp limit then
            (false, lp, message (Some LP_FDV_BELOW_ICO_FDV))
          else
            (true, lp, message None)).
Proof.
  split; [reflexivity|].
  apply (validate_allocation_decision (PFloat Gui.lit_10) (PFloat lit_89_9)).
  reflexivity.
Defined.

(* ================================================================== *)
(** * The derivation *)
(* ================================================================== *)

Ltac bind_inv H :=
  match type of H with
  | bind ?c _ = Ok _ =>
      let E := fresh "E" in
      destruct c eqn:E; cbn [bind] in H; [|discriminate H]
  end.

(** The equations a returned record satisfies, one per line of the source. *)
Lemma calculations_Ok team_percent public_percent funds_to_raise lp_percent r :
  calculations team_percent public_percent funds_to_raise lp_percent = Ok r ->
  exists a b c rest,
    truediv team_percent (PInt 100) = Ok a /\
    mul TOTAL_SUPPLY a = Ok (team_tokens r) /\
    truediv public_percent (PInt 100) = Ok b /\
    mul TOTAL_SUPPLY b = Ok (public_tokens r) /\
    truediv lp_percent (PInt 100) = Ok c /\
    mul TOTAL_SUPPLY c = Ok (lp_tokens r) /\
    mul funds_to_raise LP_FUND_PERCENT = Ok (lp_funds r) /\
    sub (PInt 1) LP_FUND_PERCENT = Ok rest /\
    mul funds_to_raise rest = Ok (team_funds r) /\
    guarded_div (public_tokens r) funds_to_raise (public_tokens r)
      = Ok (ico_price r) /\
    guarded_div (lp_tokens r) (lp_funds r) (lp_tokens r) = Ok (lp_price r) /\
    mul TOTAL_SUPPLY (ico_price r) = Ok (fdv_ico r) /\
    mul TOTAL_SUPPLY (lp_price r) = Ok (fdv_lp r) /\
    guarded_div (fdv_ico r) (fdv_lp r) (fdv_ico r) = Ok (fdv_multiple r).
Proof.
  unfold calculations. intros H.
  repeat bind_inv H. injection H as <-. cbn.
  do 4 eexists. repeat split; eassumption.
Qed.



Lemma guarded_div_Ok_shape g n q :
  guarded_div g n g = Ok q -> (exists x, q = PFloat x) \/ q = PInt 0.
Proof.
  unfold guarded_div. destruct (gt g (PInt 0)).
  - intros H. left. eapply truediv_Ok_float, H.
  - intros [= <-]. now right.
Qed.

Lemma mul_supply_shape q r :
  (exists x, q = PFloat x) \/ q = PInt 0 ->
  mul TOTAL_SUPPLY q = Ok r ->
  (exists x, r = PFloat x) \/ r = PInt 0.
Proof.
  intros [[x ->]| ->] H.
  - left. eapply arith_float_r_Ok, H.
  - right. cbn in H. congruence.
Qed.


(** On floats every step of the derivation returns. *)
Lemma truediv_float_100 x :
  truediv (PFloat x) (PInt 100) = Ok (PFloat (fdiv x lit_100)).
Proof.
  unfold truediv. rewrite float_of_int_100. cbn [bind].
  now rewrite float_truediv_no_zero_division.
Qed.

Lemma mul_supply_float x :
  mul TOTAL_SUPPLY (PFloat x) = Ok (PFloat (fmul lit_1e10 x)).
Proof.
  unfold mul, TOTAL_SUPPLY, arith. now rewrite float_of_int_supply.
Qed.

Lemma guarded_div_float g n :
  exists q, guarded_div (PFloat g) (PFloat n) (PFloat g) = Ok q /\
            ((exists x, q = PFloat x) \/ q = PInt 0).
Proof.
  unfold guarded_div. destruct (gt (PFloat g) (PInt 0)) eqn:E.
  - apply gt_zero_not_zero in E. unfold truediv.
    rewrite float_truediv_no_zero_division by assumption. cbn [bind]. eauto.
  - eauto.
Qed.

Lemma guarded_div_shape_total g n :
  (exists x, g = PFloat x) \/ g = PInt 0 ->
  (exists y, n = PFloat y) ->
  exists q, guarded_div g n g = Ok q.
Proof.
  intros [[x ->]| ->] [y ->].
  - destruct (guarded_div_float x y) as (q & -> & _). eauto.
  - cbn. eauto.
Qed.

Lemma mul_supply_total q :
  (exists x, q = PFloat x) \/ q = PInt 0 ->
  exists r, mul TOTAL_SUPPLY q = Ok r /\
            ((exists x, r = PFloat x) \/ r = PInt 0).
Proof.
  intros [[x ->]| ->].
  - rewrite mul_supply_float. eauto.
  - cbn. eauto.
Qed.

Lemma mul_float_float x y :
  mul (PFloat x) (PFloat y) = Ok (PFloat (fmul x y)).
Proof. reflexivity. Qed.

Lemma rest_of_funds : sub (PInt 1) LP_FUND_PERCENT = Ok (PFloat lit_0_8).
Proof. vm_compute. reflexivity. Qed.

Lemma calculations_float_total x y f l :
  exists r, calculations (PFloat x) (PFloat y) (PFloat f) (PFloat l) = Ok r.
Proof.
  unfold calculations.
  rewrite !truediv_float_100. cbn [bind].
  rewrite !mul_supply_float. cbn [bind].
  unfold LP_FUND_PERCENT. rewrite mul_float_float. cbn [bind].
  change (sub (PInt 1) (PFloat lit_0_2)) with (sub (PInt 1) LP_FUND_PERCENT).
  rewrite rest_of_funds. cbn [bind]. rewrite mul_float_float. cbn [bind].
  destruct (guarded_div_float (fmul lit_1e10 (fdiv y lit_100)) f)
    as (ip & -> & Hip). cbn [bind].
  destruct (guarded_div_float (fmul lit_1e10 (fdiv l lit_100))
                              (fmul f lit_0_2))
    as (lpp & -> & Hlpp). cbn [bind].
  destruct (mul_supply_total _ Hip) as (fi & -> & Hfi). cbn [bind].
  destruct (mul_supply_total _ Hlpp) as (fl & -> & Hfl). cbn [bind].
  destruct Hfl as [[fl' ->]| ->].
  - destruct (guarded_div_shape_total fi (PFloat fl') Hfi) as (m & Hm);
      [eauto|]. rewrite Hm. cbn [bind]. eauto.
  - destruct Hfi as [[fi' ->]| ->].
    + unfold guarded_div. destruct (gt (PFloat fi') (PInt 0)) eqn:E.
      * apply gt_zero_not_zero in E. unfold truediv.
        replace (float_of_int 0) with (Ok (S754_zero false))
          by (vm_compute; reflexivity).
        cbn [bind]. rewrite float_truediv_no_zero_division by assumption.
        cbn [bind]. eauto.
      * cbn [bind]. eauto.
    + cbn. eauto.
Qed.


(* ================================================================== *)
(** * [format_number] *)
(* ================================================================== *)




(** A float divided by a non-zero int constant. *)
Lemma truediv_float_int x z c :
  float_of_int z = Ok c -> is_zero c = false ->
  truediv (PFloat x) (PInt z) = Ok (PFloat (fdiv x c)).
Proof.
  intros Hc Hz. unfold truediv. rewrite Hc. cbn [bind].
  now rewrite float_truediv_no_zero_division.
Qed.

(** On a float, [format_number] always returns a string. *)
Lemma format_number_float_total x : exists s, format_number (PFloat x) = Ok s.
Proof.
  unfold format_number.
  destruct (ge _ _);
    [|destruct (ge _ _); [|destruct (ge _ _); [|cbn; eauto]]];
    erewrite truediv_float_int
      by (try (vm_compute; reflexivity); reflexivity);
    cbn [bind format_num_2f]; eauto.
Qed.

(* ================================================================== *)
(** * The Tk state machine *)
(* ================================================================== *)

Lemma lp_of_floats x y :
  lp_of (PFloat x) (PFloat y) = Ok (PFloat (fsub (fsub lit_100 x) y)).
Proof.
  unfold lp_of, sub. cbn [arith]. rewrite float_of_int_100. reflexivity.
Qed.

(** On floats the three checks never raise. *)
Lemma is_valid_total x y : exists b, Gui.is_valid x y = Ok b.
Proof.
  unfold Gui.is_valid. cbv zeta. rewrite lp_of_floats. cbn [bind add arith].
  destruct (ge _ _); [eauto|]. destruct (lt _ _); [eauto|].
  unfold and_then. destruct (gt _ _); cbn [bind mul arith]; eauto.
Qed.

(** [update_calculations] touches the display only. *)
Lemma update_calculations_vars g :
  Gui.team_var (Gui.update_calculations g) = Gui.team_var g /\
  Gui.public_var (Gui.update_calculations g) = Gui.public_var g /\
  Gui.funds_var (Gui.update_calculations g) = Gui.funds_var g /\
  Gui.prev_team (Gui.update_calculations g) = Gui.prev_team g /\
  Gui.prev_public (Gui.update_calculations g) = Gui.prev_public g.
Proof.
  unfold Gui.update_calculations. destruct (bind _ _); cbn; auto.
Qed.

(** With float variables the display is always refreshed. *)
Lemma update_calculations_shown g :
  exists r, Gui.shown (Gui.update_calculations g) = Some r.
Proof.
  unfold Gui.update_calculations. rewrite lp_of_floats. cbn [bind].
  destruct (calculations_float_total (Gui.team_var g) (Gui.public_var g)
              (Gui.funds_var g)
              (fsub (fsub lit_100 (Gui.team_var g)) (Gui.public_var g)))
    as [r ->].
  cbn. eauto.
Qed.

(** One run of [validate_and_update]: a candidate that passes is committed;
    one that fails puts the edited variable back and commits nothing. *)
Lemma validate_and_update_cases slider_type g :
  exists g',
    Gui.validate_and_update slider_type g = Ok g' /\
    ((Gui.is_valid (Gui.team_var g) (Gui.public_var g) = Ok true /\
      Gui.prev_team g' = Gui.team_var g /\
      Gui.prev_public g' = Gui.public_var g /\
      Gui.team_var g' = Gui.team_var g /\
      Gui.public_var g' = Gui.public_var g)
     \/
     (Gui.is_valid (Gui.team_var g) (Gui.public_var g) = Ok false /\
      Gui.prev_team g' = Gui.prev_team g /\
      Gui.prev_public g' = Gui.prev_public g /\
      match slider_type with
      | Gui.Team =>
          Gui.team_var g' = Gui.prev_team g /\
          Gui.public_var g' = Gui.public_var g
      | Gui.Public =>
          Gui.team_var g' = Gui.team_var g /\
          Gui.public_var g' = Gui.prev_public g
      end)).
Proof.
  unfold Gui.validate_and_update.
  destruct (is_valid_total (Gui.team_var g) (Gui.public_var g)) as [[|] E];
    rewrite E; cbn [bind negb].
  - eexists. split; [reflexivity|]. left.
    split; [reflexivity|].
    match goal with |- context [Gui.update_calculations ?s] =>
      destruct (update_calculations_vars s) as (H1 & H2 & _ & H4 & H5)
    end.
    rewrite H1, H2, H4, H5. cbn. auto.
  - eexists. split; [reflexivity|]. right.
    split; [reflexivity|]. destruct slider_type; cbn; auto.
Qed.

(** Every event is handled without an exception; the committed pair either
    stays as it was or becomes a pair that passed the checks; and the
    variables show the committed pair again afterwards. *)
Lemma handle_commits_only_valid g ev :
  in_sync g ->
  exists g',
    Gui.handle g ev = Ok g' /\
    in_sync g' /\
    (committed_valid g' \/
     (Gui.prev_team g' = Gui.prev_team g /\
      Gui.prev_public g' = Gui.prev_public g)).
Proof.
  intros [St Sp]. destruct ev as [v|v|v]; cbn [Gui.handle].
  - match goal with |- context [Gui.validate_and_update _ ?s] =>
      destruct (validate_and_update_cases Gui.Team s)
        as (g' & -> & [(Hv & H1 & H2 & H3 & H4)|(Hv & H1 & H2 & H3 & H4)])
    end; cbn in *; exists g'; split; try reflexivity; unfold in_sync,
      committed_valid.
    + rewrite H1, H2, H3, H4. auto.
    + rewrite H1, H2, H3, H4. auto.
  - eexists. split; [reflexivity|].
    match goal with |- context [Gui.update_calculations ?s] =>
      destruct (update_calculations_vars s) as (H1 & H2 & _ & H4 & H5)
    end.
    unfold in_sync. rewrite H1, H2, H4, H5. cbn. auto.
  - match goal with |- context [Gui.validate_and_update _ ?s] =>
      destruct (validate_and_update_cases Gui.Public s)
        as (g' & -> & [(Hv & H1 & H2 & H3 & H4)|(Hv & H1 & H2 & H3 & H4)])
    end; cbn in *; exists g'; split; try reflexivity; unfold in_sync,
      committed_valid.
    + rewrite H1, H2, H3, H4. auto.
    + rewrite H1, H2, H3, H4. auto.
Qed.

Lemma init_in_sync : in_sync Gui.init.
Proof. vm_compute. auto. Qed.

(** From a state whose committed pair is valid, every event leads to a
    state whose committed pair is valid. *)
Lemma handle_preserves_committed_valid g ev :
  in_sync g -> committed_valid g ->
  exists g', Gui.handle g ev = Ok g' /\ in_sync g' /\ committed_valid g'.
Proof.
  intros S V.
  destruct (handle_commits_only_valid g ev S) as (g' & H & S' & [V'|[E1 E2]]).
  - eauto.
  - exists g'. repeat split; try assumption; try apply S'.
    unfold committed_valid in *. now rewrite E1, E2.
Qed.

(* ================================================================== *)
(** * Doubles: order and rounding *)
(* ================================================================== *)

Import Binary64.

Lemma fexp_eq d : fexp prec emax d = Z.max (d - 53) (-1074).
Proof. reflexivity. Qed.

Lemma digits2_size m : digits2_pos m = Pos.size m.
Proof. induction m; simpl; congruence. Qed.

Lemma digits2_bounds m :
  2 ^ (Zpos (digits2_pos m) - 1) <= Zpos m < 2 ^ Zpos (digits2_pos m).
Proof.
  rewrite digits2_size. split.
  - pose proof (Pos.size_le m) as H.
    assert (Zpos (2 ^ Pos.size m) <= Zpos (m~0)) as H' by exact H.
    rewrite Pos2Z.inj_pow in H'.
    replace (Zpos (Pos.size m)) with (Zpos (Pos.size m) - 1 + 1) in H' by lia.
    rewrite Z.pow_add_r in H' by lia. lia.
  - pose proof (Pos.size_gt m) as H.
    assert (Zpos m < Zpos (2 ^ Pos.size m)) as H' by exact H.
    now rewrite Pos2Z.inj_pow in H'.
Qed.

Lemma pow2_pos k : 0 <= k -> 0 < 2 ^ k.
Proof. intros. apply Z.pow_pos_nonneg; lia. Qed.

Lemma pow2_le a b : a <= b -> 0 <= a -> 2 ^ a <= 2 ^ b.
Proof. intros. apply Z.pow_le_mono_r; lia. Qed.

Lemma pow2_lt a b : a < b -> 0 <= a -> 2 ^ a < 2 ^ b.
Proof. intros. apply Z.pow_lt_mono_r; lia. Qed.

(** [x < 2^k] bounds the number of digits, and conversely. *)
Lemma digits2_le m k : Zpos m < 2 ^ k -> Zpos (digits2_pos m) <= k.
Proof.
  intros H. destruct (digits2_bounds m) as [L _].
  destruct (Z_lt_le_dec k (Zpos (digits2_pos m))) as [C|C]; [|exact C].
  exfalso. assert (0 <= k).
  { destruct (Z_lt_le_dec k 0) as [N|N]; [|exact N].
    rewrite Z.pow_neg_r in H by exact N. lia. }
  assert (2 ^ k <= 2 ^ (Zpos (digits2_pos m) - 1)) by (apply pow2_le; lia).
  lia.
Qed.

Lemma digits2_ge m k : 2 ^ (k - 1) <= Zpos m -> 1 <= k -> k <= Zpos (digits2_pos m).
Proof.
  intros H Hk. destruct (digits2_bounds m) as [_ U].
  destruct (Z_lt_le_dec (Zpos (digits2_pos m)) k) as [C|C]; [|exact C].
  exfalso.
  assert (2 ^ Zpos (digits2_pos m) <= 2 ^ (k - 1)) by (apply pow2_le; lia).
  lia.
Qed.

(** ** Canonical mantissa and exponent *)

Lemma valid_finite s m e :
  valid (S754_finite s m e) ->
  -1074 <= e <= 971 /\
  Zpos (digits2_pos m) <= 53 /\
  (-1074 < e -> Zpos (digits2_pos m) = 53).
Proof.
  unfold valid, valid_binary, bounded, canonical_mantissa.
  rewrite fexp_eq. intros H. apply andb_prop in H as [H1 H2].
  apply Z.eqb_eq in H1. apply Z.leb_le in H2.
  change (emax - prec) with 971 in H2. lia.
Qed.

Lemma finite_valid s m e :
  -1074 <= e <= 971 ->
  Zpos (digits2_pos m) <= 53 ->
  (-1074 < e -> Zpos (digits2_pos m) = 53) ->
  valid (S754_finite s m e).
Proof.
  intros He Hd Hn.
  unfold valid, valid_binary, bounded, canonical_mantissa.
  rewrite fexp_eq. apply andb_true_intro. split.
  - apply Z.eqb_eq. lia.
  - apply Z.leb_le. change (emax - prec) with 971. lia.
Qed.

Lemma valid_finite_bounds s m e :
  valid (S754_finite s m e) ->
  0 <= e + 1074 /\
  Zpos m < 2 ^ 53 /\
  (-1074 < e -> 2 ^ 52 <= Zpos m).
Proof.
  intros H. destruct (valid_finite _ _ _ H) as (He & Hd & Hn).
  destruct (digits2_bounds m) as [L U].
  split; [lia|]. split.
  - assert (2 ^ Zpos (digits2_pos m) <= 2 ^ 53) by (apply pow2_le; lia). lia.
  - intros G. rewrite (Hn G) in L. exact L.
Qed.

Lemma valid_opp x : valid x -> valid (SFopp x).
Proof. destruct x; auto. Qed.

Lemma K_opp x : K (SFopp x) = - K x.
Proof.
  destruct x as [s|s| |s m e]; cbn [K SFopp]; try reflexivity;
    destruct s; cbn [negb cond_Zopp]; try reflexivity;
    symmetry; apply Z.opp_involutive.
Qed.

Lemma top_pos : 0 < top.
Proof. apply pow2_pos. lia. Qed.

(** A finite double is strictly inside the infinities. *)
Lemma K_finite_lt_top s m e :
  valid (S754_finite s m e) -> 0 < Zpos m * 2 ^ (e + 1074) < top.
Proof.
  intros H. destruct (valid_finite _ _ _ H) as (He & _).
  destruct (valid_finite_bounds _ _ _ H) as (_ & Hm & _).
  assert (0 < 2 ^ (e + 1074)) by (apply pow2_pos; lia).
  split; [lia|]. unfold top.
  replace 2098 with (53 + 2045) by lia. rewrite (Z.pow_add_r 2 53 2045) by lia.
  assert (2 ^ (e + 1074) <= 2 ^ 2045) by (apply pow2_le; lia).
  assert (0 < 2 ^ 53) by (apply pow2_pos; lia).
  nia.
Qed.

(** Two canonical doubles: the one with the smaller exponent is smaller. *)
Lemma canonical_exponent_lt s1 m1 e1 s2 m2 e2 :
  valid (S754_finite s1 m1 e1) -> valid (S754_finite s2 m2 e2) ->
  e1 < e2 ->
  Zpos m1 * 2 ^ (e1 + 1074) < Zpos m2 * 2 ^ (e2 + 1074).
Proof.
  intros H1 H2 Hlt.
  destruct (valid_finite_bounds _ _ _ H1) as (He1 & Hm1 & _).
  destruct (valid_finite_bounds _ _ _ H2) as (He2 & _ & Hn2).
  assert (2 ^ 52 <= Zpos m2) by (apply Hn2; lia).
  assert (0 < 2 ^ (e1 + 1074)) by (apply pow2_pos; lia).
  assert (2 ^ (e1 + 1074 + 1) <= 2 ^ (e2 + 1074)) by (apply pow2_le; lia).
  rewrite Z.pow_add_r in H3 by lia.
  change (2 ^ 53) with (2 ^ 52 * 2) in Hm1. change (2 ^ 1) with 2 in H3.
  assert (0 < 2 ^ 52) by (apply pow2_pos; lia).
  nia.
Qed.

Lemma compare_cont_Eq m1 m2 : Pos.compare_cont Eq m1 m2 = (Zpos m1 ?= Zpos m2).
Proof. reflexivity. Qed.

Lemma compare_mul_pos a b c : 0 < c -> (a * c ?= b * c) = (a ?= b).
Proof.
  intros. destruct (Z.compare_spec a b).
  - subst. apply Z.compare_refl.
  - apply Z.compare_lt_iff. nia.
  - apply Z.compare_gt_iff. nia.
Qed.

Lemma compare_opp a b : (- a ?= - b) = CompOpp (a ?= b).
Proof. rewrite Z.compare_opp. apply Z.compare_antisym. Qed.

Ltac solve_cmp :=
  apply (f_equal Some); symmetry;
  first [ apply Z.compare_lt_iff; lia
        | apply Z.compare_gt_iff; lia
        | apply Z.compare_eq_iff; lia ].

(** The order of [SFcompare] is the order of [K]. *)
Lemma SFcompare_K x y :
  valid x -> valid y -> is_nan x = false -> is_nan y = false ->
  SFcompare x y = Some (K x ?= K y).
Proof.
  intros Vx Vy Nx Ny. pose proof top_pos as T.
  destruct x as [sx|sx| |sx mx ex], y as [sy|sy| |sy my ey];
    try discriminate; cbn [SFcompare K];
    try pose proof (K_finite_lt_top _ _ _ Vx);
    try pose proof (K_finite_lt_top _ _ _ Vy).
  - reflexivity.
  - destruct sy; cbn [cond_Zopp]; solve_cmp.
  - destruct sy; cbn [cond_Zopp]; solve_cmp.
  - destruct sx; cbn [cond_Zopp]; solve_cmp.
  - destruct sx, sy; cbn [cond_Zopp]; solve_cmp.
  - destruct sx, sy; cbn [cond_Zopp]; solve_cmp.
  - destruct sx; cbn [cond_Zopp]; solve_cmp.
  - destruct sx, sy; cbn [cond_Zopp]; solve_cmp.
  - destruct (valid_finite_bounds _ _ _ Vx) as (Hex & _).
    assert (0 < 2 ^ (ex + 1074)) by (apply pow2_pos; lia).
    destruct sx, sy; cbn [cond_Zopp]; try solve_cmp.
    + destruct (Z.compare_spec ex ey) as [E|E|E].
      * subst ey. rewrite compare_cont_Eq, compare_opp.
        now rewrite compare_mul_pos.
      * pose proof (canonical_exponent_lt _ _ _ _ _ _ Vx Vy E). solve_cmp.
      * pose proof (canonical_exponent_lt _ _ _ _ _ _ Vy Vx E). solve_cmp.
    + destruct (Z.compare_spec ex ey) as [E|E|E].
      * subst ey. rewrite compare_cont_Eq. now rewrite compare_mul_pos.
      * pose proof (canonical_exponent_lt _ _ _ _ _ _ Vx Vy E). solve_cmp.
      * pose proof (canonical_exponent_lt _ _ _ _ _ _ Vy Vx E). solve_cmp.
Qed.

(** ** Shifting right *)

Lemma shr_1_spec mrs :
  0 <= shr_m mrs ->
  shr_m (shr_1 mrs) = shr_m mrs / 2 /\
  shr_r (shr_1 mrs) = Z.odd (shr_m mrs) /\
  shr_s (shr_1 mrs) = shr_r mrs || shr_s mrs.
Proof.
  destruct mrs as [m r s]. cbn [shr_m shr_r shr_s]. intros H.
  destruct m as [|p|p]; [| |lia].
  - repeat split.
  - destruct p as [p|p|]; cbn [shr_1 shr_m shr_r shr_s].
    + repeat split. rewrite Pos2Z.inj_xI.
      apply Z.div_unique with 1; lia.
    + repeat split. rewrite Pos2Z.inj_xO.
      apply Z.div_unique with 0; lia.
    + repeat split.
Qed.

Lemma mod_mul_zero m a b :
  0 < a -> 0 < b -> m mod (a * b) = 0 -> m mod a = 0 /\ (m / a) mod b = 0.
Proof.
  intros Ha Hb H. apply Z.mod_divide in H; [|lia]. destruct H as [k Hk].
  subst m. split.
  - apply Z.mod_divide; [lia|]. exists (k * b). lia.
  - replace (k * (a * b)) with (k * b * a) by lia.
    rewrite Z.div_mul by lia. apply Z.mod_divide; [lia|]. now exists k.
Qed.

Lemma iter_shr_1 p : forall mrs,
  0 <= shr_m mrs ->
  shr_m (iter_pos shr_1 p mrs) = shr_m mrs / 2 ^ Zpos p /\
  (shr_m mrs mod 2 ^ Zpos p = 0 -> shr_r mrs = false -> shr_s mrs = false ->
   shr_r (iter_pos shr_1 p mrs) = false /\
   shr_s (iter_pos shr_1 p mrs) = false).
Proof.
  assert (forall mrs, 0 <= shr_m mrs ->
            shr_m (shr_1 mrs) = shr_m mrs / 2 ^ 1 /\
            (shr_m mrs mod 2 ^ 1 = 0 -> shr_r mrs = false ->
             shr_s mrs = false ->
             shr_r (shr_1 mrs) = false /\ shr_s (shr_1 mrs) = false)) as One.
  { intros mrs H. destruct (shr_1_spec mrs H) as (H1 & H2 & H3).
    change (2 ^ 1) with 2. split; [exact H1|].
    intros Hm Hr Hs. rewrite H2, H3, Hr, Hs. split; [|reflexivity].
    rewrite Zmod_odd in Hm. destruct (Z.odd (shr_m mrs)); [discriminate|].
    reflexivity. }
  assert (forall a b (f g : shr_record -> shr_record),
            0 < a -> 0 < b ->
            (forall mrs, 0 <= shr_m mrs ->
               shr_m (f mrs) = shr_m mrs / a /\
               (shr_m mrs mod a = 0 -> shr_r mrs = false ->
                shr_s mrs = false ->
                shr_r (f mrs) = false /\ shr_s (f mrs) = false)) ->
            (forall mrs, 0 <= shr_m mrs ->
               shr_m (g mrs) = shr_m mrs / b /\
               (shr_m mrs mod b = 0 -> shr_r mrs = false ->
                shr_s mrs = false ->
                shr_r (g mrs) = false /\ shr_s (g mrs) = false)) ->
            forall mrs, 0 <= shr_m mrs ->
               shr_m (g (f mrs)) = shr_m mrs / (a * b) /\
               (shr_m mrs mod (a * b) = 0 -> shr_r mrs = false ->
                shr_s mrs = false ->
                shr_r (g (f mrs)) = false /\ shr_s (g (f mrs)) = false))
    as Comp.
  { intros a b f g Ha Hb Hf Hg mrs H.
    destruct (Hf mrs H) as (F1 & F2).
    assert (0 <= shr_m (f mrs)) as H'
      by (rewrite F1; apply Z.div_pos; lia).
    destruct (Hg (f mrs) H') as (G1 & G2).
    split.
    - rewrite G1, F1. apply Z.div_div; lia.
    - intros Hm Hr Hs. destruct (mod_mul_zero _ _ _ Ha Hb Hm) as (M1 & M2).
      destruct (F2 M1 Hr Hs) as (R1 & S1).
      apply G2; [rewrite F1; exact M2 | exact R1 | exact S1]. }
  induction p as [p IH|p IH|]; cbn [iter_pos].
  - intros mrs H.
    replace (2 ^ Zpos p~1) with (2 ^ 1 * (2 ^ Zpos p * 2 ^ Zpos p))
      by (rewrite <- !Z.pow_add_r by lia; f_equal; lia).
    pose proof (pow2_pos (Zpos p) ltac:(lia)).
    apply (Comp (2 ^ 1) (2 ^ Zpos p * 2 ^ Zpos p) shr_1
                (fun r => iter_pos shr_1 p (iter_pos shr_1 p r)));
      try lia; try assumption.
    apply (Comp (2 ^ Zpos p) (2 ^ Zpos p)); assumption.
  - intros mrs H.
    replace (2 ^ Zpos p~0) with (2 ^ Zpos p * 2 ^ Zpos p)
      by (rewrite <- !Z.pow_add_r by lia; f_equal; lia).
    pose proof (pow2_pos (Zpos p) ltac:(lia)).
    apply (Comp (2 ^ Zpos p) (2 ^ Zpos p)); assumption.
  - exact One.
Qed.

Lemma iter_xO m d : Zpos (Pos.iter xO m d) = Zpos m * 2 ^ Zpos d.
Proof.
  induction d using Pos.peano_ind.
  - cbn [Pos.iter]. rewrite Pos2Z.inj_xO. change (2 ^ 1) with 2. lia.
  - rewrite Pos.iter_succ, Pos2Z.inj_xO, IHd, Pos2Z.inj_succ.
    rewrite Z.pow_succ_r by lia. lia.
Qed.

Lemma digits2_iter_xO m d :
  Zpos (digits2_pos (Pos.iter xO m d)) = Zpos (digits2_pos m) + Zpos d.
Proof.
  induction d using Pos.peano_ind.
  - cbn [Pos.iter digits2_pos]. lia.
  - rewrite Pos.iter_succ. cbn [digits2_pos]. lia.
Qed.

(** ** Rounding to nearest *)

Lemma binary_round_aux_finish s mx ex lx :
  binary_round_aux prec emax s mx ex lx
  = let '(mrs', e') := shr_fexp prec emax mx ex lx in
    finish s (round_nearest_even (shr_m mrs') (loc_of_shr_record mrs')) e'.
Proof. reflexivity. Qed.

Lemma shr_nonpos mrs e n : n <= 0 -> shr mrs e n = (mrs, e).
Proof. destruct n; [reflexivity|lia|reflexivity]. Qed.

Lemma finish_pack s m1 E :
  -1074 <= E -> 0 <= m1 <= 2 ^ 53 -> finish s m1 E = pack s m1 E.
Proof.
  intros HE Hm. unfold finish, shr_fexp.
  destruct m1 as [|p|p]; [| |lia].
  - cbn [Zdigits2 shr_record_of_loc]. rewrite shr_nonpos.
    + reflexivity.
    + rewrite fexp_eq. lia.
  - cbn [Zdigits2 shr_record_of_loc pack].
    destruct (Z.eqb_spec (Zpos p) (2 ^ 53)) as [E53|N53].
    + injection E53 as ->.
      change (Zpos (digits2_pos 9007199254740992)) with 54.
      rewrite fexp_eq. replace (Z.max (54 + E - 53) (-1074) - E) with 1 by lia.
      cbn [shr iter_pos shr_1 shr_m]. reflexivity.
    + rewrite shr_nonpos.
      * reflexivity.
      * rewrite fexp_eq.
        assert (Zpos (digits2_pos p) <= 53) by (apply digits2_le; lia). lia.
Qed.

Lemma round_nearest_even_bounds q l :
  q <= round_nearest_even q l <= q + 1.
Proof.
  unfold round_nearest_even. destruct l as [|[| |]]; try lia.
  destruct (Z.even q); lia.
Qed.

(** What [binary_round] returns: with [E] the exponent of the binade of
    [m * 2^e] and [q] the floor of the mantissa at that exponent, the
    result is [q] or [q + 1] at [E], and [q] when the value is exact. *)
Lemma binary_round_shape s m e :
  -1074 <= e ->
  exists E q q1,
    -1074 <= E /\
    q * 2 ^ (E + 1074) <= Zpos m * 2 ^ (e + 1074) < (q + 1) * 2 ^ (E + 1074) /\
    q <= q1 <= q + 1 /\
    (Zpos m * 2 ^ (e + 1074) = q * 2 ^ (E + 1074) -> q1 = q) /\
    0 < q1 /\ q < 2 ^ 53 /\
    (-1074 < E -> 2 ^ 52 <= q) /\
    binary_round prec emax s m e = pack s q1 E.
Proof.
  intros He.
  set (d := Zpos (digits2_pos m)).
  set (E := Z.max (d + e - 53) (-1074)).
  destruct (digits2_bounds m) as [DL DU]. fold d in DL, DU.
  assert (1 <= d) as Hd by (unfold d; lia).
  exists E. unfold binary_round. rewrite fexp_eq. fold d. fold E.
  unfold shl_align.
  destruct (Z_lt_le_dec e E) as [Hlt|Hge].
  - (* the mantissa has too many bits: shift right by [n] and round *)
    destruct (E - e) as [|n|n] eqn:En; try lia.
    rewrite binary_round_aux_finish. unfold shr_fexp.
    cbn [Zdigits2 shr_record_of_loc]. rewrite fexp_eq. fold d. fold E.
    rewrite En. cbn [shr].
    set (mrs := iter_pos shr_1 n (Build_shr_record (Zpos m) false false)).
    destruct (iter_shr_1 n (Build_shr_record (Zpos m) false false))
      as [Hq Hx]; [cbn; lia|]. fold mrs in Hq, Hx. cbn [shr_m shr_r shr_s] in *.
    assert (0 < 2 ^ Zpos n) as Pn by (apply pow2_pos; lia).
    pose proof (Z.div_mod (Zpos m) (2 ^ Zpos n) ltac:(lia)) as DM.
    pose proof (Z.mod_pos_bound (Zpos m) (2 ^ Zpos n) Pn) as MB.
    rewrite <- Hq in DM.
    set (q := shr_m mrs) in *.
    set (q1 := round_nearest_even q (loc_of_shr_record mrs)).
    pose proof (round_nearest_even_bounds q (loc_of_shr_record mrs)) as RB.
    fold q1 in RB.
    assert (0 < 2 ^ (e + 1074)) as Pe by (apply pow2_pos; lia).
    assert (2 ^ (E + 1074) = 2 ^ Zpos n * 2 ^ (e + 1074)) as PE.
    { rewrite <- Z.pow_add_r by lia. f_equal. lia. }
    assert (E = d + e - 53) as EE by lia.
    assert (Zpos n = d - 53) as Nd by lia.
    assert (2 ^ d = 2 ^ 53 * 2 ^ Zpos n) as P53.
    { rewrite <- Z.pow_add_r by lia. f_equal. lia. }
    assert (2 ^ (d - 1) = 2 ^ 52 * 2 ^ Zpos n) as P52.
    { rewrite <- Z.pow_add_r by lia. f_equal. lia. }
    assert (0 < 2 ^ 52) by (apply pow2_pos; lia).
    assert (2 ^ 53 = 2 * 2 ^ 52) as P5352 by reflexivity.
    assert (q < 2 ^ 53) as Q53 by nia.
    assert (2 ^ 52 <= q) as Q52 by nia.
    exists q, q1. replace (e + Zpos n) with E by lia.
    split; [lia|]. split; [rewrite PE; nia|]. split; [exact RB|].
    split; [|split; [lia|split; [exact Q53|split; [intros _; exact Q52|]]]].
    + intros X. rewrite PE in X.
      assert (Zpos m mod 2 ^ Zpos n = 0) as M0 by nia.
      destruct (Hx M0 eq_refl eq_refl) as [R0 S0].
      unfold q1, loc_of_shr_record. destruct mrs as [mm rr ss].
      cbn [shr_r shr_s] in R0, S0. subst rr ss. reflexivity.
    + apply finish_pack; lia.
  - (* the mantissa fits: shift left, nothing is rounded *)
    assert (exists mz, Zpos mz = Zpos m * 2 ^ (e - E) /\
                       Zpos (digits2_pos mz) = d + (e - E) /\
                       (let '(mz', ez) :=
                          match E - e with
                          | Zneg k => (Pos.iter xO m k, E)
                          | _ => (m, e)
                          end in
                        binary_round_aux prec emax s (Zpos mz') ez loc_Exact)
                       = binary_round_aux prec emax s (Zpos mz) E loc_Exact)
      as (mz & Hmz & Hdz & ->).
    { destruct (E - e) as [|k|k] eqn:Ek; try lia.
      - exists m. replace (e - E) with 0 by lia. replace e with E by lia.
        change (2 ^ 0) with 1. repeat split; try lia.
      - exists (Pos.iter xO m k). rewrite iter_xO, digits2_iter_xO.
        replace (e - E) with (Zpos k) by lia. fold d. repeat split. }
    rewrite binary_round_aux_finish. unfold shr_fexp.
    cbn [Zdigits2 shr_record_of_loc]. rewrite fexp_eq, Hdz.
    rewrite shr_nonpos by lia.
    cbn [shr_m loc_of_shr_record round_nearest_even].
    assert (0 < 2 ^ (e - E)) as Pk by (apply pow2_pos; lia).
    assert (2 ^ (e + 1074) = 2 ^ (e - E) * 2 ^ (E + 1074)) as PE.
    { rewrite <- Z.pow_add_r by lia. f_equal. lia. }
    assert (0 < 2 ^ (E + 1074)) as PE0 by (apply pow2_pos; lia).
    assert (Zpos mz < 2 ^ 53) as Q53.
    { assert (Zpos (digits2_pos mz) <= 53) by lia.
      destruct (digits2_bounds mz) as [_ U].
      assert (2 ^ Zpos (digits2_pos mz) <= 2 ^ 53) by (apply pow2_le; lia).
      lia. }
    exists (Zpos mz), (Zpos mz).
    split; [lia|]. split; [rewrite PE, Hmz; nia|]. split; [lia|].
    split; [reflexivity|]. split; [lia|]. split; [exact Q53|]. split.
    + intros G. destruct (digits2_bounds mz) as [L _].
      replace (Zpos (digits2_pos mz) - 1) with 52 in L by lia. exact L.
    + apply finish_pack; lia.
Qed.

Lemma top_eq : top = 2 ^ 53 * 2 ^ 2045.
Proof. unfold top. rewrite <- Z.pow_add_r by lia. reflexivity. Qed.

Lemma pack_valid s q1 E :
  -1074 <= E -> 0 < q1 <= 2 ^ 53 -> (-1074 < E -> 2 ^ 52 <= q1) ->
  valid (pack s q1 E) /\ is_nan (pack s q1 E) = false.
Proof.
  intros HE Hq Hn. unfold pack. destruct q1 as [|p|p]; try lia.
  destruct (Z.eqb_spec (Zpos p) (2 ^ 53)) as [E53|N53].
  - destruct (Z.leb_spec (E + 1) 971); [|split; reflexivity].
    split; [|reflexivity]. apply finite_valid.
    + lia.
    + change (Zpos (digits2_pos 4503599627370496)) with 53. lia.
    + reflexivity.
  - destruct (Z.leb_spec E 971); [|split; reflexivity].
    split; [|reflexivity]. apply finite_valid.
    + lia.
    + apply digits2_le. lia.
    + intros G. apply Z.le_antisymm.
      * apply digits2_le. lia.
      * apply digits2_ge; [|lia]. change (53 - 1) with 52. auto.
Qed.

Lemma pack_K s q1 E :
  -1074 <= E -> 0 < q1 <= 2 ^ 53 -> (-1074 < E -> 2 ^ 52 <= q1) ->
  K (pack s q1 E) = cond_Zopp s (Z.min (q1 * 2 ^ (E + 1074)) top).
Proof.
  intros HE Hq Hn. unfold pack. destruct q1 as [|p|p]; try lia.
  assert (0 < 2 ^ (E + 1074)) as PE by (apply pow2_pos; lia).
  assert (0 < 2 ^ 52) as P52 by (apply pow2_pos; lia).
  assert (2 ^ 53 = 2 * 2 ^ 52) as P53 by reflexivity.
  pose proof top_eq as T.
  destruct (Z.eqb_spec (Zpos p) (2 ^ 53)) as [E53|N53].
  - destruct (Z.leb_spec (E + 1) 971) as [L|L]; cbn [K]; f_equal.
    + change (Zpos 4503599627370496) with (2 ^ 52).
      replace (E + 1 + 1074) with (1 + (E + 1074)) by lia.
      rewrite Z.pow_add_r by lia. change (2 ^ 1) with 2.
      assert (2 ^ (E + 1074) < 2 ^ 2045) by (apply pow2_lt; lia).
      rewrite Z.min_l by nia. nia.
    + assert (2 ^ 2045 <= 2 ^ (E + 1074)) by (apply pow2_le; lia).
      rewrite Z.min_r by nia. reflexivity.
  - destruct (Z.leb_spec E 971) as [L|L]; cbn [K]; f_equal.
    + assert (2 ^ (E + 1074) <= 2 ^ 2045) by (apply pow2_le; lia).
      rewrite Z.min_l by nia. reflexivity.
    + assert (2 ^ (2045 + 1) <= 2 ^ (E + 1074)) by (apply pow2_le; lia).
      rewrite Z.pow_add_r in H by lia. change (2 ^ 1) with 2 in H.
      assert (2 ^ 52 <= Zpos p) by (apply Hn; lia).
      assert (0 < 2 ^ 2045) by (apply pow2_pos; lia).
      rewrite Z.min_r by nia. reflexivity.
Qed.

Lemma rounds_to_exact x : valid x -> is_nan x = false -> rounds_to (K x) x.
Proof. intros V N. split; [exact V|]. split; [exact N|]. auto. Qed.

Lemma rounds_to_K S R x :
  rounds_to S R -> valid x -> is_nan x = false -> K x = S -> K R = S.
Proof.
  intros (_ & _ & H) V N E. destruct (H x V N) as [H1 H2]. lia.
Qed.

Lemma rounds_to_opp S R : rounds_to S R -> rounds_to (- S) (SFopp R).
Proof.
  intros (V & N & H). split; [now apply valid_opp|].
  split; [now destruct R|].
  intros g Vg Ng. rewrite K_opp.
  destruct (H (SFopp g)) as [H1 H2];
    [now apply valid_opp | now destruct g|].
  rewrite K_opp in H1, H2. lia.
Qed.

Lemma K_bounds g : valid g -> - top <= K g <= top.
Proof.
  intros V. pose proof top_pos.
  destruct g as [s|s| |s m e]; cbn [K]; try lia.
  - destruct s; cbn [cond_Zopp]; lia.
  - pose proof (K_finite_lt_top _ _ _ V). destruct s; cbn [cond_Zopp]; lia.
Qed.

(** The arithmetic of the comparison of a rounded value [q1 * P] with a
    double [mg * G], by the order of the two exponents. *)
Lemma round_le_same :
  forall S P G q q1 mg B : Z,
  0 < P -> 0 < G -> 0 < B ->
  q * P <= S < (q + 1) * P ->
  q <= q1 <= q + 1 ->
  (S = q * P -> q1 = q) ->
  q < 2 * B ->
  0 < mg < 2 * B ->
  P = G -> S <= mg * G -> q1 * P <= mg * G.
Proof.
  intros S P G q q1 mg B PP PG PB HS Hq1 Hx Hq Hmg.
  intros <- Hc.
  assert (q <= mg) as L.
  { apply Z.mul_le_mono_pos_r with P; [exact PP|]. lia. }
  apply Z.mul_le_mono_nonneg_r; [lia|].
  destruct (Z.eq_dec q mg) as [Q|Q]; [|lia].
  rewrite Hx; [lia|]. subst mg. lia.
Qed.

Lemma round_le_below :
  forall S P G q q1 mg B : Z,
  0 < P -> 0 < G -> 0 < B ->
  q * P <= S < (q + 1) * P ->
  q <= q1 <= q + 1 ->
  (S = q * P -> q1 = q) ->
  q < 2 * B ->
  0 < mg < 2 * B ->
  2 * P <= G -> B <= mg -> q1 * P <= mg * G.
Proof.
  intros S P G q q1 mg B PP PG PB HS Hq1 Hx Hq Hmg.
  intros HG Hn.
  apply Z.le_trans with (2 * B * P).
  - apply Z.mul_le_mono_nonneg_r; lia.
  - apply Z.le_trans with (B * G).
    + replace (2 * B * P) with (B * (2 * P)) by lia.
      apply Z.mul_le_mono_nonneg_l; lia.
    + apply Z.mul_le_mono_nonneg_r; lia.
Qed.

Lemma round_le_above :
  forall S P G q q1 mg B : Z,
  0 < P -> 0 < G -> 0 < B ->
  q * P <= S < (q + 1) * P ->
  q <= q1 <= q + 1 ->
  (S = q * P -> q1 = q) ->
  q < 2 * B ->
  0 < mg < 2 * B ->
  2 * G <= P -> B <= q -> S <= mg * G -> False.
Proof.
  intros S P G q q1 mg B PP PG PB HS Hq1 Hx Hq Hmg.
  intros HG Hn Hc.
  assert (mg * G < B * P).
  { apply Z.lt_le_trans with (2 * B * G).
    - apply Z.mul_lt_mono_pos_r; lia.
    - replace (2 * B * G) with (B * (2 * G)) by lia.
      apply Z.mul_le_mono_nonneg_l; lia. }
  assert (B * P <= q * P) by (apply Z.mul_le_mono_nonneg_r; lia).
  lia.
Qed.

Lemma round_ge_same :
  forall S P G q q1 mg B : Z,
  0 < P -> 0 < G -> 0 < B ->
  q * P <= S < (q + 1) * P ->
  q <= q1 <= q + 1 ->
  (S = q * P -> q1 = q) ->
  q < 2 * B ->
  0 < mg < 2 * B ->
  P = G -> mg * G <= S -> mg * G <= q1 * P.
Proof.
  intros S P G q q1 mg B PP PG PB HS Hq1 Hx Hq Hmg.
  intros <- Hc.
  assert (mg < q + 1) as L.
  { apply Z.mul_lt_mono_pos_r with P; [exact PP|]. lia. }
  apply Z.mul_le_mono_nonneg_r; lia.
Qed.

Lemma round_ge_above :
  forall S P G q q1 mg B : Z,
  0 < P -> 0 < G -> 0 < B ->
  q * P <= S < (q + 1) * P ->
  q <= q1 <= q + 1 ->
  (S = q * P -> q1 = q) ->
  q < 2 * B ->
  0 < mg < 2 * B ->
  2 * G <= P -> B <= q -> mg * G <= q1 * P.
Proof.
  intros S P G q q1 mg B PP PG PB HS Hq1 Hx Hq Hmg.
  intros HG Hn.
  apply Z.le_trans with (2 * B * G).
  - apply Z.mul_le_mono_nonneg_r; lia.
  - apply Z.le_trans with (B * P).
    + replace (2 * B * G) with (B * (2 * G)) by lia.
      apply Z.mul_le_mono_nonneg_l; lia.
    + apply Z.mul_le_mono_nonneg_r; lia.
Qed.

Lemma round_ge_below :
  forall S P G q q1 mg B : Z,
  0 < P -> 0 < G -> 0 < B ->
  q * P <= S < (q + 1) * P ->
  q <= q1 <= q + 1 ->
  (S = q * P -> q1 = q) ->
  q < 2 * B ->
  0 < mg < 2 * B ->
  2 * P <= G -> B <= mg -> mg * G <= S -> False.
Proof.
  intros S P G q q1 mg B PP PG PB HS Hq1 Hx Hq Hmg.
  intros HG Hn Hc.
  assert ((q + 1) * P <= B * G).
  { apply Z.le_trans with (2 * B * P).
    - apply Z.mul_le_mono_nonneg_r; lia.
    - replace (2 * B * P) with (B * (2 * P)) by lia.
      apply Z.mul_le_mono_nonneg_l; lia. }
  assert (B * G <= mg * G) by (apply Z.mul_le_mono_nonneg_r; lia).
  lia.
Qed.

(** A value at or beyond [top = 2B * T] rounds to at least [top]. *)
Lemma round_ge_top :
  forall S P G q q1 mg B : Z,
  0 < P -> 0 < G -> 0 < B ->
  q * P <= S < (q + 1) * P ->
  q <= q1 <= q + 1 ->
  (S = q * P -> q1 = q) ->
  q < 2 * B ->
  0 < mg < 2 * B ->
  forall T, 0 < T -> 2 * T <= P \/ P = T \/ 2 * P <= T ->
  (2 * T <= P -> B <= q) ->
  2 * B * T <= S -> 2 * B * T <= q1 * P.
Proof.
  intros S P G q q1 mg B PP PG PB HS Hq1 Hx Hq Hmg T.
  intros PT [C|[C|C]] Hn Hc.
  - specialize (Hn C).
    apply Z.le_trans with (B * (2 * T)); [lia|].
    apply Z.le_trans with (B * P).
    + apply Z.mul_le_mono_nonneg_l; lia.
    + apply Z.mul_le_mono_nonneg_r; lia.
  - subst T. exfalso.
    assert ((q + 1) * P <= 2 * B * P)
      by (apply Z.mul_le_mono_nonneg_r; lia).
    lia.
  - exfalso.
    assert ((q + 1) * P <= 2 * B * P)
      by (apply Z.mul_le_mono_nonneg_r; lia).
    assert (2 * B * P <= 2 * B * T).
    { apply Z.mul_le_mono_nonneg_l; lia. }
    assert (0 < 2 * B * P) by lia.
    lia.
Qed.

Lemma binary_round_pos_rounds m e :
  -1074 <= e ->
  rounds_to (Zpos m * 2 ^ (e + 1074)) (binary_round prec emax false m e).
Proof.
  intros He.
  destruct (binary_round_shape false m e He)
    as (E & q & q1 & HE & HS & Hq1 & Hx & Hpos & Hq & Hn & ->).
  set (S := Zpos m * 2 ^ (e + 1074)) in *.
  set (P := 2 ^ (E + 1074)) in *.
  assert (0 < P) as PP by (apply pow2_pos; lia).
  assert (0 < 2 ^ 52) as P52 by (apply pow2_pos; lia).
  assert (2 ^ 53 = 2 * 2 ^ 52) as P53 by reflexivity.
  rewrite P53 in Hq.
  destruct (pack_valid false q1 E HE) as [V N];
    [lia|intros G; specialize (Hn G); lia|].
  split; [exact V|]. split; [exact N|].
  rewrite pack_K; [|lia|lia|intros G; specialize (Hn G); lia].
  cbn [cond_Zopp]. intros g Vg Ng. pose proof top_pos as T.
  pose proof (K_bounds g Vg) as KB.
  assert (0 <= q1 * P) as Q1P by (apply Z.mul_nonneg_nonneg; lia).
  destruct g as [sg|sg| |sg mg eg]; try discriminate; cbn [K] in *.
  - split; intros; lia.
  - destruct sg; cbn [cond_Zopp] in *; split; intros Hc; try lia.
    apply Z.min_glb; [|lia]. rewrite top_eq in *. rewrite P53 in *.
    assert (0 < 2 ^ 2045) as PT by (apply pow2_pos; lia).
    assert (2 * 2 ^ 2045 <= P \/ P = 2 ^ 2045 \/ 2 * P <= 2 ^ 2045) as Tri.
    { destruct (Z.lt_trichotomy (E + 1074) 2045) as [C|[C|C]].
      * right. right. unfold P.
        assert (2 ^ (1 + (E + 1074)) <= 2 ^ 2045) as HP
          by (apply pow2_le; lia).
        rewrite Z.pow_add_r in HP by lia. exact HP.
      * right. left. unfold P. now rewrite C.
      * left. unfold P.
        assert (2 ^ (1 + 2045) <= 2 ^ (E + 1074)) as HP
          by (apply pow2_le; lia).
        rewrite (Z.pow_add_r 2 1 2045) in HP by lia. exact HP. }
    assert (2 * 2 ^ 2045 <= P -> 2 ^ 52 <= q) as Big.
    { intros C. apply Hn.
      destruct (Z_le_gt_dec E (-1074)) as [D|D]; [|lia]. exfalso.
      unfold P in C. replace (E + 1074) with 0 in C by lia.
      change (2 ^ 0) with 1 in C. lia. }
    apply round_ge_top with (S := S) (P := P) (G := P) (q := q) (q1 := q1)
      (mg := 1) (B := 2 ^ 52) (T := 2 ^ 2045);
      assumption || lia.
  - destruct (valid_finite_bounds _ _ _ Vg) as (Heg & Hmg & Hng).
    rewrite P53 in Hmg.
    set (G := 2 ^ (eg + 1074)) in *.
    assert (0 < G) as PG by (apply pow2_pos; lia).
    assert (E < eg -> 2 * P <= G) as Plt.
    { intros C. unfold P, G.
      assert (2 ^ (1 + (E + 1074)) <= 2 ^ (eg + 1074)) as HP
        by (apply pow2_le; lia).
      rewrite Z.pow_add_r in HP by lia. exact HP. }
    assert (eg < E -> 2 * G <= P) as Pgt.
    { intros C. unfold P, G.
      assert (2 ^ (1 + (eg + 1074)) <= 2 ^ (E + 1074)) as HP
        by (apply pow2_le; lia).
      rewrite Z.pow_add_r in HP by lia. exact HP. }
    assert (E = eg -> P = G) as Peq by (intros C; unfold P, G; now rewrite C).
    assert (0 < Zpos mg * G) as MG by (apply Z.mul_pos_pos; lia).
    destruct sg; cbn [cond_Zopp] in *.
    + split; intros Hc; [lia|]. apply Z.min_glb; lia.
    + split; intros Hc.
      * apply Z.le_trans with (q1 * P); [apply Z.le_min_l|].
        destruct (Z.lt_trichotomy E eg) as [C|[C|C]].
        -- apply round_le_below with
             (S := S) (P := P) (G := G) (q := q) (q1 := q1) (mg := Zpos mg) (B := 2 ^ 52); auto; try lia; apply Hng; lia.
        -- apply round_le_same with
             (S := S) (P := P) (G := G) (q := q) (q1 := q1) (mg := Zpos mg) (B := 2 ^ 52); auto; try lia.
        -- exfalso.
           apply round_le_above with
             (S := S) (P := P) (G := G) (q := q) (q1 := q1) (mg := Zpos mg) (B := 2 ^ 52); auto; try lia; apply Hn; lia.
      * apply Z.min_glb; [|lia].
        destruct (Z.lt_trichotomy E eg) as [C|[C|C]].
        -- exfalso.
           apply round_ge_below with
             (S := S) (P := P) (G := G) (q := q) (q1 := q1) (mg := Zpos mg) (B := 2 ^ 52); auto; try lia; apply Hng; lia.
        -- apply round_ge_same with
             (S := S) (P := P) (G := G) (q := q) (q1 := q1) (mg := Zpos mg) (B := 2 ^ 52); auto; try lia.
        -- apply round_ge_above with
             (S := S) (P := P) (G := G) (q := q) (q1 := q1) (mg := Zpos mg) (B := 2 ^ 52); auto; try lia; apply Hn; lia.
Qed.

Lemma binary_round_true m e :
  binary_round prec emax true m e = SFopp (binary_round prec emax false m e).
Proof.
  unfold binary_round. destruct (shl_align _ _ _) as [mz ez].
  rewrite !binary_round_aux_finish. destruct (shr_fexp _ _ _ _ _) as [mrs e'].
  unfold finish. destruct (shr_fexp _ _ _ _ _) as [mrs'' e''].
  destruct (shr_m mrs''); try reflexivity. destruct (_ <=? _); reflexivity.
Qed.

Lemma binary_normalize_rounds M e :
  -1074 <= e ->
  rounds_to (M * 2 ^ (e + 1074)) (binary_normalize prec emax M e false).
Proof.
  intros He. destruct M as [|m|m]; cbn [binary_normalize].
  - rewrite Z.mul_0_l. apply (rounds_to_exact (S754_zero false)); reflexivity.
  - now apply binary_round_pos_rounds.
  - rewrite binary_round_true.
    replace (Zneg m * 2 ^ (e + 1074)) with (- (Zpos m * 2 ^ (e + 1074)))
      by lia.
    apply rounds_to_opp. now apply binary_round_pos_rounds.
Qed.

(** ** Addition and subtraction *)

Lemma shl_align_fst mx ex ez :
  ez <= ex -> Zpos (fst (shl_align mx ex ez)) = Zpos mx * 2 ^ (ex - ez).
Proof.
  intros H. unfold shl_align.
  destruct (ez - ex) as [|d|d] eqn:E; try lia; cbn [fst].
  - replace (ex - ez) with 0 by lia. change (2 ^ 0) with 1. lia.
  - rewrite iter_xO. f_equal. f_equal. lia.
Qed.

Lemma cond_Zopp_mul s a c : cond_Zopp s a * c = cond_Zopp s (a * c).
Proof. destruct s; cbn [cond_Zopp]; lia. Qed.

Lemma aligned_K s m e ez :
  -1074 <= ez -> ez <= e ->
  cond_Zopp s (Zpos (fst (shl_align m e ez))) * 2 ^ (ez + 1074)
  = K (S754_finite s m e).
Proof.
  intros H1 H2. rewrite shl_align_fst by exact H2. cbn [K].
  rewrite cond_Zopp_mul. f_equal. rewrite <- Z.mul_assoc. f_equal.
  rewrite <- Z.pow_add_r by lia. f_equal. lia.
Qed.

Lemma finite_exponent s m e : valid (S754_finite s m e) -> -1074 <= e.
Proof. intros V. destruct (valid_finite _ _ _ V). lia. Qed.

Lemma SFadd_rounds x y :
  valid x -> valid y -> is_finite x = true -> is_finite y = true ->
  rounds_to (K x + K y) (SFadd prec emax x y).
Proof.
  intros Vx Vy Fx Fy.
  destruct x as [sx|sx| |sx mx ex], y as [sy|sy| |sy my ey];
    try discriminate; cbn [SFadd].
  - destruct sx, sy; apply (rounds_to_exact (S754_zero _)); reflexivity.
  - now apply rounds_to_exact.
  - replace (K (S754_finite sx mx ex) + K (S754_zero sy))
      with (K (S754_finite sx mx ex)) by (cbn [K]; lia).
    now apply rounds_to_exact.
  - pose proof (finite_exponent _ _ _ Vx). pose proof (finite_exponent _ _ _ Vy).
    rewrite <- (aligned_K sx mx ex (Z.min ex ey)) by lia.
    rewrite <- (aligned_K sy my ey (Z.min ex ey)) by lia.
    rewrite <- Z.mul_add_distr_r.
    apply binary_normalize_rounds. lia.
Qed.

Lemma SFsub_rounds x y :
  valid x -> valid y -> is_finite x = true -> is_finite y = true ->
  rounds_to (K x - K y) (SFsub prec emax x y).
Proof.
  intros Vx Vy Fx Fy.
  destruct x as [sx|sx| |sx mx ex], y as [sy|sy| |sy my ey];
    try discriminate; cbn [SFsub].
  - destruct sx, sy; apply (rounds_to_exact (S754_zero _)); reflexivity.
  - replace (K (S754_zero sx) - K (S754_finite sy my ey))
      with (K (S754_finite (negb sy) my ey))
      by (cbn [K]; destruct sy; cbn [negb cond_Zopp]; lia).
    apply rounds_to_exact; [exact Vy|reflexivity].
  - replace (K (S754_finite sx mx ex) - K (S754_zero sy))
      with (K (S754_finite sx mx ex)) by (cbn [K]; lia).
    now apply rounds_to_exact.
  - pose proof (finite_exponent _ _ _ Vx). pose proof (finite_exponent _ _ _ Vy).
    rewrite <- (aligned_K sx mx ex (Z.min ex ey)) by lia.
    rewrite <- (aligned_K sy my ey (Z.min ex ey)) by lia.
    rewrite <- Z.mul_sub_distr_r.
    apply binary_normalize_rounds. lia.
Qed.

Lemma rounds_to_valid S R : rounds_to S R -> valid R.
Proof. now intros (V & _). Qed.

Lemma SFadd_valid x y : valid x -> valid y -> valid (SFadd prec emax x y).
Proof.
  intros Vx Vy.
  destruct (is_finite x) eqn:Fx, (is_finite y) eqn:Fy.
  - exact (rounds_to_valid _ _ (SFadd_rounds x y Vx Vy Fx Fy)).
  - destruct x as [sx|sx| |sx mx ex], y as [sy|sy| |sy my ey];
      try discriminate; reflexivity.
  - destruct x as [sx|sx| |sx mx ex], y as [sy|sy| |sy my ey];
      try discriminate; reflexivity.
  - destruct x as [sx|sx| |sx mx ex], y as [sy|sy| |sy my ey];
      try discriminate; try reflexivity; destruct sx, sy; reflexivity.
Qed.

Lemma SFsub_valid x y : valid x -> valid y -> valid (SFsub prec emax x y).
Proof.
  intros Vx Vy.
  destruct (is_finite x) eqn:Fx, (is_finite y) eqn:Fy.
  - exact (rounds_to_valid _ _ (SFsub_rounds x y Vx Vy Fx Fy)).
  - destruct x as [sx|sx| |sx mx ex], y as [sy|sy| |sy my ey];
      try discriminate; reflexivity.
  - destruct x as [sx|sx| |sx mx ex], y as [sy|sy| |sy my ey];
      try discriminate; reflexivity.
  - destruct x as [sx|sx| |sx mx ex], y as [sy|sy| |sy my ey];
      try discriminate; try reflexivity; destruct sx, sy; reflexivity.
Qed.

(** ** Representable values *)

Lemma digits2_unique m k :
  1 <= k -> 2 ^ (k - 1) <= Zpos m < 2 ^ k -> Zpos (digits2_pos m) = k.
Proof.
  intros Hk [L U]. apply Z.le_antisymm.
  - now apply digits2_le.
  - now apply digits2_ge.
Qed.

(** An integer below [2^53] times a power of two in range is a double. *)
Lemma representable N e :
  -1074 <= e <= 971 -> Z.abs N < 2 ^ 53 ->
  exists g, valid g /\ is_finite g = true /\ K g = N * 2 ^ (e + 1074).
Proof.
  intros He HN.
  assert (forall n, e <= 971 - 0 -> Zpos n < 2 ^ 53 ->
            exists g, valid g /\ is_finite g = true /\
                      K g = Zpos n * 2 ^ (e + 1074)) as Pos.
  { intros n _ Hn.
    set (d := Zpos (digits2_pos n)).
    destruct (digits2_bounds n) as [DL DU]. fold d in DL, DU.
    assert (d <= 53) as Hd by (apply digits2_le; exact Hn).
    assert (1 <= d) by (unfold d; lia).
    set (E := Z.max (d + e - 53) (-1074)).
    assert (0 < 2 ^ (e - E)) as Pk by (apply pow2_pos; lia).
    assert (0 < Zpos n * 2 ^ (e - E)) as Pm by lia.
    destruct (Zpos n * 2 ^ (e - E)) as [|mz|mz] eqn:Emz; try lia.
    assert (2 ^ (d + (e - E) - 1) <= Zpos mz < 2 ^ (d + (e - E))) as B.
    { rewrite <- Emz.
      replace (d + (e - E) - 1) with (d - 1 + (e - E)) by lia.
      rewrite !Z.pow_add_r by lia. split.
      - apply Z.mul_le_mono_nonneg_r; lia.
      - apply Z.mul_lt_mono_pos_r; lia. }
    pose proof (digits2_unique mz (d + (e - E)) ltac:(lia) B) as Dz.
    exists (S754_finite false mz E). split; [|split; [reflexivity|]].
    - apply finite_valid; lia.
    - cbn [K cond_Zopp]. rewrite <- Emz, <- Z.mul_assoc. f_equal.
      rewrite <- Z.pow_add_r by lia. f_equal. lia. }
  destruct N as [|n|n].
  - exists (S754_zero false). repeat split.
  - apply Pos; lia.
  - destruct (Pos n) as (g & V & F & Kg); [lia|lia|].
    exists (SFopp g). split; [now apply valid_opp|]. split.
    + now destruct g.
    + rewrite K_opp, Kg. lia.
Qed.

Lemma finite_not_nan x : is_finite x = true -> is_nan x = false.
Proof. now destruct x. Qed.

(** ** The sum check implies the LP floor check *)

Lemma K_lit_100 : K lit_100 = 100 * 2 ^ 1074.
Proof. cbn [K lit_100 F cond_Zopp]. change (-46 + 1074) with 1028. lia. Qed.

Lemma K_lit_0_1 : K lit_0_1 = 0x1999999999999a * 2 ^ 1018.
Proof. reflexivity. Qed.

Lemma K_pred_100 : K pred_100 = 100 * 2 ^ 1074 - 2 ^ 1028.
Proof. cbn [K pred_100 F cond_Zopp]. change (-46 + 1074) with 1028. lia. Qed.

Lemma K_sixteenth : K sixteenth = 2 ^ 1070.
Proof. cbn [K sixteenth F cond_Zopp]. change (-56 + 1074) with 1018. lia. Qed.

Lemma K_minus_4096 : K minus_4096 = - 2 ^ 1086.
Proof. cbn [K minus_4096 cond_Zopp]. change (-40 + 1074) with 1034. lia. Qed.

Lemma K_max_float : K max_float = (2 ^ 53 - 1) * 2 ^ 2045.
Proof. cbn [K max_float F cond_Zopp]. change (971 + 1074) with 2045. lia. Qed.

Lemma constants_valid :
  valid lit_100 /\ valid lit_0_1 /\ valid pred_100 /\ valid sixteenth /\
  valid minus_4096 /\ valid max_float.
Proof. repeat split. Qed.

(** A double of magnitude at least [2^11] is a multiple of [2^-46]. *)
Lemma large_multiple s m e :
  valid (S754_finite s m e) ->
  2 ^ 1085 <= Zpos m * 2 ^ (e + 1074) ->
  exists k, Zpos m * 2 ^ (e + 1074) = k * 2 ^ 1028.
Proof.
  intros V H. destruct (valid_finite_bounds _ _ _ V) as (He & Hm & _).
  destruct (Z_lt_le_dec (e + 1074) 1028) as [C|C].
  - exfalso.
    assert (2 ^ (e + 1074) <= 2 ^ 1027) by (apply pow2_le; lia).
    assert (Zpos m * 2 ^ (e + 1074) <= 2 ^ 53 * 2 ^ 1027).
    { apply Z.mul_le_mono_nonneg; lia. }
    lia.
  - exists (Zpos m * 2 ^ (e + 1074 - 1028)).
    rewrite <- Z.mul_assoc. f_equal. rewrite <- Z.pow_add_r by lia.
    f_equal. lia.
Qed.

Lemma not_infinite_finite a :
  valid a -> is_nan a = false -> - top < K a < top -> is_finite a = true.
Proof.
  intros V N H. destruct a as [s|s| |s m e]; try reflexivity; try discriminate.
  destruct s; cbn [K cond_Zopp] in H; lia.
Qed.

(** [100 - x] does not overflow. *)
Lemma sub_100_lt_top x :
  valid x -> is_finite x = true -> K (SFsub prec emax lit_100 x) < top.
Proof.
  intros V Fx. destruct constants_valid as (V100 & _ & _ & _ & _ & Vmax).
  pose proof (SFsub_rounds lit_100 x V100 V eq_refl Fx) as (_ & _ & R).
  rewrite K_lit_100 in R.
  destruct (Z_le_gt_dec (100 * 2 ^ 1074 - K x) (K max_float)) as [C|C].
  - destruct (R max_float Vmax eq_refl) as [U _]. specialize (U C).
    rewrite K_max_float in U. unfold top. lia.
  - rewrite K_max_float in C.
    destruct x as [s| | |s m e]; try discriminate Fx.
    + cbn [K] in C. lia.
    + destruct (valid_finite _ _ _ V) as (He & _).
      destruct (valid_finite_bounds _ _ _ V) as (_ & Hm & _).
      assert (0 < 2 ^ (e + 1074)) by (apply pow2_pos; lia).
      destruct s; cbn [K cond_Zopp] in C; [|lia].
      destruct (Z_lt_le_dec e 971) as [D|D].
      * exfalso.
        assert (2 ^ (e + 1074) <= 2 ^ 2044) by (apply pow2_le; lia).
        assert (Zpos m * 2 ^ (e + 1074) <= 2 ^ 53 * 2 ^ 2044)
          by (apply Z.mul_le_mono_nonneg; lia).
        lia.
      * replace e with 971 in * by lia. change (971 + 1074) with 2045 in C.
        assert (m = 9007199254740991%positive) as -> by lia.
        vm_compute. reflexivity.
Qed.

(** The last subtraction: a difference of at most [2^-4] rounds below 0.1. *)
Lemma lp_below_floor a y :
  valid a -> is_nan a = false -> valid y -> is_finite y = true ->
  K a < top -> K a - K y <= 2 ^ 1070 ->
  valid (SFsub prec emax a y) /\
  is_nan (SFsub prec emax a y) = false /\
  K (SFsub prec emax a y) < K lit_0_1.
Proof.
  intros Va Na Vy Fy Ha HD.
  destruct constants_valid as (_ & _ & _ & V16 & _ & _).
  destruct (is_finite a) eqn:Fa.
  - destruct (SFsub_rounds a y Va Vy Fa Fy) as (VL & NL & R).
    split; [exact VL|]. split; [exact NL|].
    destruct (R sixteenth V16 eq_refl) as [U _].
    rewrite K_sixteenth in U. specialize (U HD). rewrite K_lit_0_1. lia.
  - destruct a as [s|s| |s m e]; try discriminate Fa; try discriminate Na.
    destruct s; [|cbn [K cond_Zopp] in Ha; lia].
    destruct y as [sy|sy| |sy my ey]; try discriminate Fy; cbn [SFsub];
      (split; [reflexivity|]; split; [reflexivity|]);
      rewrite K_lit_0_1; cbn [K cond_Zopp]; unfold top; lia.
Qed.

(** If the sum [x + y], as computed, is at least 100, then
    [100 - x - y], as computed, is below 0.1. *)
Lemma sum_ge_100_lp_lt x y :
  valid x -> valid y ->
  is_nan (SFadd prec emax x y) = false ->
  100 * 2 ^ 1074 <= K (SFadd prec emax x y) ->
  let lp := SFsub prec emax (SFsub prec emax lit_100 x) y in
  valid lp /\ is_nan lp = false /\ K lp < K lit_0_1.
Proof.
  intros Vx Vy NA HA.
  destruct constants_valid as (V100 & V01 & Vp & V16 & Vm & Vmax).
  destruct (is_finite x) eqn:Fx; [destruct (is_finite y) eqn:Fy|].
  - (* both finite *)
    destruct (SFadd_rounds x y Vx Vy Fx Fy) as (_ & _ & RA).
    assert (100 * 2 ^ 1074 - 2 ^ 1028 < K x + K y) as Sum.
    { destruct (Z_lt_le_dec (100 * 2 ^ 1074 - 2 ^ 1028) (K x + K y))
        as [C|C]; [exact C|exfalso].
      destruct (RA pred_100 Vp eq_refl) as [U _].
      rewrite K_pred_100 in U. specialize (U C). lia. }
    pose proof (SFsub_rounds lit_100 x V100 Vx eq_refl Fx) as (Va & Na & Ra).
    rewrite K_lit_100 in Ra.
    set (a := SFsub prec emax lit_100 x) in *.
    set (u := 100 * 2 ^ 1074 - K x) in *.
    cbv zeta.
    assert (K a <= K y \/ (K a < top /\ K a - K y <= 2 ^ 1070)) as [D|[D1 D2]].
    { destruct (Z_le_gt_dec (2 ^ 1086) u) as [B1|B1];
        [|destruct (Z_le_gt_dec u (- 2 ^ 1086)) as [B2|B2]].
      - (* x is large and negative *)
        left.
        destruct x as [sx| | |sx mx ex]; try discriminate Fx;
          [unfold u in B1; cbn [K] in B1; lia|].
        destruct sx; cbn [K cond_Zopp] in *;
          [|pose proof (K_finite_lt_top _ _ _ Vx); unfold u in B1; lia].
        destruct (large_multiple _ _ _ Vx) as [k Hk]; [unfold u in B1; lia|].
        destruct y as [sy| | |sy my ey]; try discriminate Fy;
          [cbn [K] in Sum; unfold u in B1; lia|].
        destruct sy; cbn [K cond_Zopp] in *;
          [pose proof (K_finite_lt_top _ _ _ Vy); unfold u in B1; lia|].
        destruct (large_multiple _ _ _ Vy) as [k' Hk'];
          [unfold u in B1; lia|].
        destruct (Ra (S754_finite false my ey) Vy eq_refl) as [U _].
        cbn [K cond_Zopp] in U. apply U. unfold u. lia.
      - (* x is large and positive *)
        left.
        destruct (Ra minus_4096 Vm eq_refl) as [U _].
        rewrite K_minus_4096 in U. specialize (U B2).
        destruct (Z_le_gt_dec (- 2 ^ 1086) (K y)) as [Y|Y]; [lia|].
        destruct x as [sx| | |sx mx ex]; try discriminate Fx;
          [unfold u in B2; cbn [K] in B2; lia|].
        destruct sx; cbn [K cond_Zopp] in *;
          [pose proof (K_finite_lt_top _ _ _ Vx); unfold u in B2; lia|].
        destruct (large_multiple _ _ _ Vx) as [k Hk]; [unfold u in B2; lia|].
        destruct y as [sy| | |sy my ey]; try discriminate Fy;
          [cbn [K] in Y; lia|].
        destruct sy; cbn [K cond_Zopp] in *;
          [|pose proof (K_finite_lt_top _ _ _ Vy); lia].
        destruct (large_multiple _ _ _ Vy) as [k' Hk']; [lia|].
        destruct (Ra (S754_finite true my ey) Vy eq_refl) as [U' _].
        cbn [K cond_Zopp] in U'. apply U'. unfold u. lia.
      - (* 100 - x is moderate: compare with the next multiple of 2^-40 *)
        right.
        set (N := (u + (2 ^ 1034 - 1)) / 2 ^ 1034).
        pose proof (Z.div_mod (u + (2 ^ 1034 - 1)) (2 ^ 1034) ltac:(lia))
          as DM.
        pose proof (Z.mod_pos_bound (u + (2 ^ 1034 - 1)) (2 ^ 1034)
                      ltac:(lia)) as MB.
        fold N in DM.
        destruct (representable N (-40)) as (g & Vg & Fg & Kg); [lia|lia|].
        change (-40 + 1074) with 1034 in Kg.
        destruct (Ra g Vg (finite_not_nan _ Fg)) as [U _].
        assert (K a <= K g) as Ug by (apply U; lia).
        pose proof (K_bounds g Vg).
        split; [unfold top in *; lia|lia]. }
    + apply lp_below_floor; try assumption.
      * pose proof (K_bounds y Vy).
        destruct y as [sy|sy| |sy my ey]; try discriminate Fy.
        -- cbn [K] in D. pose proof top_pos. lia.
        -- pose proof (K_finite_lt_top _ _ _ Vy).
           destruct sy; cbn [K cond_Zopp] in D; lia.
      * lia.
    + now apply lp_below_floor.
  - (* x finite, y infinite or nan *)
    destruct y as [sy|sy| |sy my ey]; try discriminate Fy.
    + destruct sy.
      * exfalso. destruct x; try discriminate Fx;
          cbn [SFadd K cond_Zopp] in HA; pose proof top_pos; lia.
      * pose proof (sub_100_lt_top x Vx Fx) as Ha.
        pose proof (SFsub_rounds lit_100 x V100 Vx eq_refl Fx) as (Va & Na & _).
        cbv zeta.
        destruct (SFsub prec emax lit_100 x) as [s|s| |s m e];
          try discriminate Na.
        -- cbn [SFsub negb]. split; [reflexivity|]. split; [reflexivity|].
           rewrite K_lit_0_1. cbn [K cond_Zopp]. unfold top. lia.
        -- destruct s; [|cbn [K cond_Zopp] in Ha; lia].
           cbn [SFsub negb]. split; [reflexivity|]. split; [reflexivity|].
           rewrite K_lit_0_1. cbn [K cond_Zopp]. unfold top. lia.
        -- cbn [SFsub negb]. split; [reflexivity|]. split; [reflexivity|].
           rewrite K_lit_0_1. cbn [K cond_Zopp]. unfold top. lia.
    + exfalso. destruct x; try discriminate Fx; discriminate NA.
  - (* x infinite or nan *)
    destruct x as [sx|sx| |sx mx ex]; try discriminate Fx;
      [|discriminate NA].
    destruct sx.
    + exfalso.
      destruct y as [sy|sy| |sy my ey]; try discriminate NA;
        try destruct sy; try discriminate NA;
        cbn [SFadd K cond_Zopp] in HA; pose proof top_pos; lia.
    + destruct y as [sy|sy| |sy my ey]; try discriminate NA;
        try destruct sy; try discriminate NA;
        cbn [SFsub lit_100 F negb]; (split; [reflexivity|]);
        (split; [reflexivity|]); rewrite K_lit_0_1; cbn [K cond_Zopp];
        unfold top; lia.
Qed.

(* ================================================================== *)
(** * The two front ends agree *)
(* ================================================================== *)

(** Python's exact comparison of an int with a double, in terms of [K]. *)
Lemma compare_int_float_K z y :
  valid y -> is_nan y = false -> - top < z * 2 ^ 1074 < top ->
  compare_int_float z y = Some (z * 2 ^ 1074 ?= K y).
Proof.
  intros V N Hz. assert (0 < 2 ^ 1074) as P by (apply pow2_pos; lia).
  destruct y as [s|s| |s m e]; try discriminate N; cbn [compare_int_float K].
  - f_equal. change 0 with (0 * 2 ^ 1074) at 2.
    now rewrite compare_mul_pos.
  - destruct s; cbn [cond_Zopp]; solve_cmp.
  - destruct (valid_finite _ _ _ V) as (He & _). f_equal.
    rewrite <- cond_Zopp_mul. set (v := cond_Zopp s (Zpos m)).
    destruct e as [|p|p].
    + change (0 + 1074) with 1074. now rewrite compare_mul_pos.
    + rewrite Z.pow_pos_fold.
      replace (v * 2 ^ (Zpos p + 1074)) with (v * 2 ^ Zpos p * 2 ^ 1074)
        by (rewrite Z.pow_add_r by lia; lia).
      now rewrite compare_mul_pos.
    + rewrite Z.pow_pos_fold.
      assert (0 < 2 ^ (Zneg p + 1074)) by (apply pow2_pos; lia).
      replace (z * 2 ^ 1074)
        with (z * 2 ^ Zpos p * 2 ^ (Zneg p + 1074))
        by (rewrite <- Z.mul_assoc, <- Z.pow_add_r by lia;
            do 2 f_equal; lia).
      now rewrite compare_mul_pos.
Qed.

Lemma ge_100_K x :
  valid x -> ge (PFloat x) (PInt 100) = true ->
  is_nan x = false /\ 100 * 2 ^ 1074 <= K x.
Proof.
  intros V. unfold ge. cbn [compare].
  destruct (is_nan x) eqn:N; [destruct x; try discriminate N; discriminate|].
  rewrite compare_int_float_K by (try assumption; unfold top; lia).
  cbn [option_map]. intros H. split; [reflexivity|].
  destruct (Z.compare_spec (100 * 2 ^ 1074) (K x)); try lia.
  discriminate H.
Qed.

Lemma lt_0_1_K x :
  valid x -> is_nan x = false -> K x < K lit_0_1 ->
  lt (PFloat x) (PFloat lit_0_1) = true.
Proof.
  intros V N H. unfold lt. cbn [compare].
  rewrite SFcompare_K by (try assumption; reflexivity).
  apply Z.compare_lt_iff in H. now rewrite H.
Qed.

(** The first check of [validate_and_update] is implied by the second:
    when [team + public >= 100] holds, so does [lp < 0.1]. *)
Lemma first_check_redundant x y :
  valid x -> valid y ->
  ge (PFloat (fadd x y)) (PInt 100) = true ->
  lt (PFloat (fsub (fsub lit_100 x) y)) (PFloat lit_0_1) = true.
Proof.
  intros Vx Vy H.
  destruct (ge_100_K _ (SFadd_valid x y Vx Vy) H) as [N HK].
  destruct (sum_ge_100_lp_lt x y Vx Vy N HK) as (VL & NL & KL).
  now apply lt_0_1_K.
Qed.

Lemma is_valid_validate_allocation x y :
  valid x -> valid y ->
  exists b lp msg,
    Gui.is_valid x y = Ok b /\
    validate_allocation (PFloat x) (PFloat y) = Ok (b, lp, msg).
Proof.
  intros Vx Vy. unfold Gui.is_valid, validate_allocation. cbv zeta.
  rewrite lp_of_floats. cbn [bind add arith].
  destruct (ge (PFloat (fadd x y)) (PInt 100)) eqn:G.
  - rewrite (first_check_redundant x y Vx Vy G).
    do 3 eexists. split; reflexivity.
  - destruct (lt _ _); [do 3 eexists; split; reflexivity|].
    unfold and_then. destruct (gt (PFloat y) _); cbn [mul arith bind].
    + destruct (gt _ _); cbn [negb]; do 3 eexists; split; reflexivity.
    + do 3 eexists. split; reflexivity.
Qed.

(** Every slider position, checked one by one. *)
Lemma agree_at_sliders :
  forallb (fun t => forallb (agree_at t) (range 0 101)) (range 0 31) = true.
Proof. vm_compute. reflexivity. Qed.

Lemma in_range a n z : a <= z < a + Z.of_nat n -> In z (range a n).
Proof.
  intros H. unfold range. apply in_map_iff. exists (Z.to_nat (z - a)).
  split; [lia|]. apply in_seq. lia.
Qed.

Lemma agree_at_true t p :
  agree_at t p = true ->
  exists x y b lp msg,
    float_of_int t = Ok x /\ float_of_int p = Ok y /\
    Gui.is_valid x y = Ok b /\
    validate_allocation (PInt t) (PInt p) = Ok (b, lp, msg).
Proof.
  unfold agree_at.
  destruct (float_of_int t) as [x|] eqn:Ex; [|discriminate].
  destruct (float_of_int p) as [y|] eqn:Ey; [|discriminate].
  destruct (Gui.is_valid x y) as [b|] eqn:Eg; [|discriminate].
  destruct (validate_allocation _ _) as [[[b' lp] msg]|] eqn:Ev;
    [|discriminate].
  intros H. apply Bool.eqb_prop in H. subst b'.
  exists x, y, b, lp, msg. auto.
Qed.

(** C2: the two front ends decide validity identically.  For every pair
    of doubles (the only values a Tk variable holds; NaN and the
    infinities included), the three checks of [validate_and_update] accept
    exactly when [validate_allocation] returns valid; and at every slider
    position the Streamlit validator, fed the two ints, decides as the Tk
    checks do, fed the two floats. *)
Theorem front_ends_agree :
  (forall x y : float,
      valid x -> valid y ->
      exists b lp msg,
        Gui.is_valid x y = Ok b /\
        validate_allocation (PFloat x) (PFloat y) = Ok (b, lp, msg)) /\
  (forall t p : Z,
      0 <= t <= 30 -> 0 <= p <= 100 ->
      exists x y b lp msg,
        float_of_int t = Ok x /\ float_of_int p = Ok y /\
        Gui.is_valid x y = Ok b /\
        validate_allocation (PInt t) (PInt p) = Ok (b, lp, msg)).
Proof.
  split; [exact is_valid_validate_allocation|].
  intros t p Ht Hp. apply agree_at_true.
  pose proof agree_at_sliders as H.
  rewrite forallb_forall in H.
  specialize (H t (in_range 0 31 t ltac:(lia))).
  rewrite forallb_forall in H.
  exact (H p (in_range 0 101 p ltac:(lia))).
Qed.

Lemma front_ends_agree_witness :
  valid Gui.lit_10 /\ valid lit_75 /\
  exists b lp msg,
    Gui.is_valid Gui.lit_10 lit_75 = Ok b /\
    validate_allocation (PFloat Gui.lit_10) (PFloat lit_75)
    = Ok (b, lp, msg).
Proof.
  split; [reflexivity|]. split; [reflexivity|].
  apply (proj1 front_ends_agree Gui.lit_10 lit_75); reflexivity.
Defined.

(* ================================================================== *)
(** * Monotonicity of lpPercent in teamPercent *)
(* ================================================================== *)

(** Integers below [2^53] are subtracted exactly. *)
Lemma fsub_integral x y n m :
  integral x n -> integral y m -> Z.abs (n - m) < 2 ^ 53 ->
  integral (fsub x y) (n - m).
Proof.
  intros (Vx & Fx & Kx) (Vy & Fy & Ky) H.
  pose proof (SFsub_rounds x y Vx Vy Fx Fy) as R.
  destruct (representable (n - m) 0) as (g & Vg & Fg & Kg); [lia|exact H|].
  change (0 + 1074) with 1074 in Kg.
  assert (K (fsub x y) = (n - m) * 2 ^ 1074) as KR.
  { unfold fsub.
    rewrite (rounds_to_K _ _ g R Vg (finite_not_nan _ Fg)) by lia. lia. }
  destruct R as (VR & NR & _).
  split; [exact VR|]. split; [|exact KR].
  apply not_infinite_finite; [exact VR|exact NR|].
  rewrite KR, <- Kg.
  pose proof (K_bounds g Vg).
  destruct g as [s|s| |s mg eg]; try discriminate Fg.
  - cbn [K]. pose proof top_pos. lia.
  - pose proof (K_finite_lt_top _ _ _ Vg).
    destruct s; cbn [K cond_Zopp]; lia.
Qed.

Lemma lit_100_integral : integral lit_100 100.
Proof. split; [reflexivity|]. split; [reflexivity|]. apply K_lit_100. Qed.

Lemma lt_integral x y n m :
  integral x n -> integral y m -> lt (PFloat x) (PFloat y) = (n <? m).
Proof.
  intros (Vx & Fx & Kx) (Vy & Fy & Ky). unfold lt. cbn [compare].
  rewrite SFcompare_K by auto using finite_not_nan.
  rewrite Kx, Ky, compare_mul_pos by (apply pow2_pos; lia).
  unfold Z.ltb. destruct (n ?= m); reflexivity.
Qed.

(** C10, as stated, fails on floats: 10.0 < 10.000000000000002, yet with
    public = 75.0 both give lpPercent = 15.0, because 100 - team rounds to
    90.0 in both cases. *)
Lemma lp_percent_not_strictly_antitone :
  ~ (forall public team1 team2 v1 lp1 m1 v2 lp2 m2,
        lt team1 team2 = true ->
        validate_allocation team1 public = Ok (v1, lp1, m1) ->
        validate_allocation team2 public = Ok (v2, lp2, m2) ->
        lt lp2 lp1 = true).
Proof.
  intros H.
  specialize (H (PFloat lit_75) (PFloat Gui.lit_10)
                (PFloat lit_10_000000000000002)
                true (PFloat lit_15) "" true (PFloat lit_15) "").
  assert (lt (PFloat lit_15) (PFloat lit_15) = true) as E
    by (apply H; vm_compute; reflexivity).
  vm_compute in E. discriminate E.
Qed.

(** C10 (amended): on the values the sliders produce, lpPercent is
    strictly antitone in teamPercent.  For int inputs (Streamlit), with
    public fitting a double, and for doubles that are integers of magnitude
    at most 2^50 (Tk), the validator returns for both team values, and the
    lpPercent it returns for the larger team is strictly less. *)
Theorem lp_percent_strictly_antitone_on_integers :
  (forall public team1 team2 : Z,
      team1 < team2 ->
      fits_double (PInt public) = true ->
      exists v1 lp1 m1 v2 lp2 m2,
        validate_allocation (PInt team1) (PInt public)
        = Ok (v1, PInt lp1, m1) /\
        validate_allocation (PInt team2) (PInt public)
        = Ok (v2, PInt lp2, m2) /\
        lp1 = 100 - team1 - public /\
        lp2 = 100 - team2 - public /\
        lp2 < lp1 /\
        lt (PInt lp2) (PInt lp1) = true) /\
  (forall (public team1 team2 : float) (p t1 t2 : Z),
      integral public p -> integral team1 t1 -> integral team2 t2 ->
      Z.abs p <= 2 ^ 50 -> Z.abs t1 <= 2 ^ 50 -> Z.abs t2 <= 2 ^ 50 ->
      lt (PFloat team1) (PFloat team2) = true ->
      exists v1 lp1 m1 v2 lp2 m2,
        validate_allocation (PFloat team1) (PFloat public)
        = Ok (v1, PFloat lp1, m1) /\
        validate_allocation (PFloat team2) (PFloat public)
        = Ok (v2, PFloat lp2, m2) /\
        integral lp1 (100 - t1 - p) /\
        integral lp2 (100 - t2 - p) /\
        lt (PFloat lp2) (PFloat lp1) = true).
Proof.
  split.
  - intros public team1 team2 Hlt Hfit.
    assert (forall t, exists v m,
               validate_allocation (PInt t) (PInt public)
               = Ok (v, PInt (100 - t - public), m)) as Hv.
    { intros t.
      destruct (validate_allocation_convertible (PInt t) (PInt public))
        as (lp & limit & Hlp & _ & Hval).
      - unfold convertible. now rewrite Hfit.
      - cbn in Hlp. injection Hlp as <-. rewrite Hval. unfold outcome.
        destruct (lt _ _); [eauto|]. destruct (_ && _); eauto. }
    destruct (Hv team1) as (v1 & m1 & H1), (Hv team2) as (v2 & m2 & H2).
    exists v1, (100 - team1 - public), m1, v2, (100 - team2 - public), m2.
    repeat split; try assumption; try lia.
    unfold lt. cbn [compare].
    replace (100 - team2 - public ?= 100 - team1 - public) with Lt;
      [reflexivity|]. symmetry. apply Z.compare_lt_iff. lia.
  - intros public team1 team2 p t1 t2 Ip I1 I2 Bp B1 B2 Hlt.
    assert (2 ^ 50 + 2 ^ 50 + 100 < 2 ^ 53) as Small by reflexivity.
    assert (forall team t, integral team t -> Z.abs t <= 2 ^ 50 ->
              exists v m,
                validate_allocation (PFloat team) (PFloat public)
                = Ok (v, PFloat (fsub (fsub lit_100 team) public), m) /\
                integral (fsub (fsub lit_100 team) public) (100 - t - p))
      as Hv.
    { intros team t It Bt.
      assert (integral (fsub (fsub lit_100 team) public) (100 - t - p)) as Il.
      { apply fsub_integral; [|exact Ip|lia].
        apply fsub_integral; [exact lit_100_integral|exact It|lia]. }
      rewrite (validate_allocation_outcome (PFloat team) (PFloat public) _ _
                 (lp_of_floats team public)
                 (mul_float_float lit_0_2 public)).
      unfold outcome.
      destruct (lt (PFloat (fsub (fsub lit_100 team) public)) (PFloat lit_0_1));
        [|destruct (gt (PFloat public) (PFloat lit_0_1) && _)];
        do 2 eexists; (split; [reflexivity|exact Il]). }
    destruct (Hv team1 t1 I1 B1) as (v1 & m1 & H1 & L1).
    destruct (Hv team2 t2 I2 B2) as (v2 & m2 & H2 & L2).
    exists v1, (fsub (fsub lit_100 team1) public), m1,
           v2, (fsub (fsub lit_100 team2) public), m2.
    repeat split; try assumption; try apply L1; try apply L2.
    rewrite (lt_integral _ _ _ _ I1 I2) in Hlt. apply Z.ltb_lt in Hlt.
    rewrite (lt_integral _ _ _ _ L2 L1). apply Z.ltb_lt. lia.
Qed.

Lemma lp_percent_strictly_antitone_on_integers_witness :
  10 < 16 /\ fits_double (PInt 70) = true /\
  exists v1 lp1 m1 v2 lp2 m2,
    validate_allocation (PInt 10) (PInt 70) = Ok (v1, PInt lp1, m1) /\
    validate_allocation (PInt 16) (PInt 70) = Ok (v2, PInt lp2, m2) /\
    lp1 = 100 - 10 - 70 /\
    lp2 = 100 - 16 - 70 /\
    lp2 < lp1 /\
    lt (PInt lp2) (PInt lp1) = true.
Proof.
  split; [lia|]. split; [vm_compute; reflexivity|].
  apply (proj1 lp_percent_strictly_antitone_on_integers 70 10 16);
    [lia | vm_compute; reflexivity].
Defined.

(* ================================================================== *)
(** * The Tk state machine: invariants of every run *)
(* ================================================================== *)

Lemma derived_float_total x y f :
  exists r, derived (PFloat x) (PFloat y) (PFloat f) = Ok r.
Proof.
  unfold derived. rewrite lp_of_floats. cbn [bind].
  apply calculations_float_total.
Qed.

Lemma update_calculations_current g :
  display_current (Gui.update_calculations g).
Proof.
  unfold display_current.
  destruct (update_calculations_vars g) as (H1 & H2 & H3 & _).
  rewrite H1, H2, H3.
  destruct (derived_float_total (Gui.team_var g) (Gui.public_var g)
              (Gui.funds_var g)) as [r E].
  exists r. split; [|exact E].
  unfold Gui.update_calculations. unfold derived in E. rewrite E. reflexivity.
Qed.

Lemma rejected_team g v :
  Gui.team_var g = Gui.prev_team g ->
  Gui.is_valid v (Gui.public_var g) = Ok false ->
  Gui.handle g (Gui.SetTeam v) = Ok g.
Proof.
  intros S H. cbn [Gui.handle]. unfold Gui.validate_and_update.
  cbn [Gui.team_var Gui.public_var]. rewrite H. cbn [bind negb].
  destruct g; cbn in *. now subst.
Qed.

Lemma rejected_public g v :
  Gui.public_var g = Gui.prev_public g ->
  Gui.is_valid (Gui.team_var g) v = Ok false ->
  Gui.handle g (Gui.SetPublic v) = Ok g.
Proof.
  intros S H. cbn [Gui.handle]. unfold Gui.validate_and_update.
  cbn [Gui.team_var Gui.public_var]. rewrite H. cbn [bind negb].
  destruct g; cbn in *. now subst.
Qed.

Lemma accepted_team g v :
  Gui.is_valid v (Gui.public_var g) = Ok true ->
  Gui.handle g (Gui.SetTeam v)
  = Ok (Gui.update_calculations
          {| Gui.team_var := v; Gui.funds_var := Gui.funds_var g;
             Gui.public_var := Gui.public_var g; Gui.prev_team := v;
             Gui.prev_public := Gui.public_var g; Gui.shown := Gui.shown g |}).
Proof.
  intros H. cbn [Gui.handle]. unfold Gui.validate_and_update.
  cbn [Gui.team_var Gui.public_var]. rewrite H. reflexivity.
Qed.

Lemma accepted_public g v :
  Gui.is_valid (Gui.team_var g) v = Ok true ->
  Gui.handle g (Gui.SetPublic v)
  = Ok (Gui.update_calculations
          {| Gui.team_var := Gui.team_var g; Gui.funds_var := Gui.funds_var g;
             Gui.public_var := v; Gui.prev_team := Gui.team_var g;
             Gui.prev_public := v; Gui.shown := Gui.shown g |}).
Proof.
  intros H. cbn [Gui.handle]. unfold Gui.validate_and_update.
  cbn [Gui.team_var Gui.public_var]. rewrite H. reflexivity.
Qed.

Ltac in_sync_after_update :=
  match goal with |- context [Gui.update_calculations ?s] =>
    let H1 := fresh in let H2 := fresh in let H4 := fresh in
    let H5 := fresh in
    destruct (update_calculations_vars s) as (H1 & H2 & _ & H4 & H5);
    unfold in_sync; rewrite H1, H2, H4, H5; cbn; auto
  end.

(** One event keeps the display current. *)
Lemma handle_display_current g ev :
  in_sync g -> display_current g ->
  exists g', Gui.handle g ev = Ok g' /\ in_sync g' /\ display_current g'.
Proof.
  intros S D. pose proof S as [St Sp]. destruct ev as [v|v|v].
  - destruct (is_valid_total v (Gui.public_var g)) as [[|] E].
    + rewrite (accepted_team _ _ E). eexists. split; [reflexivity|].
      split; [in_sync_after_update|apply update_calculations_current].
    + rewrite (rejected_team _ _ St E). eauto.
  - cbn [Gui.handle]. eexists. split; [reflexivity|].
    split; [in_sync_after_update|apply update_calculations_current].
  - destruct (is_valid_total (Gui.team_var g) v) as [[|] E].
    + rewrite (accepted_public _ _ E). eexists. split; [reflexivity|].
      split; [in_sync_after_update|apply update_calculations_current].
    + rewrite (rejected_public _ _ Sp E). eauto.
Qed.

(** An invariant of [handle] that holds at the start holds after any
    sequence of events, none of which raises. *)
Lemma run_invariant (I : Gui.state -> Prop) :
  (forall g ev, I g -> exists g', Gui.handle g ev = Ok g' /\ I g') ->
  forall evs g, I g -> exists g', Gui.run g evs = Ok g' /\ I g'.
Proof.
  intros Step evs. induction evs as [|ev evs IH]; intros g Ig.
  - exists g. split; [reflexivity|exact Ig].
  - destruct (Step g ev Ig) as (g1 & E & I1). cbn [Gui.run]. rewrite E.
    cbn [bind]. exact (IH g1 I1).
Qed.

Lemma init_display_current : display_current Gui.init.
Proof. apply update_calculations_current. Qed.

Lemma init_initial_pair : initial_pair Gui.init.
Proof. split; reflexivity. Qed.

(** X1: after any sequence of slider events, each handled without an
    exception, the variables show the committed pair, and the committed
    pair either passes the three checks or is still the pair (10, 70) the
    window was built with. *)
Theorem committed_pair_invariant (evs : list Gui.event) :
  exists g,
    Gui.run Gui.init evs = Ok g /\
    in_sync g /\
    (committed_valid g \/ initial_pair g).
Proof.
  apply (run_invariant
           (fun g => in_sync g /\ (committed_valid g \/ initial_pair g))).
  - intros g ev [S P].
    destruct (handle_commits_only_valid g ev S) as (g' & E & S' & [V|[E1 E2]]).
    + exists g'. auto.
    + exists g'. split; [exact E|]. split; [exact S'|].
      destruct P as [V|[I1 I2]].
      * left. unfold committed_valid in *. now rewrite E1, E2.
      * right. unfold initial_pair. now rewrite E1, E2.
  - split; [exact init_in_sync|right; exact init_initial_pair].
Qed.

(** X2: after any sequence of slider events the numbers on display are
    the ones derived from the current values of the three variables: a
    rejected move leaves nothing stale behind. *)
Theorem display_never_stale (evs : list Gui.event) :
  exists g, Gui.run Gui.init evs = Ok g /\ display_current g.
Proof.
  destruct (run_invariant (fun g => in_sync g /\ display_current g))
    with (evs := evs) (g := Gui.init) as (g & E & _ & D).
  - intros g ev [S D]. destruct (handle_display_current g ev S D)
      as (g' & E & S' & D'). eauto.
  - split; [exact init_in_sync|exact init_display_current].
  - eauto.
Qed.

(** X3: a rejected move changes nothing: when the variables show the
    committed pair and the candidate pair fails the checks, the state after
    the event is the state before it, display included. *)
Theorem rejected_move_restores_state (g : Gui.state) (v : float) :
  in_sync g ->
  (Gui.is_valid v (Gui.public_var g) = Ok false ->
   Gui.handle g (Gui.SetTeam v) = Ok g) /\
  (Gui.is_valid (Gui.team_var g) v = Ok false ->
   Gui.handle g (Gui.SetPublic v) = Ok g).
Proof.
  intros [St Sp].
  split; [apply rejected_team|apply rejected_public]; assumption.
Qed.

Lemma rejected_move_restores_state_witness :
  in_sync Gui.init /\
  Gui.is_valid lit_15 (Gui.public_var Gui.init) = Ok false /\
  Gui.handle Gui.init (Gui.SetTeam lit_15) = Ok Gui.init.
Proof.
  split; [exact init_in_sync|]. split; [vm_compute; reflexivity|].
  apply (proj1 (rejected_move_restores_state Gui.init lit_15 init_in_sync)).
  vm_compute. reflexivity.
Defined.

(* ================================================================== *)
(** * The slider positions, one by one *)
(* ================================================================== *)

Lemma float_eqb_eq x y : float_eqb x y = true -> x = y.
Proof.
  destruct x as [s|s| |s m e], y as [s'|s'| |s' m' e']; cbn; try discriminate.
  - intros H. now rewrite (Bool.eqb_prop _ _ H).
  - intros H. now rewrite (Bool.eqb_prop _ _ H).
  - reflexivity.
  - intros H. apply andb_prop in H as [H He]. apply andb_prop in H as [Hs Hm].
    apply Bool.eqb_prop in Hs. apply Pos.eqb_eq in Hm. apply Z.eqb_eq in He.
    now subst.
Qed.

Lemma num_eqb_eq a b : num_eqb a b = true -> a = b.
Proof.
  destruct a as [x|x], b as [y|y]; cbn; try discriminate.
  - intros H. apply Z.eqb_eq in H. now subst.
  - intros H. now rewrite (float_eqb_eq _ _ H).
Qed.

Lemma lp_display_eqb_eq a b : lp_display_eqb a b = true -> a = b.
Proof.
  unfold lp_display_eqb. destruct a, b. cbn. intros H.
  repeat (apply andb_prop in H; destruct H as [H ?]).
  repeat match goal with
         | E : num_eqb _ _ = true |- _ => apply num_eqb_eq in E
         | E : String.eqb _ _ = true |- _ => apply String.eqb_eq in E
         end.
  now subst.
Qed.

Ltac eqb_to_eq :=
  repeat match goal with
         | E : _ && _ = true |- _ => apply andb_prop in E; destruct E
         | E : Bool.eqb _ _ = true |- _ => apply Bool.eqb_prop in E
         | E : num_eqb _ _ = true |- _ => apply num_eqb_eq in E
         | E : float_eqb _ _ = true |- _ => apply float_eqb_eq in E
         | E : String.eqb _ _ = true |- _ => apply String.eqb_eq in E
         end.

Lemma on_range (P : Z -> bool) a n :
  forallb P (range a n) = true ->
  forall z, a <= z < a + Z.of_nat n -> P z = true.
Proof.
  intros H z Hz. rewrite forallb_forall in H. apply H. now apply in_range.
Qed.

Lemma on_sliders (P : Z -> Z -> bool) :
  forallb (fun t => forallb (P t) (range 0 101)) (range 0 31) = true ->
  forall t p, 0 <= t <= 30 -> 0 <= p <= 100 -> P t p = true.
Proof.
  intros H t p Ht Hp.
  apply (on_range (P t) 0 101); [|lia].
  apply (on_range (fun t => forallb (P t) (range 0 101)) 0 31 H). lia.
Qed.

Lemma exact_at_sliders :
  forallb (fun t => forallb (exact_at t) (range 0 101)) (range 0 31) = true.
Proof. vm_compute. reflexivity. Qed.

Lemma percent_agrees_sliders :
  forallb percent_agrees (range (-30) 131) = true.
Proof. vm_compute. reflexivity. Qed.

Lemma percent_text_at_sliders :
  forallb percent_text_at (range (-30) 131) = true.
Proof. vm_compute. reflexivity. Qed.

Lemma progress_in_range_sliders :
  forallb progress_in_range (range 1 100) = true.
Proof. vm_compute. reflexivity. Qed.

Lemma lp_agrees_sliders :
  forallb (fun t => forallb (lp_agrees t) (range 0 101)) (range 0 31) = true.
Proof. vm_compute. reflexivity. Qed.

Lemma lp_display_at_sliders :
  forallb (fun t => forallb (lp_display_at t) (range 0 101)) (range 0 31)
  = true.
Proof. vm_compute. reflexivity. Qed.

Lemma split_exact_sliders : forallb split_exact (range 1 200) = true.
Proof. vm_compute. reflexivity. Qed.

Lemma funds_text_agrees_sliders :
  forallb funds_text_agrees (range 1 200) = true.
Proof. vm_compute. reflexivity. Qed.

Lemma funds_label_at_sliders : forallb funds_label_at (range 1 200) = true.
Proof. vm_compute. reflexivity. Qed.

(** ** What the checks give *)

Lemma float_of_int_small n :
  -30 <= n <= 100 -> exists x, float_of_int n = Ok x.
Proof.
  intros Hn.
  pose proof (on_range _ _ _ percent_agrees_sliders n ltac:(lia)) as H.
  unfold percent_agrees in H.
  destruct (float_of_int n) as [x|]; [eauto|discriminate H].
Qed.

Lemma float_of_int_funds k :
  1 <= k <= 200 -> exists z, float_of_int (10000 * k) = Ok z.
Proof.
  intros Hk.
  pose proof (on_range _ _ _ split_exact_sliders k ltac:(lia)) as H.
  unfold split_exact in H. cbv zeta in H.
  destruct (float_of_int (10000 * k)) as [z|]; [eauto|discriminate H].
Qed.

Lemma percent_int_float n x :
  -30 <= n <= 100 -> float_of_int n = Ok x ->
  truediv (PInt n) (PInt 100) = truediv (PFloat x) (PInt 100).
Proof.
  intros Hn Hx.
  pose proof (on_range _ _ _ percent_agrees_sliders n ltac:(lia)) as H.
  unfold percent_agrees in H. rewrite Hx in H.
  destruct (truediv (PInt n) (PInt 100)) as [a|]; [|discriminate H].
  destruct (truediv (PFloat x) (PInt 100)) as [b|]; [|discriminate H].
  now rewrite (num_eqb_eq _ _ H).
Qed.

Lemma format_num_1f_small n :
  -30 <= n <= 100 -> format_num_1f (PInt n) = Ok (int_1f n).
Proof.
  intros Hn.
  pose proof (on_range _ _ _ percent_text_at_sliders n ltac:(lia)) as H.
  unfold percent_text_at in H.
  destruct (format_num_1f (PInt n)) as [s|]; [|discriminate H].
  apply String.eqb_eq in H. now subst.
Qed.

Lemma format_num_1f_int_float n x :
  float_of_int n = Ok x -> format_num_1f (PInt n) = format_num_1f (PFloat x).
Proof. intros H. cbn [format_num_1f]. now rewrite H. Qed.

Lemma progress_sliders lp :
  1 <= lp <= 100 ->
  exists q, truediv (PInt lp) (PInt 100) = Ok q /\
            ge q (PInt 0) = true /\ ge (PInt 1) q = true.
Proof.
  intros H.
  pose proof (on_range _ _ _ progress_in_range_sliders lp ltac:(lia)) as P.
  unfold progress_in_range in P.
  destruct (truediv _ _) as [q|]; [|discriminate P].
  apply andb_prop in P as [P1 P2]. eauto.
Qed.

Lemma lp_int_float t p x y l :
  0 <= t <= 30 -> 0 <= p <= 100 ->
  float_of_int t = Ok x -> float_of_int p = Ok y ->
  float_of_int (100 - t - p) = Ok l ->
  fsub (fsub lit_100 x) y = l.
Proof.
  intros Ht Hp Hx Hy Hl.
  pose proof (on_sliders _ lp_agrees_sliders t p Ht Hp) as H.
  unfold lp_agrees in H. rewrite Hx, Hy, Hl in H. now apply float_eqb_eq.
Qed.

Lemma funds_text_int_float k z :
  1 <= k <= 200 -> float_of_int (10000 * k) = Ok z ->
  format_number (PInt (10000 * k)) = format_number (PFloat z).
Proof.
  intros Hk Hz.
  pose proof (on_range _ _ _ funds_text_agrees_sliders k ltac:(lia)) as H.
  unfold funds_text_agrees in H. cbv zeta in H. rewrite Hz in H.
  destruct (format_number (PInt _)) as [s|]; [|discriminate H].
  destruct (format_number (PFloat z)) as [s'|]; [|discriminate H].
  now rewrite (proj1 (String.eqb_eq _ _) H).
Qed.

Lemma lp_display_sliders t p y l :
  0 <= t <= 30 -> 0 <= p <= 100 ->
  float_of_int p = Ok y -> float_of_int (100 - t - p) = Ok l ->
  Tk.lp_display (PFloat l) (PFloat y)
  = Ok (exact_lp_display (100 - t - p) p l).
Proof.
  intros Ht Hp Hy Hl.
  pose proof (on_sliders _ lp_display_at_sliders t p Ht Hp) as H.
  unfold lp_display_at in H. cbv zeta in H. rewrite Hy, Hl in H.
  destruct (Tk.lp_display _ _) as [d|]; [|discriminate H].
  now rewrite (lp_display_eqb_eq _ _ H).
Qed.

(** What the validators return at a slider position. *)
Lemma validate_allocation_sliders t p :
  0 <= t <= 30 -> 0 <= p <= 100 ->
  exists x y l,
    float_of_int t = Ok x /\ float_of_int p = Ok y /\
    float_of_int (100 - t - p) = Ok l /\
    validate_allocation (PInt t) (PInt p)
    = Ok (is_none (exact_reason t p), PInt (100 - t - p),
          message (exact_reason t p)) /\
    validate_allocation (PFloat x) (PFloat y)
    = Ok (is_none (exact_reason t p), PFloat l,
          message (exact_reason t p)) /\
    Gui.is_valid x y = Ok (is_none (exact_reason t p)).
Proof.
  intros Ht Hp. pose proof (on_sliders _ exact_at_sliders t p Ht Hp) as H.
  unfold exact_at in H. cbv zeta in H.
  destruct (float_of_int t) as [x|]; [|discriminate H].
  destruct (float_of_int p) as [y|]; [|discriminate H].
  destruct (float_of_int (100 - t - p)) as [l|]; [|discriminate H].
  destruct (validate_allocation (PInt t) (PInt p)) as [[[b1 lp1] msg1]|];
    [|discriminate H].
  destruct (validate_allocation (PFloat x) (PFloat y))
    as [[[b2 lp2] msg2]|] eqn:E2; [|discriminate H].
  destruct (Gui.is_valid x y) as [b3|] eqn:E3; [|discriminate H].
  eqb_to_eq. exists x, y, l. subst. rewrite E2, E3. auto 10.
Qed.

Lemma exact_reason_None t p :
  exact_reason t p = None ->
  1 <= 100 - t - p /\ (p <= 0 \/ 5 * (100 - t - p) <= p).
Proof.
  unfold exact_reason. cbv zeta.
  destruct (100 - t - p <? 1) eqn:A; [discriminate|].
  destruct (1 <=? p) eqn:B; cbn [andb]; [|lia].
  destruct (p <? 5 * (100 - t - p)) eqn:C; [discriminate|]. lia.
Qed.

(* ================================================================== *)
(** * The validator on the sliders *)
(* ================================================================== *)

(** X4: at every slider position the validator, on the ints of the
    Streamlit sliders and on the floats of the Tk scales, and the three
    checks of the Tk window decide as the two rules do in exact integer
    arithmetic (the LP share is at least 1; when anything is sold, five
    times the LP share is at most the public share), with the message of
    the rule that fails and the exact LP share. *)
Theorem validate_allocation_exact_on_sliders (t p : Z) :
  0 <= t <= 30 -> 0 <= p <= 100 ->
  exists x y l,
    float_of_int t = Ok x /\ float_of_int p = Ok y /\
    float_of_int (100 - t - p) = Ok l /\
    validate_allocation (PInt t) (PInt p)
    = Ok (is_none (exact_reason t p), PInt (100 - t - p),
          message (exact_reason t p)) /\
    validate_allocation (PFloat x) (PFloat y)
    = Ok (is_none (exact_reason t p), PFloat l,
          message (exact_reason t p)) /\
    Gui.is_valid x y = Ok (is_none (exact_reason t p)).
Proof. exact (validate_allocation_sliders t p). Qed.

Lemma validate_allocation_exact_on_sliders_witness :
  0 <= 16 <= 30 /\ 0 <= 70 <= 100 /\
  exists x y l,
    float_of_int 16 = Ok x /\ float_of_int 70 = Ok y /\
    float_of_int (100 - 16 - 70) = Ok l /\
    validate_allocation (PInt 16) (PInt 70)
    = Ok (is_none (exact_reason 16 70), PInt (100 - 16 - 70),
          message (exact_reason 16 70)) /\
    validate_allocation (PFloat x) (PFloat y)
    = Ok (is_none (exact_reason 16 70), PFloat l,
          message (exact_reason 16 70)) /\
    Gui.is_valid x y = Ok (is_none (exact_reason 16 70)).
Proof.
  split; [lia|]. split; [lia|].
  apply (validate_allocation_exact_on_sliders 16 70); lia.
Defined.

(** X5: the accepted slider positions: the validator accepts only when
    nothing is sold (and the LP share is then 70 or more), or when the
    public share is between 59 and 99 and the LP share between 1 and 16;
    no position with a public share from 1 to 58 is accepted. *)
Theorem accepted_region (t p : Z) (lp : num) (msg : string) :
  0 <= t <= 30 -> 0 <= p <= 100 ->
  validate_allocation (PInt t) (PInt p) = Ok (true, lp, msg) ->
  lp = PInt (100 - t - p) /\
  ((p = 0 /\ 70 <= 100 - t - p <= 100) \/
   (59 <= p <= 99 /\ 1 <= 100 - t - p <= 16 /\ 5 * (100 - t - p) <= p)).
Proof.
  intros Ht Hp H.
  destruct (validate_allocation_sliders t p Ht Hp)
    as (_ & _ & _ & _ & _ & _ & Hv & _).
  rewrite Hv in H. injection H as Hb <- _.
  destruct (exact_reason t p) eqn:R; [discriminate Hb|].
  apply exact_reason_None in R. split; [reflexivity|]. lia.
Qed.

Lemma accepted_region_witness :
  0 <= 16 <= 30 /\ 0 <= 70 <= 100 /\
  validate_allocation (PInt 16) (PInt 70) = Ok (true, PInt 14, "") /\
  PInt 14 = PInt (100 - 16 - 70) /\
  ((70 = 0 /\ 70 <= 100 - 16 - 70 <= 100) \/
   (59 <= 70 <= 99 /\ 1 <= 100 - 16 - 70 <= 16 /\ 5 * (100 - 16 - 70) <= 70)).
Proof.
  split; [lia|]. split; [lia|]. split; [vm_compute; reflexivity|].
  apply (accepted_region 16 70 (PInt 14) ""); [lia|lia|].
  vm_compute. reflexivity.
Defined.

(* ================================================================== *)
(** * The derivation in the two front ends *)
(* ================================================================== *)

(** The funds enter the derivation through products with a float and a
    division by a float, which convert an int first. *)
Lemma calculations_int_funds f z x y l :
  float_of_int f = Ok z ->
  calculations (PFloat x) (PFloat y) (PInt f) (PFloat l)
  = calculations (PFloat x) (PFloat y) (PFloat z) (PFloat l).
Proof.
  intros Hf. unfold calculations.
  rewrite !truediv_float_100. cbn [bind].
  rewrite !mul_supply_float. cbn [bind].
  unfold LP_FUND_PERCENT.
  replace (mul (PInt f) (PFloat lit_0_2)) with (mul (PFloat z) (PFloat lit_0_2))
    by (unfold mul, arith; now rewrite Hf).
  rewrite mul_float_float. cbn [bind].
  change (sub (PInt 1) (PFloat lit_0_2)) with (sub (PInt 1) LP_FUND_PERCENT).
  rewrite rest_of_funds. cbn [bind].
  replace (mul (PInt f) (PFloat lit_0_8)) with (mul (PFloat z) (PFloat lit_0_8))
    by (unfold mul, arith; now rewrite Hf).
  replace (guarded_div (PFloat (fmul lit_1e10 (fdiv y lit_100))) (PInt f)
             (PFloat (fmul lit_1e10 (fdiv y lit_100))))
    with (guarded_div (PFloat (fmul lit_1e10 (fdiv y lit_100))) (PFloat z)
            (PFloat (fmul lit_1e10 (fdiv y lit_100))))
    by (unfold guarded_div, truediv; now rewrite Hf).
  reflexivity.
Qed.

(** The percentages enter it through their division by 100 only. *)
Lemma calculations_int_percent t p lp x y l F :
  truediv (PInt t) (PInt 100) = truediv (PFloat x) (PInt 100) ->
  truediv (PInt p) (PInt 100) = truediv (PFloat y) (PInt 100) ->
  truediv (PInt lp) (PInt 100) = truediv (PFloat l) (PInt 100) ->
  calculations (PInt t) (PInt p) F (PInt lp)
  = calculations (PFloat x) (PFloat y) F (PFloat l).
Proof. intros Ht Hp Hl. unfold calculations. now rewrite Ht, Hp, Hl. Qed.

Lemma calculations_int_float t p f x y z l :
  0 <= t <= 30 -> 0 <= p <= 100 ->
  float_of_int t = Ok x -> float_of_int p = Ok y -> float_of_int f = Ok z ->
  float_of_int (100 - t - p) = Ok l ->
  calculations (PInt t) (PInt p) (PInt f) (PInt (100 - t - p))
  = calculations (PFloat x) (PFloat y) (PFloat z) (PFloat l).
Proof.
  intros Ht Hp Hx Hy Hz Hl.
  rewrite (calculations_int_percent t p (100 - t - p) x y l)
    by (apply percent_int_float; [lia|assumption]).
  now apply calculations_int_funds.
Qed.

Lemma derived_int_float t p f x y z :
  0 <= t <= 30 -> 0 <= p <= 100 ->
  float_of_int t = Ok x -> float_of_int p = Ok y -> float_of_int f = Ok z ->
  derived (PInt t) (PInt p) (PInt f) = derived (PFloat x) (PFloat y) (PFloat z).
Proof.
  intros Ht Hp Hx Hy Hz.
  destruct (float_of_int_small (100 - t - p) ltac:(lia)) as [l Hl].
  unfold derived. rewrite lp_of_floats.
  rewrite (lp_int_float t p x y l Ht Hp Hx Hy Hl).
  change (lp_of (PInt t) (PInt p)) with (Ok (A := num) (PInt (100 - t - p))).
  cbn [bind]. now apply calculations_int_float.
Qed.

Lemma validate_allocation_lp t p b lp msg :
  validate_allocation t p = Ok (b, lp, msg) -> lp_of t p = Ok lp.
Proof.
  unfold validate_allocation. destruct (lp_of t p) as [l|]; [|discriminate].
  cbn [bind]. destruct (lt _ _); [congruence|].
  destruct (and_then _ _) as [[|]|]; cbn [bind]; congruence.
Qed.

Lemma app_valid t p f lp msg :
  validate_allocation t p = Ok (true, lp, msg) ->
  app t f p = (r <- derived t p f ;; Ok (Some r)).
Proof.
  intros H. unfold app, derived.
  rewrite (validate_allocation_lp _ _ _ _ _ H), H. reflexivity.
Qed.

(** X6: at every slider position of the percentages, and for any funds
    that fit a double, the derivation on the ints of the Streamlit sliders
    and the derivation on the floats of the Tk variables return, and return
    the same ten numbers: what [app.py] computes after a valid allocation is
    what [update_calculations] puts on display. *)
Theorem front_ends_derive_same (t p f : Z) (x y z : float) :
  0 <= t <= 30 -> 0 <= p <= 100 ->
  float_of_int t = Ok x -> float_of_int p = Ok y -> float_of_int f = Ok z ->
  exists r,
    derived (PInt t) (PInt p) (PInt f) = Ok r /\
    derived (PFloat x) (PFloat y) (PFloat z) = Ok r /\
    (forall lp msg,
        validate_allocation (PInt t) (PInt p) = Ok (true, lp, msg) ->
        app (PInt t) (PInt f) (PInt p) = Ok (Some r)) /\
    (forall g,
        Gui.team_var g = x -> Gui.public_var g = y -> Gui.funds_var g = z ->
        Gui.shown (Gui.update_calculations g) = Some r).
Proof.
  intros Ht Hp Hx Hy Hz.
  pose proof (derived_int_float t p f x y z Ht Hp Hx Hy Hz) as E.
  destruct (derived_float_total x y z) as [r Er].
  exists r. rewrite E. split; [exact Er|]. split; [exact Er|]. split.
  - intros lp msg Hv. rewrite (app_valid _ _ _ _ _ Hv), E, Er. reflexivity.
  - intros g <- <- <-. unfold Gui.update_calculations.
    unfold derived in Er. rewrite Er. reflexivity.
Qed.

Lemma front_ends_derive_same_witness :
  0 <= 16 <= 30 /\ 0 <= 70 <= 100 /\
  float_of_int 16 = Ok lit_16 /\ float_of_int 70 = Ok Gui.lit_70 /\
  float_of_int 10000 = Ok lit_10000 /\
  exists r,
    derived (PInt 16) (PInt 70) (PInt 10000) = Ok r /\
    derived (PFloat lit_16) (PFloat Gui.lit_70) (PFloat lit_10000) = Ok r /\
    (forall lp msg,
        validate_allocation (PInt 16) (PInt 70) = Ok (true, lp, msg) ->
        app (PInt 16) (PInt 10000) (PInt 70) = Ok (Some r)) /\
    (forall g,
        Gui.team_var g = lit_16 -> Gui.public_var g = Gui.lit_70 ->
        Gui.funds_var g = lit_10000 ->
        Gui.shown (Gui.update_calculations g) = Some r).
Proof.
  split; [lia|]. split; [lia|].
  split; [vm_compute; reflexivity|]. split; [vm_compute; reflexivity|].
  split; [vm_compute; reflexivity|].
  apply (front_ends_derive_same 16 70 10000 lit_16 Gui.lit_70 lit_10000);
    try lia; vm_compute; reflexivity.
Defined.

(** ** The split of the funds *)

(** X7: at each of the 200 positions of the funds slider, int or float,
    the LP funds and the team funds of the derivation add up to the funds
    again, exactly (Python's [==]): the 20%/80% split loses nothing to
    rounding. *)
Theorem funds_split_exact (k : Z) (z : float) (funds t p lp : num)
    (r : Calculations) :
  1 <= k <= 200 ->
  float_of_int (10000 * k) = Ok z ->
  funds = PInt (10000 * k) \/ funds = PFloat z ->
  calculations t p funds lp = Ok r ->
  exists s,
    add (lp_funds r) (team_funds r) = Ok s /\ eq s funds = true.
Proof.
  intros Hk Hz Hf H.
  destruct (calculations_Ok _ _ _ _ _ H)
    as (a & b & c & rest & _ & _ & _ & _ & _ & _ & Hl & Hr & Ht & _).
  rewrite rest_of_funds in Hr. injection Hr as <-.
  pose proof (on_range _ _ _ split_exact_sliders k ltac:(lia)) as S.
  unfold split_exact in S. cbv zeta in S. rewrite Hz in S.
  assert (lp_funds r = PFloat (fmul z lit_0_2) /\
          team_funds r = PFloat (fmul z lit_0_8)) as [-> ->].
  { destruct Hf as [-> | ->]; unfold LP_FUND_PERCENT, mul, arith in Hl, Ht.
    - rewrite Hz in Hl, Ht. cbn [bind] in Hl, Ht. split; congruence.
    - split; congruence. }
  destruct (add _ _) as [s|]; [|discriminate S].
  apply andb_prop in S as [S1 S2].
  exists s. split; [reflexivity|]. destruct Hf as [-> | ->]; assumption.
Qed.

Lemma funds_split_exact_witness :
  1 <= 1 <= 200 /\
  float_of_int (10000 * 1) = Ok lit_10000 /\
  exists r s,
    calculations (PInt 16) (PInt 70) (PInt (10000 * 1)) (PInt 14) = Ok r /\
    add (lp_funds r) (team_funds r) = Ok s /\
    eq s (PInt (10000 * 1)) = true.
Proof.
  split; [lia|]. split; [vm_compute; reflexivity|].
  destruct (calculations_float_total lit_16 Gui.lit_70 lit_10000 lit_14)
    as [r E].
  assert (calculations (PInt 16) (PInt 70) (PInt (10000 * 1)) (PInt 14) = Ok r)
    as E'.
  { rewrite <- E.
    apply (calculations_int_float 16 70 (10000 * 1) lit_16 Gui.lit_70
             lit_10000 lit_14); try lia; vm_compute; reflexivity. }
  exists r.
  destruct (funds_split_exact 1 lit_10000 (PInt (10000 * 1)) (PInt 16)
              (PInt 70) (PInt 14) r) as (s & Hs & He);
    [lia|vm_compute; reflexivity|left; reflexivity|exact E'|].
  exists s. auto.
Defined.

(* ================================================================== *)
(** * What is shown *)
(* ================================================================== *)

(** On floats the derivation returns floats, or the int 0 of a guard. *)
Lemma calculations_float_fields x y f l r :
  calculations (PFloat x) (PFloat y) (PFloat f) (PFloat l) = Ok r ->
  float_or_zero (team_tokens r) /\ float_or_zero (public_tokens r) /\
  float_or_zero (lp_tokens r) /\ float_or_zero (lp_funds r) /\
  float_or_zero (team_funds r) /\ float_or_zero (fdv_ico r) /\
  float_or_zero (fdv_lp r) /\ float_or_zero (fdv_multiple r).
Proof.
  intros H.
  destruct (calculations_Ok _ _ _ _ _ H)
    as (a & b & c & rest & Ha & Htt & Hb & Hpt & Hc & Hlt & Hlf & Hr & Htf
        & Hip & Hlpp & Hfi & Hfl & Hm).
  rewrite truediv_float_100 in Ha, Hb, Hc.
  injection Ha as <-. injection Hb as <-. injection Hc as <-.
  rewrite mul_supply_float in Htt, Hpt, Hlt.
  rewrite rest_of_funds in Hr. injection Hr as <-.
  unfold LP_FUND_PERCENT in Hlf. rewrite mul_float_float in Hlf, Htf.
  pose proof (guarded_div_Ok_shape _ _ _ Hip) as Sip.
  pose proof (guarded_div_Ok_shape _ _ _ Hlpp) as Slpp.
  pose proof (mul_supply_shape _ _ Sip Hfi) as Sfi.
  pose proof (mul_supply_shape _ _ Slpp Hfl) as Sfl.
  pose proof (guarded_div_Ok_shape _ _ _ Hm) as Sm.
  unfold float_or_zero.
  repeat split; try assumption; left; eexists; symmetry;
    match goal with E : Ok _ = Ok ?v |- _ = ?v => injection E as E; exact E end.
Qed.

Lemma format_number_total n :
  float_or_zero n -> exists s, format_number n = Ok s.
Proof.
  intros [[x ->]| ->]; [apply format_number_float_total|].
  exists "0.00". reflexivity.
Qed.

Lemma format_num_2f_plain_total n :
  float_or_zero n -> exists s, format_num_2f_plain n = Ok s.
Proof.
  intros [[x ->]| ->]; [cbn; eauto|]. exists "0.00". reflexivity.
Qed.

Lemma label_texts_total f r :
  float_or_zero (team_tokens r) -> float_or_zero (public_tokens r) ->
  float_or_zero (lp_tokens r) -> float_or_zero (lp_funds r) ->
  float_or_zero (team_funds r) -> float_or_zero (fdv_ico r) ->
  float_or_zero (fdv_lp r) -> float_or_zero (fdv_multiple r) ->
  exists ts,
    Tk.label_texts (PFloat f) r = Ok ts /\
    map fst ts = map fst (Tk.create_result_rows Tk.result_fields) /\
    Tk.write_labels ts (Tk.create_result_rows Tk.result_fields) = Some ts.
Proof.
  intros H1 H2 H3 H4 H5 H6 H7 H8. unfold Tk.label_texts.
  destruct (format_number_total _ H1) as [s1 ->].
  destruct (format_number_total _ H2) as [s2 ->].
  destruct (format_number_total _ H3) as [s3 ->].
  destruct (format_number_float_total f) as [s0 ->].
  destruct (format_number_total _ H4) as [s4 ->].
  destruct (format_number_total _ H5) as [s5 ->].
  destruct (format_number_total _ H6) as [s6 ->].
  destruct (format_number_total _ H7) as [s7 ->].
  destruct (format_num_2f_plain_total _ H8) as [s8 ->].
  cbn [bind]. eexists. split; [reflexivity|]. split; reflexivity.
Qed.

Lemma lp_display_float_total l y :
  exists d, Tk.lp_display (PFloat l) (PFloat y) = Ok d /\
            Tk.lp_bar d = Builtin.max (PInt 0) (PFloat l).
Proof.
  unfold Tk.lp_display.
  destruct (lt (PFloat l) (PFloat lit_1_0)); cbn [bind format_num_1f].
  - eauto.
  - destruct (gt (PFloat y) (PFloat lit_0_1)); cbn [bind].
    + rewrite mul_float_float. cbn [bind sub arith Builtin.abs].
      destruct (lt _ _); cbn [bind]; eauto.
    + eauto.
Qed.

(** X8: whatever doubles the three variables hold (NaN and the infinities
    included), [update_calculations] runs to its end: the derivation
    returns, the LP box and every label text are computed without an
    exception, every key it writes exists among the rows [__init__]
    created, and it writes all of them, in their order, so that no row
    keeps its placeholder. *)
Theorem update_calculations_completes (g : Gui.state) :
  exists r d ts,
    Gui.shown (Gui.update_calculations g) = Some r /\
    Tk.lp_display
      (PFloat (fsub (fsub lit_100 (Gui.team_var g)) (Gui.public_var g)))
      (PFloat (Gui.public_var g)) = Ok d /\
    Tk.label_texts (PFloat (Gui.funds_var g)) r = Ok ts /\
    map fst ts = map fst (Tk.create_result_rows Tk.result_fields) /\
    Tk.write_labels ts (Tk.create_result_rows Tk.result_fields) = Some ts.
Proof.
  destruct (derived_float_total (Gui.team_var g) (Gui.public_var g)
              (Gui.funds_var g)) as [r E].
  exists r. unfold derived in E.
  assert (Gui.shown (Gui.update_calculations g) = Some r) as S
    by (unfold Gui.update_calculations; now rewrite E).
  rewrite lp_of_floats in E. cbn [bind] in E.
  destruct (calculations_float_fields _ _ _ _ _ E)
    as (H1 & H2 & H3 & H4 & H5 & H6 & H7 & H8).
  destruct (label_texts_total (Gui.funds_var g) r H1 H2 H3 H4 H5 H6 H7 H8)
    as (ts & Hts & Hk & Hw).
  destruct (lp_display_float_total
              (fsub (fsub lit_100 (Gui.team_var g)) (Gui.public_var g))
              (Gui.public_var g)) as (d & Hd & _).
  exists d, ts. auto.
Qed.

(** ** The Streamlit page *)

Lemma metrics_total t p lp f x y z l r :
  -30 <= t <= 100 -> -30 <= p <= 100 -> -30 <= lp <= 100 ->
  (exists s, format_number (PInt f) = Ok s) ->
  calculations (PFloat x) (PFloat y) (PFloat z) (PFloat l) = Ok r ->
  exists ms,
    Streamlit.metrics (PInt t) (PInt p) (PInt lp) (PInt f) r = Ok ms /\
    List.length ms = 10%nat.
Proof.
  intros Ht Hp Hlp [s0 Hf] H.
  destruct (calculations_float_fields _ _ _ _ _ H)
    as (H1 & H2 & H3 & H4 & H5 & H6 & H7 & H8).
  unfold Streamlit.metrics.
  destruct (format_number_total _ H1) as [s1 ->].
  destruct (format_number_total _ H2) as [s2 ->].
  destruct (format_number_total _ H3) as [s3 ->].
  rewrite Hf.
  destruct (format_number_total _ H4) as [s4 ->].
  destruct (format_number_total _ H5) as [s5 ->].
  destruct (format_number_total _ H6) as [s6 ->].
  destruct (format_number_total _ H7) as [s7 ->].
  destruct (format_num_2f_plain_total _ H8) as [s8 ->].
  rewrite !format_num_1f_small by assumption.
  cbn [bind]. eexists. split; reflexivity.
Qed.

(** X9: at every position of the three Streamlit sliders the script runs
    to its end without an exception; the sidebar reports success exactly
    when the two exact rules hold; the value handed to [st.progress] lies
    between 0 and 1; and the page ends with the error of an invalid
    allocation, or else with the ten metrics. *)
Theorem page_renders_on_sliders (t p k : Z) :
  0 <= t <= 30 -> 0 <= p <= 100 -> 1 <= k <= 200 ->
  exists sb body,
    Streamlit.page (PInt t) (PInt (10000 * k)) (PInt p) = Ok (sb, body) /\
    Streamlit.success sb = is_none (exact_reason t p) /\
    ge (Streamlit.progress sb) (PInt 0) = true /\
    ge (PInt 1) (Streamlit.progress sb) = true /\
    match body with
    | inl e =>
        e = "⚠️ Invalid Allocation: " ++ message (exact_reason t p) /\
        exact_reason t p <> None
    | inr ms => List.length ms = 10%nat /\ exact_reason t p = None
    end.
Proof.
  intros Ht Hp Hk.
  destruct (validate_allocation_sliders t p Ht Hp)
    as (x & y & l & Hx & Hy & Hl & Hv & _ & _).
  destruct (float_of_int_funds k Hk) as [z Hz].
  unfold Streamlit.page. rewrite Hv. cbn [bind]. unfold Streamlit.sidebar.
  rewrite format_num_1f_small by lia. cbn [bind].
  destruct (exact_reason t p) eqn:R; cbn [is_none negb bind].
  - do 2 eexists. split; [reflexivity|].
    cbn [Streamlit.success Streamlit.progress].
    repeat split. discriminate.
  - pose proof (exact_reason_None _ _ R) as Hlp.
    destruct (progress_sliders (100 - t - p) ltac:(lia)) as (q & -> & Q1 & Q2).
    cbn [bind].
    rewrite (calculations_int_float t p (10000 * k) x y z l) by assumption.
    destruct (calculations_float_total x y z l) as [r Er]. rewrite Er.
    cbn [bind].
    destruct (metrics_total t p (100 - t - p) (10000 * k) x y z l r)
      as (ms & -> & Hms); try lia; try assumption.
    { rewrite (funds_text_int_float k z Hk Hz).
      apply format_number_float_total. }
    cbn [bind]. do 2 eexists. split; [reflexivity|].
    cbn [Streamlit.success Streamlit.progress]. auto.
Qed.

Lemma page_renders_on_sliders_witness :
  0 <= 16 <= 30 /\ 0 <= 70 <= 100 /\ 1 <= 1 <= 200 /\
  exists sb body,
    Streamlit.page (PInt 16) (PInt (10000 * 1)) (PInt 70) = Ok (sb, body) /\
    Streamlit.success sb = is_none (exact_reason 16 70) /\
    ge (Streamlit.progress sb) (PInt 0) = true /\
    ge (PInt 1) (Streamlit.progress sb) = true /\
    match body with
    | inl e =>
        e = "⚠️ Invalid Allocation: " ++ message (exact_reason 16 70) /\
        exact_reason 16 70 <> None
    | inr ms => List.length ms = 10%nat /\ exact_reason 16 70 = None
    end.
Proof.
  split; [lia|]. split; [lia|]. split; [lia|].
  apply (page_renders_on_sliders 16 70 1); lia.
Defined.

(** X10: whenever the page shows its metrics at a slider position, the Tk
    window whose variables hold the same three values writes the same ten
    values, row by row, to its result labels. *)
Theorem front_ends_show_same (t p k : Z) (x y z : float)
    (sb : Streamlit.Sidebar) (ms : list Streamlit.Metric) (g : Gui.state) :
  0 <= t <= 30 -> 0 <= p <= 100 -> 1 <= k <= 200 ->
  float_of_int t = Ok x -> float_of_int p = Ok y ->
  float_of_int (10000 * k) = Ok z ->
  Streamlit.page (PInt t) (PInt (10000 * k)) (PInt p) = Ok (sb, inr ms) ->
  Gui.team_var g = x -> Gui.public_var g = y -> Gui.funds_var g = z ->
  exists r ts,
    Gui.shown (Gui.update_calculations g) = Some r /\
    Tk.label_texts (PFloat z) r = Ok ts /\
    map Streamlit.metric_value ms = map snd ts.
Proof.
  intros Ht Hp Hk Hx Hy Hz H Gx Gy Gz.
  destruct (validate_allocation_sliders t p Ht Hp)
    as (x' & y' & l & Hx' & Hy' & Hl & Hv & _ & _).
  rewrite Hx in Hx'. rewrite Hy in Hy'.
  injection Hx' as <-. injection Hy' as <-.
  unfold Streamlit.page in H. rewrite Hv in H. cbn [bind] in H.
  destruct (Streamlit.sidebar _ _ _) as [sb'|]; [|discriminate H].
  cbn [bind] in H.
  destruct (negb _); [discriminate H|].
  rewrite (calculations_int_float t p (10000 * k) x y z l) in H by assumption.
  destruct (calculations (PFloat x) (PFloat y) (PFloat z) (PFloat l))
    as [r|] eqn:Er; [|discriminate H].
  cbn [bind] in H.
  assert (Gui.shown (Gui.update_calculations g) = Some r) as S.
  { unfold Gui.update_calculations. rewrite Gx, Gy, Gz, lp_of_floats.
    cbn [bind]. rewrite (lp_int_float t p x y l) by assumption.
    now rewrite Er. }
  exists r. unfold Streamlit.metrics in H. unfold Tk.label_texts.
  rewrite <- (funds_text_int_float k z Hk Hz).
  destruct (format_number (team_tokens r)); [|discriminate H].
  cbn [bind] in H |- *.
  destruct (format_num_1f (PInt t)); [|discriminate H]. cbn [bind] in H.
  destruct (format_number (public_tokens r)); [|discriminate H].
  cbn [bind] in H |- *.
  destruct (format_num_1f (PInt p)); [|discriminate H]. cbn [bind] in H.
  destruct (format_number (lp_tokens r)); [|discriminate H].
  cbn [bind] in H |- *.
  destruct (format_num_1f (PInt _)); [|discriminate H]. cbn [bind] in H.
  destruct (format_number (PInt _)); [|discriminate H].
  cbn [bind] in H |- *.
  destruct (format_number (lp_funds r)); [|discriminate H].
  cbn [bind] in H |- *.
  destruct (format_number (team_funds r)); [|discriminate H].
  cbn [bind] in H |- *.
  destruct (format_number (fdv_ico r)); [|discriminate H].
  cbn [bind] in H |- *.
  destruct (format_number (fdv_lp r)); [|discriminate H].
  cbn [bind] in H |- *.
  destruct (format_num_2f_plain (fdv_multiple r)); [|discriminate H].
  cbn [bind] in H |- *.
  injection H as _ <-. eexists. split; [exact S|]. split; reflexivity.
Qed.

Lemma front_ends_show_same_witness :
  exists sb ms r ts,
    Streamlit.page (PInt 16) (PInt (10000 * 1)) (PInt 70) = Ok (sb, inr ms) /\
    Gui.shown
      (Gui.update_calculations
         {| Gui.team_var := lit_16; Gui.funds_var := lit_10000;
            Gui.public_var := Gui.lit_70; Gui.prev_team := lit_16;
            Gui.prev_public := Gui.lit_70; Gui.shown := None |}) = Some r /\
    Tk.label_texts (PFloat lit_10000) r = Ok ts /\
    map Streamlit.metric_value ms = map snd ts.
Proof.
  let c := eval vm_compute in
    (Streamlit.page (PInt 16) (PInt (10000 * 1)) (PInt 70)) in
  match c with
  | Ok (?sb, inr ?ms) =>
      exists sb, ms;
      assert (Streamlit.page (PInt 16) (PInt (10000 * 1)) (PInt 70)
              = Ok (sb, inr ms)) as E by (vm_compute; reflexivity)
  end.
  match type of E with _ = Ok (?sb, inr ?ms) =>
    destruct (front_ends_show_same 16 70 1 lit_16 Gui.lit_70 lit_10000 sb ms
                {| Gui.team_var := lit_16; Gui.funds_var := lit_10000;
                   Gui.public_var := Gui.lit_70; Gui.prev_team := lit_16;
                   Gui.prev_public := Gui.lit_70; Gui.shown := None |})
      as (r & ts & H1 & H2 & H3);
      [lia|lia|lia|vm_compute; reflexivity|vm_compute; reflexivity
      |vm_compute; reflexivity|exact E|reflexivity|reflexivity|reflexivity|]
  end.
  exists r, ts. auto.
Defined.

(** ** The LP box of the Tk window *)

(** X11: at every slider position the LP box of the Tk window is the
    exact one: the share with one decimal; the "LP cannot be 0%" warning
    only below 1, which no accepted position is, so that warning never
    shows on an accepted position; the "LP FDV = ICO FDV" warning exactly
    when something is sold and five times the LP share is within 2 of the
    public share; and the bar at the share when it is positive, at 0
    otherwise. *)
Theorem lp_box_on_sliders (t p : Z) (x y : float) :
  0 <= t <= 30 -> 0 <= p <= 100 ->
  float_of_int t = Ok x -> float_of_int p = Ok y ->
  exists l,
    float_of_int (100 - t - p) = Ok l /\
    lp_of (PFloat x) (PFloat y) = Ok (PFloat l) /\
    Tk.lp_display (PFloat l) (PFloat y)
    = Ok (exact_lp_display (100 - t - p) p l) /\
    (Gui.is_valid x y = Ok true ->
     Tk.warning_label (exact_lp_display (100 - t - p) p l)
     <> Tk.warning_lp_minimum /\
     Tk.lp_bar (exact_lp_display (100 - t - p) p l) = PFloat l).
Proof.
  intros Ht Hp Hx Hy.
  destruct (validate_allocation_sliders t p Ht Hp)
    as (x' & y' & l & Hx' & Hy' & Hl & _ & _ & Hv).
  rewrite Hx in Hx'. rewrite Hy in Hy'.
  injection Hx' as <-. injection Hy' as <-.
  exists l. split; [exact Hl|]. split.
  - rewrite lp_of_floats. now rewrite (lp_int_float t p x y l).
  - split; [now apply lp_display_sliders|].
    intros V. rewrite V in Hv. injection Hv as Hv.
    destruct (exact_reason t p) eqn:R; [discriminate Hv|].
    apply exact_reason_None in R. unfold exact_lp_display. cbv zeta.
    replace (100 - t - p <? 1) with false by (symmetry; apply Z.ltb_ge; lia).
    replace (0 <? 100 - t - p) with true by (symmetry; apply Z.ltb_lt; lia).
    destruct (_ && _); cbn [Tk.warning_label Tk.lp_bar];
      (split; [discriminate|reflexivity]).
Qed.

Lemma lp_box_on_sliders_witness :
  0 <= 16 <= 30 /\ 0 <= 70 <= 100 /\
  float_of_int 16 = Ok lit_16 /\ float_of_int 70 = Ok Gui.lit_70 /\
  exists l,
    float_of_int (100 - 16 - 70) = Ok l /\
    lp_of (PFloat lit_16) (PFloat Gui.lit_70) = Ok (PFloat l) /\
    Tk.lp_display (PFloat l) (PFloat Gui.lit_70)
    = Ok (exact_lp_display (100 - 16 - 70) 70 l) /\
    (Gui.is_valid lit_16 Gui.lit_70 = Ok true ->
     Tk.warning_label (exact_lp_display (100 - 16 - 70) 70 l)
     <> Tk.warning_lp_minimum /\
     Tk.lp_bar (exact_lp_display (100 - 16 - 70) 70 l) = PFloat l).
Proof.
  split; [lia|]. split; [lia|].
  split; [vm_compute; reflexivity|]. split; [vm_compute; reflexivity|].
  apply (lp_box_on_sliders 16 70 lit_16 Gui.lit_70);
    try lia; vm_compute; reflexivity.
Defined.

(** ** The progress bar on any pair that passes *)

Lemma is_valid_true_lp x y :
  Gui.is_valid x y = Ok true ->
  lt (PFloat (fsub (fsub lit_100 x) y)) (PFloat lit_0_1) = false.
Proof.
  unfold Gui.is_valid. cbv zeta. rewrite lp_of_floats. cbn [bind add arith].
  destruct (ge _ _); [discriminate|].
  destruct (lt _ _); [discriminate|reflexivity].
Qed.

Lemma not_lt_0_1_K l :
  valid l -> is_nan l = false ->
  lt (PFloat l) (PFloat lit_0_1) = false -> K lit_0_1 <= K l.
Proof.
  intros V N. unfold lt. cbn [compare].
  rewrite SFcompare_K by (try assumption; reflexivity).
  destruct (Z.compare_spec (K l) (K lit_0_1)); intros E;
    [lia|discriminate E|lia].
Qed.

Lemma K_lit_0_1_pos : 0 < K lit_0_1.
Proof.
  rewrite K_lit_0_1. apply Z.mul_pos_pos; [reflexivity|apply pow2_pos; lia].
Qed.

Lemma gt_zero_K l :
  valid l -> is_nan l = false -> 0 < K l -> gt (PFloat l) (PInt 0) = true.
Proof.
  intros V N H. unfold gt. cbn [compare].
  rewrite compare_int_float_K
    by (try assumption; pose proof top_pos; lia).
  cbn [option_map]. change (0 * 2 ^ 1074) with 0.
  apply Z.compare_lt_iff in H. now rewrite H.
Qed.

Lemma ge_0_1_K l :
  valid l -> is_nan l = false -> K lit_0_1 <= K l ->
  ge (PFloat l) (PFloat lit_0_1) = true.
Proof.
  intros V N H. unfold ge. cbn [compare].
  rewrite SFcompare_K by (try assumption; reflexivity).
  destruct (Z.compare_spec (K l) (K lit_0_1)); try reflexivity. lia.
Qed.

(** X12: on any pair of doubles that passes the three checks and whose LP
    share is a number, the LP share is at least 0.1 and the progress bar is
    set to the LP share itself: [max(0, lp_percent)] never replaces it. *)
Theorem lp_bar_shows_lp (x y : float) :
  valid x -> valid y ->
  Gui.is_valid x y = Ok true ->
  is_nan (fsub (fsub lit_100 x) y) = false ->
  exists d,
    Tk.lp_display (PFloat (fsub (fsub lit_100 x) y)) (PFloat y) = Ok d /\
    Tk.lp_bar d = PFloat (fsub (fsub lit_100 x) y) /\
    ge (PFloat (fsub (fsub lit_100 x) y)) (PFloat lit_0_1) = true /\
    gt (PFloat (fsub (fsub lit_100 x) y)) (PInt 0) = true.
Proof.
  intros Vx Vy H N. set (l := fsub (fsub lit_100 x) y) in *.
  assert (valid l) as Vl.
  { apply SFsub_valid; [|exact Vy]. apply SFsub_valid; [reflexivity|exact Vx]. }
  pose proof (not_lt_0_1_K l Vl N (is_valid_true_lp x y H)) as HK.
  pose proof K_lit_0_1_pos as P.
  assert (gt (PFloat l) (PInt 0) = true) as G by (apply gt_zero_K; auto; lia).
  destruct (lp_display_float_total l y) as (d & E & B).
  exists d. split; [exact E|]. split.
  - rewrite B. unfold Builtin.max. now rewrite G.
  - split; [now apply ge_0_1_K|exact G].
Qed.

Lemma lp_bar_shows_lp_witness :
  valid lit_16 /\ valid Gui.lit_70 /\
  Gui.is_valid lit_16 Gui.lit_70 = Ok true /\
  is_nan (fsub (fsub lit_100 lit_16) Gui.lit_70) = false /\
  exists d,
    Tk.lp_display (PFloat (fsub (fsub lit_100 lit_16) Gui.lit_70))
                  (PFloat Gui.lit_70) = Ok d /\
    Tk.lp_bar d = PFloat (fsub (fsub lit_100 lit_16) Gui.lit_70) /\
    ge (PFloat (fsub (fsub lit_100 lit_16) Gui.lit_70)) (PFloat lit_0_1)
    = true /\
    gt (PFloat (fsub (fsub lit_100 lit_16) Gui.lit_70)) (PInt 0) = true.
Proof.
  split; [reflexivity|]. split; [reflexivity|].
  split; [vm_compute; reflexivity|]. split; [vm_compute; reflexivity|].
  apply (lp_bar_shows_lp lit_16 Gui.lit_70);
    try reflexivity; vm_compute; reflexivity.
Defined.

(** ** The total *)

(** Integers below [2^53] are added exactly. *)
Lemma fadd_integral x y n m :
  integral x n -> integral y m -> Z.abs (n + m) < 2 ^ 53 ->
  integral (fadd x y) (n + m).
Proof.
  intros (Vx & Fx & Kx) (Vy & Fy & Ky) H.
  pose proof (SFadd_rounds x y Vx Vy Fx Fy) as R.
  destruct (representable (n + m) 0) as (g & Vg & Fg & Kg); [lia|exact H|].
  change (0 + 1074) with 1074 in Kg.
  assert (K (fadd x y) = (n + m) * 2 ^ 1074) as KR.
  { unfold fadd.
    rewrite (rounds_to_K _ _ g R Vg (finite_not_nan _ Fg)) by lia. lia. }
  destruct R as (VR & NR & _).
  split; [exact VR|]. split; [|exact KR].
  apply not_infinite_finite; [exact VR|exact NR|].
  rewrite KR, <- Kg.
  pose proof (K_bounds g Vg).
  destruct g as [s|s| |s mg eg]; try discriminate Fg.
  - cbn [K]. pose proof top_pos. lia.
  - pose proof (K_finite_lt_top _ _ _ Vg).
    destruct s; cbn [K cond_Zopp]; lia.
Qed.

Lemma eq_integral x n m :
  integral x n -> Z.abs m < 2 ^ 53 -> eq (PFloat x) (PInt m) = (n =? m).
Proof.
  intros (Vx & Fx & Kx) Hm. unfold eq. cbn [compare].
  assert (0 < 2 ^ 1074) as P by (apply pow2_pos; lia).
  assert (2 ^ 53 * 2 ^ 1074 < top) as T.
  { unfold top. rewrite <- Z.pow_add_r by lia. apply pow2_lt; lia. }
  rewrite compare_int_float_K; [|exact Vx|now apply finite_not_nan|nia].
  cbn [option_map]. rewrite Kx, compare_mul_pos by exact P.
  rewrite (Z.compare_antisym n m), Z.eqb_compare.
  destruct (n ?= m); reflexivity.
Qed.

(** X13: on doubles that are integers (of magnitude up to 2^50, the
    slider values among them) the total [team + public + lp] that
    [update_calculations] computes is exactly 100, as the label it writes
    says. *)
Theorem total_percent_is_100 (team public : float) (t p : Z) :
  integral team t -> integral public p ->
  Z.abs t <= 2 ^ 50 -> Z.abs p <= 2 ^ 50 ->
  exists lp total,
    lp_of (PFloat team) (PFloat public) = Ok (PFloat lp) /\
    Tk.total_percent (PFloat team) (PFloat public) (PFloat lp)
    = Ok (PFloat total) /\
    integral total 100 /\
    eq (PFloat total) (PInt 100) = true.
Proof.
  intros It Ip Bt Bp.
  assert (2 ^ 50 + 2 ^ 50 + 100 < 2 ^ 53) as Small by reflexivity.
  set (lp := fsub (fsub lit_100 team) public).
  assert (integral lp (100 - t - p)) as Il.
  { apply fsub_integral; [|exact Ip|lia].
    apply fsub_integral; [exact lit_100_integral|exact It|lia]. }
  assert (integral (fadd (fadd team public) lp) 100) as I.
  { replace 100 with (t + p + (100 - t - p)) by lia.
    apply fadd_integral; [|exact Il|lia].
    apply fadd_integral; [exact It|exact Ip|lia]. }
  exists lp, (fadd (fadd team public) lp).
  split; [apply lp_of_floats|]. split; [reflexivity|]. split; [exact I|].
  rewrite (eq_integral _ 100 100 I) by lia. reflexivity.
Qed.

Lemma total_percent_is_100_witness :
  integral lit_16 16 /\ integral Gui.lit_70 70 /\
  Z.abs 16 <= 2 ^ 50 /\ Z.abs 70 <= 2 ^ 50 /\
  exists lp total,
    lp_of (PFloat lit_16) (PFloat Gui.lit_70) = Ok (PFloat lp) /\
    Tk.total_percent (PFloat lit_16) (PFloat Gui.lit_70) (PFloat lp)
    = Ok (PFloat total) /\
    integral total 100 /\
    eq (PFloat total) (PInt 100) = true.
Proof.
  assert (integral lit_16 16) as I1 by (repeat split).
  assert (integral Gui.lit_70 70) as I2 by (repeat split).
  split; [exact I1|]. split; [exact I2|].
  split; [vm_compute; discriminate|]. split; [vm_compute; discriminate|].
  apply (total_percent_is_100 lit_16 Gui.lit_70 16 70 I1 I2);
    vm_compute; discriminate.
Defined.

(* ================================================================== *)
(** * Edge values and the sliders themselves *)
(* ================================================================== *)

Lemma fsub_nan_r x : fsub x S754_nan = S754_nan.
Proof. now destruct x. Qed.

Lemma fadd_nan_r x : fadd x S754_nan = S754_nan.
Proof. now destruct x. Qed.

Lemma gt_nan_l b : gt (PFloat S754_nan) b = false.
Proof. unfold gt. destruct b as [z|y]; reflexivity. Qed.

Lemma lt_nan_l b : lt (PFloat S754_nan) b = false.
Proof. unfold lt. destruct b as [z|y]; reflexivity. Qed.

Lemma ge_nan_l b : ge (PFloat S754_nan) b = false.
Proof. unfold ge. destruct b as [z|y]; reflexivity. Qed.

(** X14: a NaN passes the validation: with a NaN for either percentage
    (and any double for the other) every comparison is false, so
    [validate_allocation] returns valid with a NaN LP share and no message,
    and the three checks of [validate_and_update] accept. *)
Theorem nan_passes_validation (y : float) :
  validate_allocation (PFloat S754_nan) (PFloat y)
  = Ok (true, PFloat S754_nan, "") /\
  validate_allocation (PFloat y) (PFloat S754_nan)
  = Ok (true, PFloat S754_nan, "") /\
  Gui.is_valid S754_nan y = Ok true /\
  Gui.is_valid y S754_nan = Ok true.
Proof.
  assert (lp_of (PFloat S754_nan) (PFloat y) = Ok (PFloat S754_nan)) as E1
    by (rewrite lp_of_floats; reflexivity).
  assert (lp_of (PFloat y) (PFloat S754_nan) = Ok (PFloat S754_nan)) as E2
    by (rewrite lp_of_floats; now rewrite fsub_nan_r).
  repeat split.
  - unfold validate_allocation. rewrite E1. cbn [bind].
    rewrite lt_nan_l. unfold and_then.
    destruct (gt (PFloat y) _); [|reflexivity].
    rewrite mul_float_float. cbn [bind]. now rewrite gt_nan_l.
  - unfold validate_allocation. rewrite E2. cbn [bind].
    now rewrite lt_nan_l, gt_nan_l.
  - unfold Gui.is_valid. cbv zeta. rewrite E1. cbn [bind add arith].
    change (fadd S754_nan y) with S754_nan.
    rewrite ge_nan_l, lt_nan_l. unfold and_then.
    destruct (gt (PFloat y) _); [|reflexivity].
    rewrite mul_float_float. cbn [bind]. now rewrite gt_nan_l.
  - unfold Gui.is_valid. cbv zeta. rewrite E2. cbn [bind add arith].
    rewrite fadd_nan_r, ge_nan_l, lt_nan_l, gt_nan_l. reflexivity.
Qed.

(** X15: the label of a Tk scale reads the same whether it is formatted
    from the int the scale was created with or from the float its variable
    returns; at the positions of the two percentage scales it is the
    integer with one decimal and a percent sign, and at the [k]-th position
    of the funds scale it is the amount in thousands, or in millions with
    two decimals, exactly. *)
Theorem slider_labels_exact :
  (forall n x,
      -30 <= n <= 100 -> float_of_int n = Ok x ->
      Tk.format_value_with_func (PInt n) None = Ok (int_1f n ++ "%") /\
      Tk.format_value_with_func (PFloat x) None = Ok (int_1f n ++ "%")) /\
  (forall k z,
      1 <= k <= 200 -> float_of_int (10000 * k) = Ok z ->
      Tk.format_value_with_func (PInt (10000 * k)) (Some Tk.format_currency)
      = Ok (exact_funds_text k) /\
      Tk.format_value_with_func (PFloat z) (Some Tk.format_currency)
      = Ok (exact_funds_text k)).
Proof.
  split.
  - intros n x Hn Hx. unfold Tk.format_value_with_func.
    rewrite <- (format_num_1f_int_float n x Hx), (format_num_1f_small n Hn).
    split; reflexivity.
  - intros k z Hk Hz.
    pose proof (on_range _ _ _ funds_label_at_sliders k ltac:(lia)) as H.
    unfold funds_label_at in H.
    assert (Tk.format_value_with_func (PInt (10000 * k))
              (Some Tk.format_currency) = Ok (exact_funds_text k)) as E.
    { destruct (Tk.format_value_with_func _ _) as [s|]; [|discriminate H].
      apply String.eqb_eq in H. now subst. }
    split; [exact E|]. rewrite <- E.
    unfold Tk.format_value_with_func, Tk.format_currency.
    now rewrite (funds_text_int_float k z Hk Hz).
Qed.

Lemma slider_labels_exact_witness :
  1 <= 123 <= 200 /\ float_of_int (10000 * 123) = Ok (F 0x12c4b000000000 (-32)) /\
  Tk.format_value_with_func (PInt (10000 * 123)) (Some Tk.format_currency)
  = Ok "$1.23M" /\
  Tk.format_value_with_func (PFloat (F 0x12c4b000000000 (-32)))
    (Some Tk.format_currency) = Ok "$1.23M".
Proof.
  split; [lia|]. split; [vm_compute; reflexivity|].
  apply (proj2 slider_labels_exact 123 (F 0x12c4b000000000 (-32)));
    [lia|vm_compute; reflexivity].
Defined.

Lemma resolution_cases from_ to :
  Tk.resolution from_ to
  = if (to <=? 100) && (to - from_ <=? 2000000) then 1 else 10000.
Proof.
  unfold Tk.resolution.
  destruct (to - from_ <=? 2000000) eqn:A, (to >? 100) eqn:B,
           (to <=? 100) eqn:C; try reflexivity; lia.
Qed.

(** X16: the three scales [__init__] creates have the range, the start
    and, through the resolution [create_slider] computes, the step of the
    three Streamlit sliders, and each start and each upper end lies on its
    slider's grid; in general the resolution is 1 for a scale that ends at
    100 or below and spans at most 2,000,000, and 10,000 otherwise. *)
Theorem scales_match_sliders :
  map slider_of_scale Tk.scales = Streamlit.sliders /\
  Forall (fun s => on_grid s (Streamlit.value s) /\
                   on_grid s (Streamlit.max_value s)) Streamlit.sliders /\
  (forall from_ to,
      Tk.resolution from_ to
      = if (to <=? 100) && (to - from_ <=? 2000000) then 1 else 10000).
Proof.
  split; [reflexivity|]. split; [|exact resolution_cases].
  repeat constructor; cbn; try lia.
  - exists 10. reflexivity.
  - exists 30. reflexivity.
  - exists 9. reflexivity.
  - exists 199. reflexivity.
  - exists 70. reflexivity.
  - exists 100. reflexivity.
Qed.

(* ================================================================== *)
(** * The first rule in exact arithmetic *)
(* ================================================================== *)

Lemma lt_int_0_1 n : n <= 0 -> lt (PInt n) (PFloat lit_0_1) = true.
Proof.
  intros H. unfold lt. cbn [compare compare_int_float lit_0_1 F cond_Zopp].
  change (Z.pow_pos 2 56) with 72057594037927936.
  replace (n * 72057594037927936 ?= 7205759403792794) with Lt; [reflexivity|].
  symmetry. apply Z.compare_lt_iff. lia.
Qed.

Lemma validate_allocation_true t p lp msg :
  validate_allocation t p = Ok (true, lp, msg) ->
  lp_of t p = Ok lp /\ lt lp (PFloat lit_0_1) = false.
Proof.
  unfold validate_allocation. destruct (lp_of t p) as [l|]; [|discriminate].
  cbn [bind]. destruct (lt l _) eqn:E; [discriminate|].
  destruct (and_then _ _) as [[|]|]; cbn [bind]; try discriminate.
  intros [= <- _]. auto.
Qed.

Lemma sum_ge_100_rejected x y :
  valid x -> valid y -> is_finite x = true -> is_finite y = true ->
  K lit_100 <= K x + K y ->
  lt (PFloat (fsub (fsub lit_100 x) y)) (PFloat lit_0_1) = true.
Proof.
  intros Vx Vy Fx Fy H.
  destruct constants_valid as (V100 & _).
  pose proof (SFsub_rounds lit_100 x V100 Vx eq_refl Fx) as (Va & Na & R).
  destruct (R y Vy (finite_not_nan _ Fy)) as [U _].
  specialize (U ltac:(lia)).
  assert (0 <= 2 ^ 1070) as P by (apply Z.pow_nonneg; lia).
  destruct (lp_below_floor (SFsub prec emax lit_100 x) y Va Na Vy Fy
              (sub_100_lt_top x Vx Fx) ltac:(lia)) as (Vl & Nl & Kl).
  now apply lt_0_1_K.
Qed.

(** X17: the validator never accepts a pair whose exact sum reaches 100:
    on ints, an accepted pair has team + public < 100; on finite doubles,
    an accepted pair has team + public < 100 as real numbers (in units of
    2^-1074), whatever the roundings of the two subtractions did. *)
Theorem accepted_sum_below_100 :
  (forall (t p : Z) lp msg,
      validate_allocation (PInt t) (PInt p) = Ok (true, lp, msg) ->
      t + p < 100) /\
  (forall (x y : float) lp msg,
      valid x -> valid y -> is_finite x = true -> is_finite y = true ->
      validate_allocation (PFloat x) (PFloat y) = Ok (true, lp, msg) ->
      K x + K y < K lit_100).
Proof.
  split.
  - intros t p lp msg H.
    destruct (validate_allocation_true _ _ _ _ H) as [Hlp Hlt].
    change (lp_of (PInt t) (PInt p))
      with (Ok (A := num) (PInt (100 - t - p))) in Hlp.
    assert (lp = PInt (100 - t - p)) as -> by congruence.
    destruct (Z_lt_le_dec (t + p) 100) as [C|C]; [exact C|].
    rewrite lt_int_0_1 in Hlt by lia. discriminate Hlt.
  - intros x y lp msg Vx Vy Fx Fy H.
    destruct (validate_allocation_true _ _ _ _ H) as [Hlp Hlt].
    rewrite lp_of_floats in Hlp.
    assert (lp = PFloat (fsub (fsub lit_100 x) y)) as -> by congruence.
    destruct (Z_lt_le_dec (K x + K y) (K lit_100)) as [C|C]; [exact C|].
    rewrite (sum_ge_100_rejected x y Vx Vy Fx Fy C) in Hlt. discriminate Hlt.
Qed.

Lemma accepted_sum_below_100_witness :
  validate_allocation (PInt 16) (PInt 70) = Ok (true, PInt 14, "") /\
  16 + 70 < 100.
Proof.
  assert (validate_allocation (PInt 16) (PInt 70) = Ok (true, PInt 14, ""))
    as E by (vm_compute; reflexivity).
  split; [exact E|].
  exact (proj1 accepted_sum_below_100 16 70 (PInt 14) "" E).
Defined.

(* ================================================================== *)
(** * Events compose *)
(* ================================================================== *)

(** [update_calculations] replaces the display and nothing else. *)
Lemma update_calculations_eq g :
  exists r,
    derived (PFloat (Gui.team_var g)) (PFloat (Gui.public_var g))
            (PFloat (Gui.funds_var g)) = Ok r /\
    Gui.update_calculations g
    = {| Gui.team_var := Gui.team_var g; Gui.funds_var := Gui.funds_var g;
         Gui.public_var := Gui.public_var g; Gui.prev_team := Gui.prev_team g;
         Gui.prev_public := Gui.prev_public g; Gui.shown := Some r |}.
Proof.
  destruct (derived_float_total (Gui.team_var g) (Gui.public_var g)
              (Gui.funds_var g)) as [r E].
  exists r. split; [exact E|].
  unfold Gui.update_calculations. unfold derived in E. now rewrite E.
Qed.

(** What [update_calculations] leaves depends on the variables and the
    committed pair only, not on what was shown before. *)
Lemma update_calculations_ext g g' :
  Gui.team_var g = Gui.team_var g' -> Gui.funds_var g = Gui.funds_var g' ->
  Gui.public_var g = Gui.public_var g' ->
  Gui.prev_team g = Gui.prev_team g' ->
  Gui.prev_public g = Gui.prev_public g' ->
  Gui.update_calculations g = Gui.update_calculations g'.
Proof.
  intros H1 H2 H3 H4 H5. unfold Gui.update_calculations.
  rewrite <- H1, <- H2, <- H3, <- H4, <- H5.
  destruct (derived_float_total (Gui.team_var g) (Gui.public_var g)
              (Gui.funds_var g)) as [r E].
  unfold derived in E. now rewrite E.
Qed.

Ltac same_update :=
  apply (f_equal Ok); apply update_calculations_ext;
  repeat match goal with
         | |- context [Gui.update_calculations ?s] =>
             let H1 := fresh in let H2 := fresh in let H3 := fresh in
             let H4 := fresh in let H5 := fresh in
             destruct (update_calculations_vars s) as (H1 & H2 & H3 & H4 & H5);
             cbn [Gui.team_var Gui.funds_var Gui.public_var Gui.prev_team
                  Gui.prev_public];
             rewrite ?H1, ?H2, ?H3, ?H4, ?H5; clear H1 H2 H3 H4 H5
         end;
  reflexivity.

Lemma handle_team g v :
  Gui.handle g (Gui.SetTeam v)
  = if match Gui.is_valid v (Gui.public_var g) with
       | Ok b => b
       | Raise _ => false
       end
    then
      Ok (Gui.update_calculations
            {| Gui.team_var := v; Gui.funds_var := Gui.funds_var g;
               Gui.public_var := Gui.public_var g; Gui.prev_team := v;
               Gui.prev_public := Gui.public_var g;
               Gui.shown := Gui.shown g |})
    else
      Ok {| Gui.team_var := Gui.prev_team g; Gui.funds_var := Gui.funds_var g;
            Gui.public_var := Gui.public_var g;
            Gui.prev_team := Gui.prev_team g;
            Gui.prev_public := Gui.prev_public g; Gui.shown := Gui.shown g |}.
Proof.
  cbn [Gui.handle]. unfold Gui.validate_and_update.
  cbn [Gui.team_var Gui.public_var Gui.funds_var Gui.prev_team
       Gui.prev_public Gui.shown].
  destruct (is_valid_total v (Gui.public_var g)) as [[|] ->]; reflexivity.
Qed.

Lemma handle_public g v :
  Gui.handle g (Gui.SetPublic v)
  = if match Gui.is_valid (Gui.team_var g) v with
       | Ok b => b
       | Raise _ => false
       end
    then
      Ok (Gui.update_calculations
            {| Gui.team_var := Gui.team_var g; Gui.funds_var := Gui.funds_var g;
               Gui.public_var := v; Gui.prev_team := Gui.team_var g;
               Gui.prev_public := v; Gui.shown := Gui.shown g |})
    else
      Ok {| Gui.team_var := Gui.team_var g; Gui.funds_var := Gui.funds_var g;
            Gui.public_var := Gui.prev_public g;
            Gui.prev_team := Gui.prev_team g;
            Gui.prev_public := Gui.prev_public g; Gui.shown := Gui.shown g |}.
Proof.
  cbn [Gui.handle]. unfold Gui.validate_and_update.
  cbn [Gui.team_var Gui.public_var Gui.funds_var Gui.prev_team
       Gui.prev_public Gui.shown].
  destruct (is_valid_total (Gui.team_var g) v) as [[|] ->]; reflexivity.
Qed.

(** X18: handling the same event a second time changes nothing: the
    state after an event is a fixed point of that event. *)
Theorem handle_idempotent (g : Gui.state) (ev : Gui.event) :
  exists g1, Gui.handle g ev = Ok g1 /\ Gui.handle g1 ev = Ok g1.
Proof.
  destruct ev as [v|v|v].
  - rewrite handle_team.
    destruct (is_valid_total v (Gui.public_var g)) as [[|] E]; rewrite E.
    + eexists. split; [reflexivity|]. rewrite handle_team.
      match goal with |- context [Gui.update_calculations ?s] =>
        destruct (update_calculations_vars s) as (_ & H2 & _)
      end.
      rewrite H2. cbn [Gui.public_var]. rewrite E. same_update.
    + eexists. split; [reflexivity|]. rewrite handle_team.
      cbn [Gui.public_var]. rewrite E. reflexivity.
  - cbn [Gui.handle]. eexists. split; [reflexivity|]. same_update.
  - rewrite handle_public.
    destruct (is_valid_total (Gui.team_var g) v) as [[|] E]; rewrite E.
    + eexists. split; [reflexivity|]. rewrite handle_public.
      match goal with |- context [Gui.update_calculations ?s] =>
        destruct (update_calculations_vars s) as (H1 & _)
      end.
      rewrite H1. cbn [Gui.team_var]. rewrite E. same_update.
    + eexists. split; [reflexivity|]. rewrite handle_public.
      cbn [Gui.team_var]. rewrite E. reflexivity.
Qed.

(** X19: the funds slider is independent of the two percentage sliders:
    when the variables show the committed pair, a funds event and a team
    (or public) event lead to the same state in either order. *)
Theorem funds_event_commutes (g : Gui.state) (f v : float) :
  in_sync g ->
  Gui.run g [Gui.SetFunds f; Gui.SetTeam v]
  = Gui.run g [Gui.SetTeam v; Gui.SetFunds f] /\
  Gui.run g [Gui.SetFunds f; Gui.SetPublic v]
  = Gui.run g [Gui.SetPublic v; Gui.SetFunds f].
Proof.
  intros [St Sp]. split; cbn [Gui.run].
  - rewrite (handle_team g v).
    change (Gui.handle g (Gui.SetFunds f))
      with (Ok (Gui.update_calculations
                  {| Gui.team_var := Gui.team_var g; Gui.funds_var := f;
                     Gui.public_var := Gui.public_var g;
                     Gui.prev_team := Gui.prev_team g;
                     Gui.prev_public := Gui.prev_public g;
                     Gui.shown := Gui.shown g |})).
    cbn [bind]. rewrite handle_team.
    match goal with |- context [Gui.update_calculations ?s] =>
      destruct (update_calculations_vars s) as (H1 & H2 & H3 & H4 & H5)
    end.
    rewrite H2. cbn [Gui.public_var].
    destruct (is_valid_total v (Gui.public_var g)) as [[|] E]; rewrite E;
      cbn [bind Gui.handle].
    + same_update.
    + cbn [Gui.funds_var Gui.prev_team Gui.prev_public Gui.team_var
           Gui.public_var Gui.shown].
      rewrite H3, H4, H5.
      cbn [Gui.funds_var Gui.prev_team Gui.prev_public Gui.team_var
           Gui.public_var Gui.shown].
      rewrite <- St.
      match goal with |- context [Gui.update_calculations ?s] =>
        destruct (update_calculations_eq s) as (r & _ & ->)
      end.
      reflexivity.
  - rewrite (handle_public g v).
    change (Gui.handle g (Gui.SetFunds f))
      with (Ok (Gui.update_calculations
                  {| Gui.team_var := Gui.team_var g; Gui.funds_var := f;
                     Gui.public_var := Gui.public_var g;
                     Gui.prev_team := Gui.prev_team g;
                     Gui.prev_public := Gui.prev_public g;
                     Gui.shown := Gui.shown g |})).
    cbn [bind]. rewrite handle_public.
    match goal with |- context [Gui.update_calculations ?s] =>
      destruct (update_calculations_vars s) as (H1 & H2 & H3 & H4 & H5)
    end.
    rewrite H1. cbn [Gui.team_var].
    destruct (is_valid_total (Gui.team_var g) v) as [[|] E]; rewrite E;
      cbn [bind Gui.handle].
    + same_update.
    + cbn [Gui.funds_var Gui.prev_team Gui.prev_public Gui.team_var
           Gui.public_var Gui.shown].
      rewrite H3, H4, H5.
      cbn [Gui.funds_var Gui.prev_team Gui.prev_public Gui.team_var
           Gui.public_var Gui.shown].
      rewrite <- Sp.
      match goal with |- context [Gui.update_calculations ?s] =>
        destruct (update_calculations_eq s) as (r & _ & ->)
      end.
      reflexivity.
Qed.

Lemma funds_event_commutes_witness :
  in_sync Gui.init /\
  Gui.run Gui.init [Gui.SetFunds lit_10000; Gui.SetTeam lit_16]
  = Gui.run Gui.init [Gui.SetTeam lit_16; Gui.SetFunds lit_10000].
Proof.
  split; [exact init_in_sync|].
  exact (proj1 (funds_event_commutes Gui.init lit_10000 lit_16 init_in_sync)).
Defined.

(* ================================================================== *)
(** * Quotients that do not overflow *)
(* ================================================================== *)











(* ================================================================== *)
(** * The derivation on numbers that fit a double *)
(* ================================================================== *)




(** ** The derivation on numbers that fit a double *)








(* ================================================================== *)
(** * The text of a rendered number *)
(* ================================================================== *)

Lemma all_chars_app f s1 s2 :
  all_chars f (s1 ++ s2) = all_chars f s1 && all_chars f s2.
Proof.
  induction s1 as [|c s1 IH]; cbn; [reflexivity|].
  now rewrite IH, andb_assoc.
Qed.



(** *** Decimal digits *)








(** *** Commas *)












(** *** The two sides of the point *)



(** *** The rounding *)





(** *** The text of a finite double *)



(* ================================================================== *)
(** * [format_number], branch by branch *)
(* ================================================================== *)






